(** * Trending aggregation and ranking engine (src/dataProcessor.js)

    A shallow embedding of the data-processing module of the GitHub trending
    report generator: the snapshot reader [readHistoryData], the aggregator
    [calculateRanking], the summary resolver ([simpleTranslate],
    [getChineseSummary], [translateWithCache], [getDetailedDescription]) and
    the builder [generateRankingData], followed by the properties the
    specification states about them.

    The embedding goes on with the functions around these: the loader of the
    curated summaries [loadProjectSummaries], the cache file
    ([loadTranslationCache], [saveTranslationCache]), the report dates
    ([getAllAvailableDates], [getRecentDates], [getYearOptions],
    [generateHistoryDatesHTML]) and, from the other modules of the
    generator, [escapeHTML] and [generateProjectCard] (markdownParser.js),
    [findLatestMarkdownFile] (html_generator.js) and [getAllDatesToProcess]
    (regenerate_history.js), with further properties of the code.

    Conventions of the embedding.
    - A JavaScript string is the list of its UTF-16 code units ([jstring]);
      [length] is therefore the JavaScript [.length].
    - [toLowerCase] folds the Basic Latin letters only.  Repository names and
      the keyword table are Basic Latin; for the regular expressions built
      from the keyword table (flags [gi], no [u]) this is exact, since such
      an expression never lets a code unit above 127 match one below 128.
    - Objects used as dictionaries are finite maps from strings to strings
      for their own properties.  A lookup in the curated summaries also
      finds what every object inherits from [Object.prototype] ([objGet],
      [JsValue]); the translation cache is read under lower-cased full
      names, which with their slash are no such property.
    - A write to a file succeeds, fails before the file is opened, or fails
      after the file was truncated ([WriteResult]).
    - Fields of a parsed snapshot entry are strings when present.
    - Numbers that the code computes with are integers ([Z], [nat]); the
      rounding of doubles above 2^53 is not modelled.
    - A regular expression is the list of its atoms, each a class of code
      units with a quantifier; a match tries the numbers of repetitions in
      the order backtracking does. *)

From Stdlib Require Import String Ascii.
From Stdlib Require Import List ZArith NArith Lia Bool Arith.
From Stdlib Require Import Permutation Sorted.
Import ListNotations.

Set Implicit Arguments.

(* ================================================================== *)
(** ** JavaScript strings *)

Module Js.

(** A string value: its UTF-16 code units. *)
Definition jstring : Type := list N.

(** Reading of a UTF-8 source literal into UTF-16 code units, so that the
    tables below can be written as they are in the source file. *)
Fixpoint utf16_of_utf8 (bs : list N) : jstring :=
  match bs with
  | [] => []
  | b0 :: r0 =>
    if (b0 <? 128)%N then b0 :: utf16_of_utf8 r0
    else if (b0 <? 224)%N then
      match r0 with
      | b1 :: r1 =>
        N.lor (N.shiftl (N.land b0 31) 6) (N.land b1 63) :: utf16_of_utf8 r1
      | [] => []
      end
    else if (b0 <? 240)%N then
      match r0 with
      | b1 :: b2 :: r2 =>
        N.lor (N.shiftl (N.land b0 15) 12)
              (N.lor (N.shiftl (N.land b1 63) 6) (N.land b2 63))
          :: utf16_of_utf8 r2
      | _ => []
      end
    else
      match r0 with
      | b1 :: b2 :: b3 :: r3 =>
        let cp := N.lor (N.shiftl (N.land b0 7) 18)
                 (N.lor (N.shiftl (N.land b1 63) 12)
                 (N.lor (N.shiftl (N.land b2 63) 6) (N.land b3 63))) in
        let v := (cp - 65536)%N in
        (55296 + N.shiftr v 10)%N :: (56320 + N.land v 1023)%N
          :: utf16_of_utf8 r3
      | _ => []
      end
  end.

Definition s2j (s : string) : jstring :=
  utf16_of_utf8 (map N_of_ascii (list_ascii_of_string s)).

(** [a === b] on strings. *)
Fixpoint jeqb (a b : jstring) : bool :=
  match a, b with
  | [], [] => true
  | x :: a', y :: b' => (x =? y)%N && jeqb a' b'
  | _, _ => false
  end.

(** A string is truthy when it is not empty. *)
Definition truthy (s : jstring) : bool :=
  match s with [] => false | _ => true end.

(** [o || d] for a field that may be missing. *)
Definition orElse (o : option jstring) (d : jstring) : jstring :=
  match o with
  | Some (c :: s) => c :: s
  | _ => d
  end.

Definition lowerUnit (c : N) : N :=
  if ((65 <=? c) && (c <=? 90))%N then (c + 32)%N else c.

Definition toLowerCase (s : jstring) : jstring := map lowerUnit s.

(** [s.startsWith(p)] *)
Fixpoint startsWith (s p : jstring) : bool :=
  match p, s with
  | [], _ => true
  | x :: p', y :: s' => (x =? y)%N && startsWith s' p'
  | _ :: _, [] => false
  end.

(** [s.endsWith(p)] *)
Definition endsWith (s p : jstring) : bool :=
  (length p <=? length s) && jeqb (skipn (length s - length p) s) p.

(** [s.includes(p)] *)
Fixpoint includes (s p : jstring) : bool :=
  startsWith s p ||
  match s with
  | [] => false
  | _ :: s' => includes s' p
  end.

(** Does the pattern [p] (a literal, flag [i]) match at the head of [s]? *)
Fixpoint matchesAt (s p : jstring) : bool :=
  match p, s with
  | [], _ => true
  | x :: p', y :: s' => (lowerUnit x =? lowerUnit y)%N && matchesAt s' p'
  | _ :: _, [] => false
  end.

(** [s.replace(new RegExp(p, 'gi'), r)] for a literal, non-empty pattern
    [p] and a replacement [r] without [$]: matches are found from left to
    right and do not overlap.  [skip] counts the units of the current
    match that remain to be dropped. *)
Fixpoint replaceFrom (p r : jstring) (skip : nat) (s : jstring) : jstring :=
  match s with
  | [] => []
  | c :: s' =>
    match skip with
    | S k => replaceFrom p r k s'
    | O =>
      if matchesAt s p
      then r ++ replaceFrom p r (length p - 1) s'
      else c :: replaceFrom p r 0 s'
    end
  end.

Definition replaceAllCI (p r s : jstring) : jstring := replaceFrom p r 0 s.

(** [s.replace(/,/g, '')] *)
Definition stripCommas (s : jstring) : jstring :=
  filter (fun c => negb (c =? 44)%N) s.

(** [s.split('/')] *)
Fixpoint split (sep : N) (s : jstring) : list jstring :=
  match s with
  | [] => [[]]
  | c :: s' =>
    if (c =? sep)%N then [] :: split sep s'
    else match split sep s' with
         | w :: ws => (c :: w) :: ws
         | [] => [[c]]
         end
  end.

(** Order of the code units, as the default [Array.prototype.sort] uses. *)
Fixpoint jleb (a b : jstring) : bool :=
  match a, b with
  | [], _ => true
  | _ :: _, [] => false
  | x :: a', y :: b' =>
    if (x <? y)%N then true
    else if (y <? x)%N then false
    else jleb a' b'
  end.

(** White space that [parseInt] skips (StrWhiteSpaceChar). *)
Definition isWhite (c : N) : bool :=
  existsb (N.eqb c)
    [9; 10; 11; 12; 13; 32; 160; 5760; 8192; 8193; 8194; 8195; 8196; 8197;
     8198; 8199; 8200; 8201; 8202; 8232; 8233; 8239; 8287; 12288; 65279]%N.

Fixpoint skipWhite (s : jstring) : jstring :=
  match s with
  | c :: s' => if isWhite c then skipWhite s' else s
  | [] => []
  end.

(** Value of a digit in the given radix (10 or 16). *)
Definition digitVal (radix : Z) (c : N) : option Z :=
  let z := Z.of_N c in
  if ((48 <=? z) && (z <=? 57))%Z then Some (z - 48)%Z
  else if (radix =? 16)%Z && ((97 <=? z) && (z <=? 102))%Z then Some (z - 87)%Z
  else if (radix =? 16)%Z && ((65 <=? z) && (z <=? 70))%Z then Some (z - 55)%Z
  else None.

(** Longest prefix of digits, read with accumulator [acc]; [None] when
    there is no digit at all. *)
Fixpoint readDigits (radix : Z) (acc : option Z) (s : jstring) : option Z :=
  match s with
  | [] => acc
  | c :: s' =>
    match digitVal radix c with
    | Some d =>
      readDigits radix
        (Some (match acc with Some a => a * radix + d | None => d end)%Z) s'
    | None => acc
    end
  end.

(** [parseInt(s)] without a radix argument; [None] is NaN. *)
Definition parseInt (s : jstring) : option Z :=
  let s1 := skipWhite s in
  let '(sign, s2) :=
    match s1 with
    | 45%N :: t => ((-1)%Z, t)
    | 43%N :: t => (1%Z, t)
    | _ => (1%Z, s1)
    end in
  let '(radix, s3) :=
    match s2 with
    | 48%N :: 120%N :: t => (16%Z, t)
    | 48%N :: 88%N :: t => (16%Z, t)
    | _ => (10%Z, s2)
    end in
  match readDigits radix None s3 with
  | Some v => Some (sign * v)%Z
  | None => None
  end.

(** [n || 0] for a number that may be NaN. *)
Definition orZero (o : option Z) : Z :=
  match o with Some v => v | None => 0%Z end.

End Js.
Import Js.

(* ================================================================== *)
(** ** Configuration (config.js) *)

Module config.
(** [config.ranking] *)
Definition week : Z := 7%Z.
Definition month : Z := 30%Z.
Definition quarter : Z := 90%Z.
Definition maxItems : nat := 10.
(** [config.filePatterns] *)
Definition trendingPrefix : jstring := s2j "trending_".
Definition trendingExt : jstring := s2j ".json".
End config.

(* ================================================================== *)
(** ** Data model *)

(** One entry of a parsed snapshot; a field that is missing or [null] is
    [None]. *)
Record Entry : Type := mkEntry {
  e_name : option jstring;
  e_url : option jstring;
  e_description : option jstring;
  e_stars : option jstring
}.

(** The value [JSON.parse] gave for a snapshot file: an array, whose elements
    are objects ([Some]) or values without properties such as [null]
    ([None]), or something that is not an array. *)
Inductive SnapshotJson : Type :=
| NotArray
| ArrayOf (entries : list (option Entry)).

(** What reading and parsing a file gives: [readFileSync] or [JSON.parse]
    throws, or a value comes out. *)
Inductive FileBody : Type :=
| Unparsable
| Parsed (v : SnapshotJson).

(** [{ date, data }] as [readHistoryData] pushes it. *)
Record HistoryItem : Type := mkHistory {
  h_date : jstring;
  h_data : SnapshotJson
}.

(** The object stored in [repoMap] for one repository. *)
Record RepoInfo : Type := mkRepo {
  name : jstring;
  url : jstring;
  description : jstring;
  stars : jstring;
  count : nat;
  dates : list jstring
}.

(** What a lookup in a plain object evaluates to: a string of the object's
    own, or the value every object inherits under that name from
    [Object.prototype] (a function, or the prototype itself under
    [__proto__]), which is truthy and is not a string. *)
Inductive JsValue : Type :=
| Str (s : jstring)
| Inherited (property : jstring).

Definition jsTruthy (v : JsValue) : bool :=
  match v with
  | Str s => truthy s
  | Inherited _ => true
  end.

(** A ranking entry after [enrichRankingItem]. *)
Record RankingItem : Type := mkItem {
  item : RepoInfo;
  chineseDesc : JsValue;
  detailedDesc : JsValue
}.

(** The object [generateRankingData] returns and writes. *)
Record RankingData : Type := mkRanking {
  r_week : list RankingItem;
  r_month : list RankingItem;
  r_quarter : list RankingItem
}.

(** An object used as a dictionary, keys in insertion order. *)
Definition Dict : Type := list (jstring * jstring).

Fixpoint dictGet (d : Dict) (k : jstring) : option jstring :=
  match d with
  | [] => None
  | (k', v) :: d' => if jeqb k' k then Some v else dictGet d' k
  end.

(** [d[k] = v] *)
Fixpoint dictSet (d : Dict) (k v : jstring) : Dict :=
  match d with
  | [] => [(k, v)]
  | (k', v') :: d' =>
    if jeqb k' k then (k', v) :: d' else (k', v') :: dictSet d' k v
  end.

(** [d[k]] when it is truthy. *)
Definition dictTruthy (d : Dict) (k : jstring) : option jstring :=
  match dictGet d k with
  | Some (c :: v) => Some (c :: v)
  | _ => None
  end.

(** The names of the properties of [Object.prototype]. *)
Definition prototypeNames : list jstring :=
  map s2j
      ["constructor"; "__defineGetter__"; "__defineSetter__";
       "hasOwnProperty"; "__lookupGetter__"; "__lookupSetter__";
       "isPrototypeOf"; "propertyIsEnumerable"; "toString"; "valueOf";
       "__proto__"; "toLocaleString"]%string.

(** [o[k]] for a plain object [o] whose own properties are the entries of
    [d]: an own property goes before an inherited one, and the accessor
    [__proto__] answers for every object. *)
Definition objGet (d : Dict) (k : jstring) : option JsValue :=
  if jeqb k (s2j "__proto__") then Some (Inherited k)
  else
    match dictGet d k with
    | Some v => Some (Str v)
    | None =>
      if existsb (jeqb k) prototypeNames then Some (Inherited k) else None
    end.

(** [o[k]] when it is truthy. *)
Definition objTruthy (d : Dict) (k : jstring) : option JsValue :=
  match objGet d k with
  | Some v => if jsTruthy v then Some v else None
  | None => None
  end.

(** [o[k] = v] for a string [v]: the setter of [__proto__] ignores it. *)
Definition objSet (d : Dict) (k v : jstring) : Dict :=
  if jeqb k (s2j "__proto__") then d else dictSet d k v.

(* ================================================================== *)
(** ** The world the module runs in *)

(** The data directory as [fs] shows it. *)
Inductive DirState : Type :=
| NoDir                                        (* existsSync is false *)
| DirUnreadable                                (* readdirSync throws *)
| Dir (files : list (jstring * FileBody)).     (* names and contents *)

(** The translation cache file. *)
Inductive CacheFile : Type :=
| CacheAbsent
| CacheCorrupt
| CacheContent (d : Dict).

(** The ranking file: absent, written from a ranking, or cut short by a
    write that failed. *)
Inductive RankingFile : Type :=
| RankingAbsent
| RankingDamaged
| RankingContent (r : RankingData).

(** How a call of [fs.writeFileSync] ends: it writes the file; or it fails
    before the file is opened (no permission, no directory) and the file
    is as it was; or it fails after the file was opened, which truncates
    it, and what is left is at most a part of the text. *)
Inductive WriteResult : Type :=
| Written
| Refused
| Cut.

(** Lines written to the console. *)
Inductive LogMsg : Type :=
| WarnNoDataDir
| WarnNoTrendingFiles
| ErrorHistoryFile (file : jstring)
| ErrorHistory
| LogRankingWritten
| ErrorRankingWrite
| LogCacheLoaded
| WarnCacheLoad
| LogCacheSaved
| WarnCacheSave.

Record World : Type := mkWorld {
  (** [new Date()] at its k-th evaluation, and the evaluations so far *)
  clock : nat -> Z;
  ticks : nat;
  (** files *)
  dataDir : DirState;
  cacheFile : CacheFile;
  rankingFile : RankingFile;
  (** how [writeFileSync] ends on the two output files *)
  cacheWrite : WriteResult;
  rankingWrite : WriteResult;
  (** [config.openai.enabled && config.openai.apiKey] *)
  openaiConfigured : bool;
  (** module variables *)
  projectSummariesCache : Dict;
  translationCache : Dict;
  (** requests handed to [translateWithOpenAI]: cache key and text *)
  dispatched : list (jstring * jstring);
  console : list LogMsg
}.

(** A JavaScript exception. *)
Inductive Exn : Type :=
| FsError
| SyntaxError.

Inductive Outcome (A : Type) : Type :=
| Returned (a : A)
| Thrown (e : Exn).
Arguments Thrown {A} e.

(** Computations of the module: they read and change the world and return
    or throw. *)
Definition M (A : Type) : Type := World -> Outcome A * World.

Definition ret {A} (a : A) : M A := fun w => (Returned a, w).

Definition throw {A} (e : Exn) : M A := fun w => (Thrown e, w).

Definition bind {A B} (m : M A) (k : A -> M B) : M B :=
  fun w =>
    match m w with
    | (Returned a, w') => k a w'
    | (Thrown e, w') => (Thrown e, w')
    end.

(** [try { m } catch (e) { h e }] *)
Definition tryCatch {A} (m : M A) (h : Exn -> M A) : M A :=
  fun w =>
    match m w with
    | (Returned a, w') => (Returned a, w')
    | (Thrown e, w') => h e w'
    end.

Notation "x <- m ;; k" := (bind m (fun x => k))
  (at level 61, m at next level, right associativity).
Notation "m ;;; k" := (bind m (fun _ => k))
  (at level 61, right associativity).

Definition getWorld : M World := fun w => (Returned w, w).

Definition modify (f : World -> World) : M unit := fun w => (Returned tt, f w).

Definition withConsole (c : list LogMsg) (w : World) : World :=
  mkWorld (clock w) (ticks w) (dataDir w) (cacheFile w) (rankingFile w)
          (cacheWrite w) (rankingWrite w) (openaiConfigured w)
          (projectSummariesCache w) (translationCache w) (dispatched w) c.

Definition withTicks (n : nat) (w : World) : World :=
  mkWorld (clock w) n (dataDir w) (cacheFile w) (rankingFile w)
          (cacheWrite w) (rankingWrite w) (openaiConfigured w)
          (projectSummariesCache w) (translationCache w) (dispatched w)
          (console w).

Definition withTranslationCache (d : Dict) (w : World) : World :=
  mkWorld (clock w) (ticks w) (dataDir w) (cacheFile w) (rankingFile w)
          (cacheWrite w) (rankingWrite w) (openaiConfigured w)
          (projectSummariesCache w) d (dispatched w) (console w).

Definition withDispatched (l : list (jstring * jstring)) (w : World) : World :=
  mkWorld (clock w) (ticks w) (dataDir w) (cacheFile w) (rankingFile w)
          (cacheWrite w) (rankingWrite w) (openaiConfigured w)
          (projectSummariesCache w) (translationCache w) l (console w).

Definition withCacheFile (f : CacheFile) (w : World) : World :=
  mkWorld (clock w) (ticks w) (dataDir w) f (rankingFile w)
          (cacheWrite w) (rankingWrite w) (openaiConfigured w)
          (projectSummariesCache w) (translationCache w) (dispatched w)
          (console w).

Definition withRankingFile (f : RankingFile) (w : World) : World :=
  mkWorld (clock w) (ticks w) (dataDir w) (cacheFile w) f
          (cacheWrite w) (rankingWrite w) (openaiConfigured w)
          (projectSummariesCache w) (translationCache w) (dispatched w)
          (console w).

(** [console.log], [console.warn], [console.error] *)
Definition consoleWrite (m : LogMsg) : M unit :=
  modify (fun w => withConsole (console w ++ [m]) w).

(** [new Date().getTime()] *)
Definition newDate : M Z :=
  fun w => (Returned (clock w (ticks w)), withTicks (S (ticks w)) w).

(** [fs.existsSync(dataDir)] *)
Definition existsSyncDataDir : M bool :=
  fun w => (Returned (match dataDir w with NoDir => false | _ => true end), w).

(** [fs.readdirSync(dataDir)] *)
Definition readdirSync : M (list jstring) :=
  fun w =>
    match dataDir w with
    | Dir files => (Returned (map fst files), w)
    | _ => (Thrown FsError, w)
    end.

Fixpoint lookupFile (files : list (jstring * FileBody)) (file : jstring)
  : option FileBody :=
  match files with
  | [] => None
  | (f, b) :: files' => if jeqb f file then Some b else lookupFile files' file
  end.

(** [JSON.parse(fs.readFileSync(path.join(dataDir, file), 'utf8'))] *)
Definition readJsonFile (file : jstring) : M SnapshotJson :=
  fun w =>
    match dataDir w with
    | Dir files =>
      match lookupFile files file with
      | Some (Parsed v) => (Returned v, w)
      | Some Unparsable => (Thrown SyntaxError, w)
      | None => (Thrown FsError, w)
      end
    | _ => (Thrown FsError, w)
    end.

(* ================================================================== *)
(** ** Dates in file names *)

Definition isDigit (c : N) : bool := ((48 <=? c) && (c <=? 57))%N.

Definition isHyphen (c : N) : bool := (c =? 45)%N.

(** [\d{4}-\d{2}-\d{2}] against the whole of [d] *)
Definition dateShape (d : jstring) : bool :=
  match d with
  | [y1; y2; y3; y4; h1; m1; m2; h2; d1; d2] =>
    isDigit y1 && isDigit y2 && isDigit y3 && isDigit y4 && isHyphen h1 &&
    isDigit m1 && isDigit m2 && isHyphen h2 && isDigit d1 && isDigit d2
  | _ => false
  end.

(** The expression [/trending_(\d{4}-\d{2}-\d{2})\.json/] at the head of
    [s]; the captured group when it matches. *)
Definition matchHere (s : jstring) : option jstring :=
  let r := skipn 9 s in
  let d := firstn 10 r in
  if startsWith s (s2j "trending_") && dateShape d
     && startsWith (skipn 10 r) (s2j ".json")
  then Some d else None.

(** [file.match(/trending_(\d{4}-\d{2}-\d{2})\.json/)]: group 1 of the
    leftmost match; the expression is not anchored. *)
Fixpoint fileMatch (s : jstring) : option jstring :=
  match matchHere s with
  | Some d => Some d
  | None =>
    match s with
    | [] => None
    | _ :: s' => fileMatch s'
    end
  end.

Local Open Scope Z_scope.

(** Days from 1970-01-01 to the given day of the proleptic Gregorian
    calendar (MakeDay); linear in [d], so that a day past the end of its
    month runs into the next one. *)
Definition daysFromCivil (y m d : Z) : Z :=
  let y' := if m <=? 2 then y - 1 else y in
  let era := y' / 400 in
  let yoe := y' - era * 400 in
  let mp := (m + 9) mod 12 in
  let doy := (153 * mp + 2) / 5 + d - 1 in
  let doe := yoe * 365 + yoe / 4 - yoe / 100 + doy in
  era * 146097 + doe - 719468.

Definition msPerDay : Z := 24 * 60 * 60 * 1000.

Definition dig (c : N) : Z := Z.of_N c - 48.

(** [new Date(key).getTime()] for a key of the shape above, as Node.js
    reads it: UTC midnight; a month outside 1..12 or a day outside 1..31
    gives an invalid date ([None]). *)
Definition parseDate (key : jstring) : option Z :=
  match key with
  | [y1; y2; y3; y4; _; m1; m2; _; d1; d2] =>
    let y := dig y1 * 1000 + dig y2 * 100 + dig y3 * 10 + dig y4 in
    let m := dig m1 * 10 + dig m2 in
    let d := dig d1 * 10 + dig d2 in
    if (1 <=? m) && (m <=? 12) && (1 <=? d) && (d <=? 31)
    then Some (daysFromCivil y m d * msPerDay)
    else None
  | _ => None
  end.

Local Close Scope Z_scope.

(* ================================================================== *)
(** ** [Array.prototype.sort] *)

(** The sort of the runtime is stable; for a comparison function that is a
    total preorder the result does not depend on the algorithm.  It is
    given here by insertion from the right. *)
Section Sort.
Variable A : Type.
Variable cmp : A -> A -> Z.

Fixpoint insertSorted (x : A) (l : list A) : list A :=
  match l with
  | [] => [x]
  | y :: l' =>
    if (cmp x y <=? 0)%Z then x :: y :: l' else y :: insertSorted x l'
  end.

Fixpoint sortWith (l : list A) : list A :=
  match l with
  | [] => []
  | x :: l' => insertSorted x (sortWith l')
  end.

(** [a] may stand before [b]. *)
Definition cmpLe (a b : A) : Prop := (cmp a b <= 0)%Z.

(** Two elements are tied when the comparison puts neither first. *)
Definition tied (a b : A) : bool :=
  ((cmp a b <=? 0) && (cmp b a <=? 0))%Z.
End Sort.

(** The comparison [sort()] uses when it is given none. *)
Definition defaultCompare (a b : jstring) : Z :=
  if negb (jleb b a) then (-1)%Z
  else if negb (jleb a b) then 1%Z
  else 0%Z.

(* ================================================================== *)
(** ** Snapshot store reader: [readHistoryData] *)

(** The first filter: prefix and extension. *)
Definition isTrendingFile (file : jstring) : bool :=
  startsWith file config.trendingPrefix && endsWith file config.trendingExt.

(** The second filter: [fileDate >= cutoffDate && fileDate <= now]; a
    comparison with an invalid date is false. *)
Definition isRecent (now cutoffDate : Z) (file : jstring) : bool :=
  match fileMatch file with
  | None => false
  | Some key =>
    match parseDate key with
    | Some fileDate => (cutoffDate <=? fileDate)%Z && (fileDate <=? now)%Z
    | None => false
    end
  end.

(** The loop over [recentFiles]. *)
Fixpoint readFiles (recentFiles : list jstring) (historyData : list HistoryItem)
  : M (list HistoryItem) :=
  match recentFiles with
  | [] => ret historyData
  | file :: rest =>
    historyData' <-
      tryCatch
        (data <- readJsonFile file ;;
         let date := match fileMatch file with Some d => d | None => [] end in
         ret (historyData ++ [mkHistory date data]))
        (fun _ => consoleWrite (ErrorHistoryFile file) ;;; ret historyData) ;;
    readFiles rest historyData'
  end.

Definition readHistoryData (days : Z) : M (list HistoryItem) :=
  dirExists <- existsSyncDataDir ;;
  if negb dirExists then
    consoleWrite WarnNoDataDir ;;; ret []
  else
    tryCatch
      (listing <- readdirSync ;;
       let files := filter isTrendingFile listing in
       if (length files =? 0)%nat then
         consoleWrite WarnNoTrendingFiles ;;; ret []
       else
         now <- newDate ;;
         let cutoffDate := (now - days * msPerDay)%Z in
         let recentFiles :=
           rev (sortWith defaultCompare
                  (filter (isRecent now cutoffDate) files)) in
         readFiles recentFiles [])
      (fun _ => consoleWrite ErrorHistory ;;; ret []).

(* ================================================================== *)
(** ** Ranking aggregator: [calculateRanking] *)

(** [repoMap]: a [Map] keeps its keys in insertion order. *)
Definition RepoMap : Type := list (jstring * RepoInfo).

Fixpoint mapHas (m : RepoMap) (k : jstring) : bool :=
  match m with
  | [] => false
  | (k', _) :: m' => jeqb k' k || mapHas m' k
  end.

Fixpoint mapGet (m : RepoMap) (k : jstring) : option RepoInfo :=
  match m with
  | [] => None
  | (k', v) :: m' => if jeqb k' k then Some v else mapGet m' k
  end.

(** [repoMap.set(k, v)] *)
Fixpoint mapSet (m : RepoMap) (k : jstring) (v : RepoInfo) : RepoMap :=
  match m with
  | [] => [(k, v)]
  | (k', v') :: m' =>
    if jeqb k' k then (k', v) :: m' else (k', v') :: mapSet m' k v
  end.

(** Assignments to the fields of the object [repoMap.get(k)] returns. *)
Fixpoint mapUpdate (m : RepoMap) (k : jstring) (f : RepoInfo -> RepoInfo)
  : RepoMap :=
  match m with
  | [] => []
  | (k', v) :: m' =>
    if jeqb k' k then (k', f v) :: m' else (k', v) :: mapUpdate m' k f
  end.

(** The three updates of [repoInfo] for one occurrence. *)
Definition touch (date : jstring) (repo : Entry) (repoInfo : RepoInfo)
  : RepoInfo :=
  mkRepo (name repoInfo) (url repoInfo) (description repoInfo)
    (match e_stars repo with
     | Some (c :: s) => c :: s
     | _ => stars repoInfo
     end)
    (S (count repoInfo))
    (if existsb (jeqb date) (dates repoInfo) then dates repoInfo
     else dates repoInfo ++ [date]).

(** The body of the inner loop. *)
Definition visit (date : jstring) (repoMap : RepoMap) (repo : option Entry)
  : RepoMap :=
  match repo with
  | None => repoMap
  | Some r =>
    match e_name r with
    | Some (c :: n) =>
      let name := c :: n in
      let repoMap1 :=
        if mapHas repoMap name then repoMap
        else mapSet repoMap name
               (mkRepo name (orElse (e_url r) [])
                       (orElse (e_description r) [])
                       (orElse (e_stars r) (s2j "0")) 0 []) in
      mapUpdate repoMap1 name (touch date r)
    | _ => repoMap
    end
  end.

(** The body of the outer loop. *)
Definition visitDay (repoMap : RepoMap) (h : HistoryItem) : RepoMap :=
  match h_data h with
  | NotArray => repoMap
  | ArrayOf data => fold_left (visit (h_date h)) data repoMap
  end.

Definition aggregate (historyData : list HistoryItem) : RepoMap :=
  fold_left visitDay historyData [].

(** [parseInt(s.replace(/,/g, '')) || 0] *)
Definition starsNumber (s : jstring) : Z :=
  orZero (parseInt (stripCommas s)).

(** The comparison function given to [sort]. *)
Definition compareFn (a b : RepoInfo) : Z :=
  if negb (count a =? count b)%nat
  then (Z.of_nat (count b) - Z.of_nat (count a))%Z
  else (starsNumber (stars b) - starsNumber (stars a))%Z.

Definition calculateRanking (historyData : list HistoryItem) : list RepoInfo :=
  let sorted := sortWith compareFn (map snd (aggregate historyData)) in
  firstn config.maxItems sorted.

(* ================================================================== *)
(** ** Summary resolver *)

(** [keywordMap], in the order [Object.entries] lists it.  The source
    writes the key [real-time] twice with the same value; an object keeps
    the first position. *)
Definition keywordMap : list (jstring * jstring) :=
  [
    (s2j "ai", s2j "人工智能");
    (s2j "artificial intelligence", s2j "人工智能");
    (s2j "machine learning", s2j "机器学习");
    (s2j "deep learning", s2j "深度学习");
    (s2j "neural", s2j "神经网络");
    (s2j "llm", s2j "大语言模型");
    (s2j "language model", s2j "语言模型");
    (s2j "gpt", s2j "GPT");
    (s2j "chatbot", s2j "聊天机器人");
    (s2j "framework", s2j "框架");
    (s2j "library", s2j "库");
    (s2j "tool", s2j "工具");
    (s2j "developer", s2j "开发者");
    (s2j "development", s2j "开发");
    (s2j "cli", s2j "命令行工具");
    (s2j "sdk", s2j "开发工具包");
    (s2j "api", s2j "接口");
    (s2j "web", s2j "Web");
    (s2j "frontend", s2j "前端");
    (s2j "backend", s2j "后端");
    (s2j "fullstack", s2j "全栈");
    (s2j "react", s2j "React");
    (s2j "vue", s2j "Vue");
    (s2j "angular", s2j "Angular");
    (s2j "node", s2j "Node.js");
    (s2j "javascript", s2j "JavaScript");
    (s2j "typescript", s2j "TypeScript");
    (s2j "database", s2j "数据库");
    (s2j "data", s2j "数据");
    (s2j "cache", s2j "缓存");
    (s2j "server", s2j "服务器");
    (s2j "cloud", s2j "云");
    (s2j "docker", s2j "Docker");
    (s2j "kubernetes", s2j "Kubernetes");
    (s2j "open source", s2j "开源");
    (s2j "opensource", s2j "开源");
    (s2j "github", s2j "GitHub");
    (s2j "repository", s2j "仓库");
    (s2j "build", s2j "构建");
    (s2j "create", s2j "创建");
    (s2j "manage", s2j "管理");
    (s2j "deploy", s2j "部署");
    (s2j "test", s2j "测试");
    (s2j "monitor", s2j "监控");
    (s2j "optimize", s2j "优化");
    (s2j "automate", s2j "自动化");
    (s2j "generate", s2j "生成");
    (s2j "parse", s2j "解析");
    (s2j "convert", s2j "转换");
    (s2j "fast", s2j "快速");
    (s2j "simple", s2j "简单");
    (s2j "easy", s2j "易于");
    (s2j "powerful", s2j "强大");
    (s2j "modern", s2j "现代");
    (s2j "lightweight", s2j "轻量级");
    (s2j "high-performance", s2j "高性能");
    (s2j "real-time", s2j "实时");
    (s2j "distributed", s2j "分布式");
    (s2j "crypto", s2j "加密货币");
    (s2j "blockchain", s2j "区块链");
    (s2j "video", s2j "视频");
    (s2j "audio", s2j "音频");
    (s2j "image", s2j "图像");
    (s2j "game", s2j "游戏");
    (s2j "mobile", s2j "移动");
    (s2j "desktop", s2j "桌面");
    (s2j "self-hosted", s2j "自托管");
    (s2j "open-source", s2j "开源");
    (s2j "cross-platform", s2j "跨平台");
    (s2j "file", s2j "文件");
    (s2j "system", s2j "系统");
    (s2j "plugin", s2j "插件");
    (s2j "extension", s2j "扩展")
  ].

(** The marker put before a long description, and the placeholder for a
    missing one. *)
Definition marker : jstring := s2j "📝 ".
Definition noDescription : jstring := s2j "暂无描述".

(** One turn of the loop over [Object.entries(keywordMap)]. *)
Definition substitute (lowerText : jstring) (result : jstring)
  (entry : jstring * jstring) : jstring :=
  let '(eng, chi) := entry in
  if includes lowerText eng then replaceAllCI eng chi result else result.

Definition simpleTranslate (text : jstring) : jstring :=
  if negb (truthy text) then text
  else
    let result :=
      if (length text <? 100)%nat
      then fold_left (substitute (toLowerCase text)) keywordMap text
      else text in
    if jeqb result text && (20 <? length text)%nat
    then marker ++ text
    else result.

(** The last element of [projectName.split('/')]. *)
Definition lastPart (nameParts : list jstring) : jstring := last nameParts [].

(** [projectSummariesCache] is a plain object: the two lookups go through
    [objTruthy], so that a key every object inherits is found. *)
Definition getChineseSummary (projectName originalDesc : jstring)
  : M JsValue :=
  w <- getWorld ;;
  let nameKey := toLowerCase projectName in
  match objTruthy (projectSummariesCache w) nameKey with
  | Some summary => ret summary
  | None =>
    let nameParts := split 47 projectName in
    match
      (if (1 <? length nameParts)%nat
       then objTruthy (projectSummariesCache w)
                      (toLowerCase (lastPart nameParts))
       else None)
    with
    | Some summary => ret summary
    | None =>
      let translated := simpleTranslate originalDesc in
      if truthy originalDesc && negb (jeqb translated originalDesc)
      then ret (Str translated)
      else ret (Str (if truthy originalDesc then originalDesc
                     else noDescription))
    end
  end.

Definition setTranslation (cacheKey value : jstring) : M unit :=
  modify (fun w =>
    withTranslationCache (dictSet (translationCache w) cacheKey value) w).

(** [translateWithOpenAI(text).then(...)]: the request is only handed
    over; its answer arrives after the caller has returned. *)
Definition dispatchOpenAI (cacheKey text : jstring) : M unit :=
  modify (fun w => withDispatched (dispatched w ++ [(cacheKey, text)]) w).

(** [null] is [None].  The key is the lower-cased full name of a
    repository; with the slash of such a name it is no property of
    [Object.prototype], and the cache is read as a dictionary. *)
Definition translateWithCache (projectName text : jstring)
  : M (option jstring) :=
  if negb (truthy text) then ret None
  else
    let cacheKey := toLowerCase projectName in
    w <- getWorld ;;
    match dictTruthy (translationCache w) cacheKey with
    | Some cached => ret (Some cached)
    | None =>
      let simpleTranslated := simpleTranslate text in
      if negb (jeqb simpleTranslated text) then
        setTranslation cacheKey simpleTranslated ;;;
        ret (Some simpleTranslated)
      else
        (if (20 <? length text)%nat
         then setTranslation cacheKey (marker ++ text)
         else ret tt) ;;;
        w' <- getWorld ;;
        (if openaiConfigured w'
         then dispatchOpenAI cacheKey text
         else ret tt) ;;;
        ret None
    end.

(** [v === s] for a string [s]. *)
Definition jsIs (v : JsValue) (s : jstring) : bool :=
  match v with
  | Str t => jeqb t s
  | Inherited _ => false
  end.

Definition getDetailedDescription (it : RepoInfo) : M JsValue :=
  cnSummary <- getChineseSummary (name it) (description it) ;;
  if jsTruthy cnSummary && negb (jsIs cnSummary (description it))
     && negb (jsIs cnSummary noDescription)
  then ret cnSummary
  else
    translated <-
      (if truthy (description it)
       then translateWithCache (name it) (description it)
       else ret None) ;;
    match translated with
    | Some (c :: t) => ret (Str (c :: t))
    | _ =>
      ret (Str (if truthy (description it) then description it
                else noDescription))
    end.

Definition enrichRankingItem (it : RepoInfo) : M RankingItem :=
  shortDesc <- getChineseSummary (name it) (description it) ;;
  detailedDesc <- getDetailedDescription it ;;
  ret (mkItem it shortDesc detailedDesc).

(* ================================================================== *)
(** ** Ranking builder: [generateRankingData] *)

(** [list.map(f)] for an [f] with effects. *)
Fixpoint mapM {A B} (f : A -> M B) (l : list A) : M (list B) :=
  match l with
  | [] => ret []
  | x :: l' => y <- f x ;; ys <- mapM f l' ;; ret (y :: ys)
  end.

(** [JSON.parse(fs.readFileSync(cachePath, 'utf8'))] *)
Definition readCacheFile : M Dict :=
  fun w =>
    match cacheFile w with
    | CacheContent d => (Returned d, w)
    | CacheCorrupt => (Thrown SyntaxError, w)
    | CacheAbsent => (Thrown FsError, w)
    end.

(** [fs.writeFileSync(cachePath, JSON.stringify(translationCache, null, 2))] *)
Definition writeCacheFile (d : Dict) : M unit :=
  fun w =>
    match cacheWrite w with
    | Written => (Returned tt, withCacheFile (CacheContent d) w)
    | Refused => (Thrown FsError, w)
    | Cut => (Thrown FsError, withCacheFile CacheCorrupt w)
    end.

(** [fs.writeFileSync(rankingFilePath, 'var rankingData = ' + json + ';')] *)
Definition writeRankingFile (r : RankingData) : M unit :=
  fun w =>
    match rankingWrite w with
    | Written => (Returned tt, withRankingFile (RankingContent r) w)
    | Refused => (Thrown FsError, w)
    | Cut => (Thrown FsError, withRankingFile RankingDamaged w)
    end.

Definition loadTranslationCache : M unit :=
  tryCatch
    (w <- getWorld ;;
     match cacheFile w with
     | CacheAbsent => ret tt
     | _ =>
       d <- readCacheFile ;;
       modify (withTranslationCache d) ;;;
       consoleWrite LogCacheLoaded
     end)
    (fun _ =>
       consoleWrite WarnCacheLoad ;;;
       modify (withTranslationCache [])).

Definition saveTranslationCache : M unit :=
  tryCatch
    (w <- getWorld ;;
     writeCacheFile (translationCache w) ;;;
     consoleWrite LogCacheSaved)
    (fun _ => consoleWrite WarnCacheSave).

Definition generateRankingData : M RankingData :=
  loadTranslationCache ;;;
  weekData <- readHistoryData config.week ;;
  monthData <- readHistoryData config.month ;;
  quarterData <- readHistoryData config.quarter ;;
  let weekRanking := calculateRanking weekData in
  let monthRanking := calculateRanking monthData in
  let quarterRanking := calculateRanking quarterData in
  weekRankingWithCN <- mapM enrichRankingItem weekRanking ;;
  monthRankingWithCN <- mapM enrichRankingItem monthRanking ;;
  quarterRankingWithCN <- mapM enrichRankingItem quarterRanking ;;
  saveTranslationCache ;;;
  let rankingData :=
    mkRanking weekRankingWithCN monthRankingWithCN quarterRankingWithCN in
  tryCatch
    (writeRankingFile rankingData ;;;
     consoleWrite LogRankingWritten)
    (fun _ => consoleWrite ErrorRankingWrite) ;;;
  ret rankingData.

(* ================================================================== *)
(** ** Notions for the aggregator *)

(** The name under which the aggregator files an element of a snapshot:
    the element is an object and its [name] is truthy. *)
Definition validName (repo : option Entry) : option jstring :=
  match repo with
  | Some r =>
    match e_name r with
    | Some (c :: n) => Some (c :: n)
    | _ => None
    end
  | None => None
  end.

Definition entriesOf (data : SnapshotJson) : list (option Entry) :=
  match data with
  | ArrayOf entries => entries
  | NotArray => []
  end.

(** The element is an entry for the repository [n]. *)
Definition bears (n : jstring) (repo : option Entry) : bool :=
  match validName repo with
  | Some m => jeqb m n
  | None => false
  end.

(** The snapshot contains an entry for [n]. *)
Definition containsName (n : jstring) (data : SnapshotJson) : bool :=
  existsb (bears n) (entriesOf data).

(** The number of entries for [n], over all snapshots. *)
Definition occurrences (n : jstring) (historyData : list HistoryItem) : nat :=
  length (filter (bears n) (flat_map (fun h => entriesOf (h_data h)) historyData)).

(** The number of (day, snapshot) pairs whose snapshot contains [n]. *)
Definition snapshotsWith (n : jstring) (historyData : list HistoryItem) : nat :=
  length (filter (fun h => containsName n (h_data h)) historyData).

(** The names of a snapshot, in order. *)
Definition namesOf (data : SnapshotJson) : list jstring :=
  flat_map (fun repo => match validName repo with Some m => [m] | None => [] end)
           (entriesOf data).

(** The data model has a name at most once in a snapshot. *)
Definition uniqueNames (data : SnapshotJson) : Prop := NoDup (namesOf data).

(** All names in the order the aggregator meets them. *)
Definition namesSeen (historyData : list HistoryItem) : list jstring :=
  flat_map (fun h => namesOf (h_data h)) historyData.

Definition jstring_eq_dec : forall a b : jstring, {a = b} + {a <> b} :=
  list_eq_dec N.eq_dec.

(** A list without its repetitions, every element at its first place. *)
Definition keepFirst (l : list jstring) : list jstring :=
  rev (nodup jstring_eq_dec (rev l)).

(** A key joins the keys of the map when it is new. *)
Definition addKey (ks : list jstring) (k : jstring) : list jstring :=
  if existsb (jeqb k) ks then ks else ks ++ [k].

(** Every object of the map is filed under its own name. *)
Definition filedByName (m : RepoMap) : Prop :=
  Forall (fun kv => name (snd kv) = fst kv) m.

(** The count the map holds for [n]; zero when it has none. *)
Definition countOf (m : RepoMap) (n : jstring) : nat :=
  match mapGet m n with
  | Some r => count r
  | None => 0
  end.

(** The elements of all snapshots, each with the date of its snapshot, in
    the order the two loops of the aggregator visit them. *)
Definition visits (historyData : list HistoryItem)
  : list (jstring * option Entry) :=
  flat_map (fun h => map (pair (h_date h)) (entriesOf (h_data h))) historyData.

(** The element reports stars for the repository [n]. *)
Definition reportsStars (n : jstring) (repo : option Entry) : bool :=
  bears n repo &&
  match repo with
  | Some r => truthy (orElse (e_stars r) [])
  | None => false
  end.

(** The history item is an array of entries. *)
Definition isArrayItem (h : HistoryItem) : bool :=
  match h_data h with
  | ArrayOf _ => true
  | NotArray => false
  end.

(* ================================================================== *)
(** ** Notions for the ranking order *)

(** The ranking order: more occurrences first, then more stars. *)
Definition ranksBefore (a b : RepoInfo) : Prop :=
  count b < count a \/
  (count a = count b /\
   (starsNumber (stars b) <= starsNumber (stars a))%Z).

(** A full tie: the same occurrences and the same number of stars. *)
Definition fullTie (a b : RepoInfo) : bool :=
  (count a =? count b) && (starsNumber (stars a) =? starsNumber (stars b))%Z.

(** What [Array.prototype.sort] promises for the comparison function of
    the ranking: the result holds the same objects, in ranking order, and
    objects that are fully tied keep the order they had. *)
Definition stableSortOf (l l' : list RepoInfo) : Prop :=
  Permutation l l' /\
  StronglySorted ranksBefore l' /\
  (forall a, filter (fullTie a) l' = filter (fullTie a) l).

(* ================================================================== *)
(** ** Notions for the reader *)

Definition withDataDir (d : DirState) (w : World) : World :=
  mkWorld (clock w) (ticks w) d (cacheFile w) (rankingFile w)
          (cacheWrite w) (rankingWrite w) (openaiConfigured w)
          (projectSummariesCache w) (translationCache w) (dispatched w)
          (console w).

(** The two filters of the reader together. *)
Definition keptFile (now days : Z) (file : jstring) : bool :=
  isTrendingFile file && isRecent now (now - days * msPerDay)%Z file.

(** The files [readHistoryData] keeps after its two filters, in the order
    it reads them. *)
Definition recentFilesOf (now days : Z) (listing : list jstring) : list jstring :=
  rev (sortWith defaultCompare
         (filter (isRecent now (now - days * msPerDay)%Z)
                 (filter isTrendingFile listing))).

(** The day key the reader stores for a file. *)
Definition dayKey (file : jstring) : jstring :=
  match fileMatch file with
  | Some d => d
  | None => []
  end.

(** The file can be read and parsed. *)
Definition readable (files : list (jstring * FileBody)) (file : jstring) : bool :=
  match lookupFile files file with
  | Some (Parsed _) => true
  | _ => false
  end.

(** What the loop adds for one file, and what it writes to the console. *)
Definition loadOne (files : list (jstring * FileBody)) (file : jstring)
  : list HistoryItem :=
  match lookupFile files file with
  | Some (Parsed v) => [mkHistory (dayKey file) v]
  | _ => []
  end.

Definition complainOne (files : list (jstring * FileBody)) (file : jstring)
  : list LogMsg :=
  match lookupFile files file with
  | Some (Parsed _) => []
  | _ => [ErrorHistoryFile file]
  end.

(** The world after [readHistoryData] has run on an existing directory. *)
Definition afterRead (days : Z) (files : list (jstring * FileBody)) (w : World)
  : World :=
  match filter isTrendingFile (map fst files) with
  | [] => withConsole (console w ++ [WarnNoTrendingFiles]) w
  | _ =>
    withConsole
      (console w ++
       flat_map (complainOne files)
                (recentFilesOf (clock w (ticks w)) days (map fst files)))
      (withTicks (S (ticks w)) w)
  end.

(** The file is named by the convention: prefix, day key, extension. *)
Definition conventional (file : jstring) : Prop :=
  forall d, fileMatch file = Some d ->
            file = config.trendingPrefix ++ d ++ config.trendingExt.

(** Newest first, by day key. *)
Definition newestFirst (a b : HistoryItem) : Prop :=
  jleb (h_date b) (h_date a) = true.

(* ================================================================== *)
(** ** Notions for the resolver *)

(** The curated lookup of [getChineseSummary]: the full name, else the
    part after the last slash. *)
Definition curatedHit (summaries : Dict) (projectName : jstring)
  : option JsValue :=
  match objTruthy summaries (toLowerCase projectName) with
  | Some summary => Some summary
  | None =>
    if (1 <? length (split 47 projectName))%nat
    then objTruthy summaries (toLowerCase (lastPart (split 47 projectName)))
    else None
  end.

(** The loop of [simpleTranslate] over the keyword table. *)
Definition keywordPass (text : jstring) : jstring :=
  fold_left (substitute (toLowerCase text)) keywordMap text.

(* ================================================================== *)
(** ** Notions for the builder *)

(** The step from [w] to [w'] wrote no file and changed nothing that
    decides whether a file can be written; the console only grew. *)
Definition keepsFiles (w w' : World) : Prop :=
  cacheWrite w' = cacheWrite w /\
  rankingWrite w' = rankingWrite w /\
  cacheFile w' = cacheFile w /\
  rankingFile w' = rankingFile w /\
  exists lines, console w' = console w ++ lines.

(** The computation returns from every world, and keeps the files. *)
Definition quiet {A} (m : M A) : Prop :=
  forall w, exists a w', m w = (Returned a, w') /\ keepsFiles w w'.

(** The world after the two guarded writes that end the builder. *)
Definition afterCacheWrite (w : World) : World :=
  match cacheWrite w with
  | Written =>
    withConsole (console w ++ [LogCacheSaved])
                (withCacheFile (CacheContent (translationCache w)) w)
  | Refused => withConsole (console w ++ [WarnCacheSave]) w
  | Cut =>
    withConsole (console w ++ [WarnCacheSave]) (withCacheFile CacheCorrupt w)
  end.

Definition afterRankingWrite (r : RankingData) (w : World) : World :=
  match rankingWrite w with
  | Written =>
    withConsole (console w ++ [LogRankingWritten])
                (withRankingFile (RankingContent r) w)
  | Refused => withConsole (console w ++ [ErrorRankingWrite]) w
  | Cut =>
    withConsole (console w ++ [ErrorRankingWrite])
                (withRankingFile RankingDamaged w)
  end.

(* ================================================================== *)
(** ** Worlds and items of the examples *)

(** The two snapshots of the example of the specification. *)
Definition day1 : HistoryItem :=
  mkHistory (s2j "2026-02-21")
    (ArrayOf [Some (mkEntry (Some (s2j "a/x")) None None (Some (s2j "1,200")));
              Some (mkEntry (Some (s2j "b/y")) None None (Some (s2j "500")))]).

Definition day2 : HistoryItem :=
  mkHistory (s2j "2026-02-22")
    (ArrayOf [Some (mkEntry (Some (s2j "a/x")) None None (Some (s2j "1,300")))]).

(** A world for the examples: noon (UTC) of 2026-02-22, the two snapshots
    of the example of the specification in the data directory, no cache
    file, empty module variables. *)
Definition exampleNow : Z := (1771718400000 + 12 * 60 * 60 * 1000)%Z.

Definition exampleFiles : list (jstring * FileBody) :=
  [(s2j "trending_2026-02-21.json", Parsed (h_data day1));
   (s2j "trending_2026-02-22.json", Parsed (h_data day2))].

Definition exampleWorld : World :=
  mkWorld (fun _ => exampleNow) 0 (Dir exampleFiles) CacheAbsent
          RankingAbsent Written Written false [] [] [] [].

(** The example world with an entry for [a/x] in the translation cache and
    no curated summary. *)
Definition cachedWorld : World :=
  withTranslationCache [(s2j "a/x", s2j "cached text")] exampleWorld.


(** The example world with both output files present, when each write
    fails after the file was opened. *)
Definition fullDiskWorld : World :=
  mkWorld (fun _ => exampleNow) 0 (Dir exampleFiles)
          (CacheContent [(s2j "a/x", s2j "cached text")])
          (RankingContent (mkRanking [] [] [])) Cut Cut false [] [] [] [].

(** A description with more than twenty units and no keyword in it. *)
Definition plainDescription : jstring := s2j "Some notes written by hand for you".


(** An item whose description has two keywords of the table. *)
Definition keywordItem : RepoInfo :=
  mkRepo (s2j "a/x") [] (s2j "fast tool") (s2j "1,300") 2 [].

(* ================================================================== *)
(** ** More of the runtime: radix 10, numbers as text, substrings *)

(** The double quote, for the HTML the module writes. *)
Definition dq : jstring := [34%N].

(** [s.substring(0, n)] *)
Definition substring0 (n : nat) (s : jstring) : jstring := firstn n s.

(** [parseInt(x, 10)] for an [x] that may be [undefined]: no prefix [0x]
    is read with an explicit radix, and the text [undefined] has no
    digit. *)
Definition parseInt10 (x : option jstring) : option Z :=
  match x with
  | None => None
  | Some s =>
    let s1 := skipWhite s in
    let '(sign, s2) :=
      match s1 with
      | 45%N :: t => ((-1)%Z, t)
      | 43%N :: t => (1%Z, t)
      | _ => (1%Z, s1)
      end in
    match readDigits 10 None s2 with
    | Some v => Some (sign * v)%Z
    | None => None
    end
  end.

(** The decimal digits of [n], most significant first. *)
Fixpoint digitsOf (fuel : nat) (n : N) (acc : jstring) : jstring :=
  match fuel with
  | O => acc
  | S fuel' =>
    let acc' := (48 + n mod 10)%N :: acc in
    if (n / 10 =? 0)%N then acc' else digitsOf fuel' (n / 10)%N acc'
  end.

Definition showN (n : N) : jstring := digitsOf (S (N.size_nat n)) n [].

(** A number inside a template literal; [None] is NaN.  The digits are
    written out in full, as the runtime does below 10^21. *)
Definition showNumber (x : option Z) : jstring :=
  match x with
  | None => s2j "NaN"
  | Some z =>
    if (z <? 0)%Z then 45%N :: showN (Z.to_N (- z)) else showN (Z.to_N z)
  end.

(** A string inside a template literal, [undefined] when it is missing. *)
Definition showString (x : option jstring) : jstring :=
  match x with
  | Some s => s
  | None => s2j "undefined"
  end.

(* ================================================================== *)
(** ** The report dates: [getAllAvailableDates] and what is made of them *)

Module configMore.
(** [config.sidebar.recentDays] *)
Definition recentDays : nat := 7.
(** [config.filePatterns.htmlPrefix], [config.filePatterns.markdownPrefix] *)
Definition htmlPrefix : jstring := s2j "daily_".
Definition markdownPrefix : jstring := s2j "daily_".
End configMore.

(** A directory as [existsSync] and [readdirSync] show it. *)
Inductive Listing : Type :=
| NoSuchDir
| Unlistable
| Names (names : list jstring).

(** Lines the functions below write to the console. *)
Inductive SiteLog : Type :=
| WarnNoReportsDir
| ErrorAvailableDates
| ErrorFindMarkdown.

(** An expression [/<prefix>(\d{4}-\d{2}-\d{2})<suffix>/] of literal prefix
    and suffix at the head of [s]. *)
Definition datedHere (prefix suffix s : jstring) : option jstring :=
  let r := skipn (length prefix) s in
  let d := firstn 10 r in
  if startsWith s prefix && dateShape d && startsWith (skipn 10 r) suffix
  then Some d else None.

(** [s.match(...)] with that expression: group 1 of the leftmost match. *)
Fixpoint datedMatch (prefix suffix s : jstring) : option jstring :=
  match datedHere prefix suffix s with
  | Some d => Some d
  | None =>
    match s with
    | [] => None
    | _ :: s' => datedMatch prefix suffix s'
    end
  end.

(** [file.match(/daily_(\d{4}-\d{2}-\d{2})\.html/)] *)
Definition htmlMatch (file : jstring) : option jstring :=
  datedMatch (s2j "daily_") (s2j ".html") file.

Definition isHtmlReport (file : jstring) : bool :=
  startsWith file configMore.htmlPrefix && endsWith file (s2j ".html").

(** [.map(file => match ? match[1] : null).filter(date => date !== null)] *)
Definition matchedDates (files : list jstring) : list jstring :=
  flat_map (fun file => match htmlMatch file with
                        | Some d => [d]
                        | None => []
                        end) files.

Definition getAllAvailableDates (reports : Listing)
  : list jstring * list SiteLog :=
  match reports with
  | NoSuchDir => ([], [WarnNoReportsDir])
  | Unlistable => ([], [ErrorAvailableDates])
  | Names listing =>
    let files := filter isHtmlReport listing in
    (rev (sortWith defaultCompare (matchedDates files)), [])
  end.

Definition getRecentDates (reports : Listing) : list jstring * list SiteLog :=
  let '(allDates, lines) := getAllAvailableDates reports in
  (firstn configMore.recentDays allDates, lines).

Definition yearPlaceholder : jstring :=
  s2j "<option value=" ++ dq ++ dq ++ s2j ">年</option>".

Definition yearOption (year : jstring) : jstring :=
  s2j "<option value=" ++ dq ++ year ++ dq ++ s2j ">" ++ year
      ++ s2j "</option>".

(** [[...new Set(dates.map(d => d.substring(0, 4)))].sort().reverse()] *)
Definition yearsOf (dates : list jstring) : list jstring :=
  rev (sortWith defaultCompare (keepFirst (map (substring0 4) dates))).

(** [dates] may be [null] or [undefined]: [None]. *)
Definition getYearOptions (dates : option (list jstring)) : jstring :=
  match dates with
  | None | Some [] => yearPlaceholder
  | Some dates =>
    fold_left (fun options year => options ++ yearOption year)
              (yearsOf dates) yearPlaceholder
  end.

Definition noHistory : jstring :=
  s2j "<li style=" ++ dq ++ s2j "color: #6a8a6a;" ++ dq
      ++ s2j ">暂无历史记录</li>".

(** The element of an array at an index, [undefined] past its end. *)
Definition at_ (parts : list jstring) (i : nat) : option jstring :=
  nth_error parts i.

(** The list item [generateHistoryDatesHTML] writes for one date. *)
Definition historyItem (date : jstring) : jstring :=
  let parts := split 45 date in
  let year := at_ parts 0 in
  let month := parseInt10 (at_ parts 1) in
  let day := parseInt10 (at_ parts 2) in
  let displayDate :=
    showString year ++ s2j "年" ++ showNumber month ++ s2j "月"
               ++ showNumber day ++ s2j "日" in
  s2j "<li><a href=" ++ dq ++ s2j "daily_" ++ date ++ s2j ".html" ++ dq
      ++ s2j ">" ++ displayDate ++ s2j "</a></li>".

Definition generateHistoryDatesHTML (recentDates : option (list jstring))
  : jstring :=
  match recentDates with
  | None | Some [] => noHistory
  | Some recentDates =>
    fold_left (fun html date => html ++ historyItem date) recentDates []
  end.

(* ================================================================== *)
(** ** [escapeHTML] (markdownParser.js) *)

(** [htmlEntities[char]] for the five characters the expression of
    [escapeHTML] matches (ampersand, less-than, greater-than, double and
    single quote), the character itself otherwise. *)
Definition escapeUnit (c : N) : jstring :=
  if (c =? 38)%N then s2j "&amp;"
  else if (c =? 60)%N then s2j "&lt;"
  else if (c =? 62)%N then s2j "&gt;"
  else if (c =? 34)%N then s2j "&quot;"
  else if (c =? 39)%N then s2j "&#39;"
  else [c].

(** [str] may be missing: [None]; a missing or empty one gives the empty
    string. *)
Definition escapeHTML (str : option jstring) : jstring :=
  match str with
  | Some (c :: s) => flat_map escapeUnit (c :: s)
  | _ => []
  end.

(** One of the five characters [escapeHTML] replaces. *)
Definition isSpecial (c : N) : bool :=
  existsb (N.eqb c) [38; 60; 62; 34; 39]%N.

(* ================================================================== *)
(** ** [findLatestMarkdownFile] (html_generator.js) *)

Definition isMarkdownReport (file : jstring) : bool :=
  startsWith file configMore.markdownPrefix && endsWith file (s2j ".md").

(** The file returned is given by its name inside the reports directory;
    [null] is [None]. *)
Definition findLatestMarkdownFile (reports : Listing)
  : option jstring * list SiteLog :=
  match reports with
  | NoSuchDir => (None, [])
  | Unlistable => (None, [ErrorFindMarkdown])
  | Names listing =>
    let files := filter isMarkdownReport listing in
    match rev (sortWith defaultCompare files) with
    | latest :: _ => (Some latest, [])
    | [] => (None, [])
    end
  end.

(* ================================================================== *)
(** ** [getAllDatesToProcess] (regenerate_history.js) *)

(** [file.match(/daily_(\d{4}-\d{2}-\d{2})\.md/)] *)
Definition mdMatch (file : jstring) : option jstring :=
  datedMatch (s2j "daily_") (s2j ".md") file.

(** [dates.add(match[1])] for every file that matches. *)
Definition addDates (matcher : jstring -> option jstring)
           (dates : list jstring) (files : list jstring) : list jstring :=
  fold_left (fun dates file =>
               match matcher file with
               | Some d => addKey dates d
               | None => dates
               end) files dates.

(** The function has no [try]: a directory that exists and cannot be
    listed makes it throw. *)
Definition getAllDatesToProcess (dataListing reportsListing : Listing)
  : Outcome (list jstring) :=
  match dataListing with
  | Unlistable => Thrown FsError
  | _ =>
    let dates1 :=
      match dataListing with
      | Names listing => addDates fileMatch [] (filter isTrendingFile listing)
      | _ => []
      end in
    match reportsListing with
    | Unlistable => Thrown FsError
    | NoSuchDir => Returned (sortWith defaultCompare dates1)
    | Names listing =>
      Returned (sortWith defaultCompare
                  (addDates mdMatch dates1 (filter isMarkdownReport listing)))
    end
  end.

(** One list is inside the other, in the same order. *)
Inductive subseq {A : Type} : list A -> list A -> Prop :=
| subseq_nil : subseq [] []
| subseq_skip : forall x l l', subseq l l' -> subseq l (x :: l')
| subseq_keep : forall x l l', subseq l l' -> subseq (x :: l) (x :: l').


(** The dates the map holds for [n]; none when it has no object for it. *)
Definition datesOf (m : RepoMap) (n : jstring) : list jstring :=
  match mapGet m n with
  | Some r => dates r
  | None => []
  end.

(** What every object of the aggregator's map satisfies. *)
Definition wellFormed (r : RepoInfo) : Prop :=
  name r <> [] /\ stars r <> [] /\ 1 <= count r /\ dates r <> [].


(** A snapshot with eleven repositories, one more than the ranking
    holds, with stars 1 to 11. *)
Definition starEntry (n s : string) : option Entry :=
  Some (mkEntry (Some (s2j n)) None None (Some (s2j s))).

Definition elevenDay : HistoryItem :=
  mkHistory (s2j "2026-02-22")
    (ArrayOf [starEntry "o/a" "1"; starEntry "o/b" "2"; starEntry "o/c" "3";
              starEntry "o/d" "4"; starEntry "o/e" "5"; starEntry "o/f" "6";
              starEntry "o/g" "7"; starEntry "o/h" "8"; starEntry "o/i" "9";
              starEntry "o/j" "10"; starEntry "o/k" "11"]).


(** ** Notions for the report dates *)

(** The names a listing gives; none for a directory that is missing or
    cannot be listed. *)
Definition listed (reports : Listing) : list jstring :=
  match reports with
  | Names names => names
  | _ => []
  end.

(** The file passes the filter of [getAllAvailableDates] and its name holds
    the day key [d]. *)
Definition reportOf (d file : jstring) : bool :=
  isHtmlReport file &&
  match htmlMatch file with
  | Some d' => jeqb d d'
  | None => false
  end.

(** The number two decimal digits stand for. *)
Definition twoDigits (a b : N) : N := (10 * (a - 48) + (b - 48))%N.
(** The file passes the first filter of [getAllDatesToProcess] and its name
    holds the day key [d]; the same for the second filter. *)
Definition trendingDate (d file : jstring) : bool :=
  isTrendingFile file &&
  match fileMatch file with
  | Some d' => jeqb d d'
  | None => false
  end.

Definition markdownDate (d file : jstring) : bool :=
  isMarkdownReport file &&
  match mdMatch file with
  | Some d' => jeqb d d'
  | None => false
  end.
(** The world after a run of the resolver differs from the one before in
    the translation cache and the requests handed over, at most. *)
Definition resolverStep (w w' : World) : Prop :=
  clock w' = clock w /\ ticks w' = ticks w /\ dataDir w' = dataDir w /\
  cacheFile w' = cacheFile w /\ rankingFile w' = rankingFile w /\
  cacheWrite w' = cacheWrite w /\
  rankingWrite w' = rankingWrite w /\
  openaiConfigured w' = openaiConfigured w /\
  projectSummariesCache w' = projectSummariesCache w /\
  console w' = console w.

(** The computation returns, from every world, a value with [P]. *)
Definition returning {A} (m : M A) (P : A -> Prop) : Prop :=
  forall w, exists a w', m w = (Returned a, w') /\ P a.

(** A string that is not empty. *)
Definition isText (v : JsValue) : Prop := exists s, v = Str s /\ s <> [].

(** The lower-cased name, or its lower-cased last part, is the name of a
    property of [Object.prototype]. *)
Definition inheritedName (n : jstring) : bool :=
  existsb (jeqb (toLowerCase n)) prototypeNames
  || existsb (jeqb (toLowerCase (lastPart (split 47 n)))) prototypeNames.

(** The two descriptions of an entry are truthy; they are texts, unless the
    name of the repository meets a property of [Object.prototype]. *)
Definition described (e : RankingItem) : Prop :=
  jsTruthy (chineseDesc e) = true /\ jsTruthy (detailedDesc e) = true /\
  (inheritedName (name (item e)) = false ->
   isText (chineseDesc e) /\ isText (detailedDesc e)).

(** What holds of each list of the ranking file: at most
    [config.maxItems] entries, in ranking order, no repository twice, the
    items as the aggregator makes them, each with its descriptions. *)
Definition soundList (l : list RankingItem) : Prop :=
  length l <= config.maxItems /\
  StronglySorted ranksBefore (map item l) /\
  NoDup (map (fun e => name (item e)) l) /\
  Forall (fun e => wellFormed (item e) /\ described e) l.

(** What a load finds in the cache file; an absent file leaves the cache
    of the module as it is, a file that cannot be parsed empties it. *)
Definition loadedFrom (f : CacheFile) (current : Dict) : Dict :=
  match f with
  | CacheContent d => d
  | CacheCorrupt => []
  | CacheAbsent => current
  end.

(* ================================================================== *)
(** ** [loadProjectSummaries]: the expression and the loop *)

(** [s.trim()] *)
Definition trim (s : jstring) : jstring :=
  rev (skipWhite (rev (skipWhite s))).

(** How often an atom of an expression repeats: once, [+], [*], [*?]. *)
Inductive Quant : Type :=
| Once
| Plus
| Star
| LazyStar.

(** An atom of an expression: a class of code units with its quantifier;
    [a_group] marks the atom that stands in capturing parentheses. *)
Record Atom : Type := mkAtom {
  a_class : N -> bool;
  a_quant : Quant;
  a_group : bool
}.

(** The length of the longest prefix of [s] inside the class. *)
Fixpoint run (class : N -> bool) (s : jstring) : nat :=
  match s with
  | c :: s' => if class c then S (run class s') else 0
  | [] => 0
  end.

(** The numbers of repetitions backtracking tries, in its order: a greedy
    quantifier from the most to the fewest, a lazy one from the fewest. *)
Definition counts (q : Quant) (n : nat) : list nat :=
  match q with
  | Once => if (1 <=? n)%nat then [1] else []
  | Plus => rev (seq 1 n)
  | Star => rev (seq 0 (S n))
  | LazyStar => seq 0 (S n)
  end.

Fixpoint firstSome {A B : Type} (f : A -> option B) (l : list A) : option B :=
  match l with
  | [] => None
  | x :: l' =>
    match f x with
    | Some b => Some b
    | None => firstSome f l'
    end
  end.

(** A match of the atoms at the head of [s]: the captured groups and the
    text after the match. *)
Fixpoint matchAtoms (atoms : list Atom) (s : jstring)
  : option (list jstring * jstring) :=
  match atoms with
  | [] => Some ([], s)
  | a :: rest =>
    firstSome
      (fun k =>
         match matchAtoms rest (skipn k s) with
         | Some (groups, tail) =>
           Some (if a_group a then firstn k s :: groups else groups, tail)
         | None => None
         end)
      (counts (a_quant a) (run (a_class a) s))
  end.

Definition literal (text : jstring) : list Atom :=
  map (fun c => mkAtom (N.eqb c) Once false) text.

Definition notNewline (c : N) : bool := negb (c =? 10)%N.
Definition anyUnit (c : N) : bool := true.
(** The class of the full-width and the plain colon. *)
Definition isColon (c : N) : bool := ((c =? 65306) || (c =? 58))%N.

(** [/###\s+([^\n]+)\n[\s\S]*?\*\s+\*\*一句话概括\*\*[：:]\s*([^\n]+)/] *)
Definition projectRegex : list Atom :=
  literal (s2j "###")
  ++ [mkAtom isWhite Plus false;
      mkAtom notNewline Plus true;
      mkAtom (N.eqb 10) Once false;
      mkAtom anyUnit LazyStar false;
      mkAtom (N.eqb 42) Once false;
      mkAtom isWhite Plus false]
  ++ literal (s2j "**一句话概括**")
  ++ [mkAtom isColon Once false;
      mkAtom isWhite Star false;
      mkAtom notNewline Plus true].

(** The loop [while ((match = projectRegex.exec(markdownContent)) !== null)]
    with the flag [g]: the pairs of the two groups of the matches, which
    are found from left to right and do not overlap.  [skip] counts the
    units of the current match that are still to pass. *)
Fixpoint execAll (skip : nat) (s : jstring) : list (jstring * jstring) :=
  match s with
  | [] => []
  | _ :: s' =>
    match skip with
    | S k => execAll k s'
    | O =>
      match matchAtoms projectRegex s with
      | Some ([name; summary], tail) =>
        (name, summary) :: execAll (length s' - length tail) s'
      | _ => execAll 0 s'
      end
    end
  end.

Definition withProjectSummariesCache (d : Dict) (w : World) : World :=
  mkWorld (clock w) (ticks w) (dataDir w) (cacheFile w) (rankingFile w)
          (cacheWrite w) (rankingWrite w) (openaiConfigured w)
          d (translationCache w) (dispatched w) (console w).

(** The body of the loop: the summary goes under the lower-cased name and,
    for a name with a slash, under its lower-cased last part too.  The
    cache is a plain object, and the assignments are [objSet]. *)
Definition storeSummary (cache : Dict) (m : jstring * jstring) : Dict :=
  let name := trim (fst m) in
  let summary := trim (snd m) in
  let cache1 := objSet cache (toLowerCase name) summary in
  let nameParts := split 47 name in
  if (1 <? length nameParts)%nat
  then objSet cache1 (toLowerCase (lastPart nameParts)) summary
  else cache1.

Definition loadProjectSummaries (markdownContent : jstring) : M Dict :=
  let cache := fold_left storeSummary (execAll 0 markdownContent) [] in
  modify (withProjectSummariesCache cache) ;;;
  ret cache.
(** ** Notions for the summaries *)

(** A line the expression of [loadProjectSummaries] captures whole: not
    empty, without a newline, and not starting with white space. *)
Definition plainLine (s : jstring) : bool :=
  match s with
  | c :: _ => negb (isWhite c) && forallb notNewline s
  | [] => false
  end.

(** A section of a report as the summarizer is asked to write it: the
    heading with the name, then the item with the summary. *)
Definition section (name summary : jstring) : jstring :=
  s2j "### " ++ name ++ [10%N] ++ s2j "* **一句话概括**：" ++ summary.

(** A report of such sections, one line each for heading and item. *)
Definition report (sections : list (jstring * jstring)) : jstring :=
  flat_map (fun p => section (fst p) (snd p) ++ [10%N]) sections.
(** What the reader returns in the world [w] for a window of [days]. *)
Definition historyAt (w : World) (days : Z) : list HistoryItem :=
  match dataDir w with
  | Dir files =>
    flat_map (loadOne files)
             (recentFilesOf (clock w (ticks w)) days (map fst files))
  | _ => []
  end.
(* ================================================================== *)
(** ** [generateProjectCard] (markdownParser.js) *)

(** The object [convertMarkdownToHTML] fills for a project; a field may be
    missing. *)
Record ProjectData : Type := mkProject {
  p_name : option jstring;
  p_summary : option jstring;
  p_details : option jstring;
  p_url : option jstring;
  p_stars : option jstring;
  p_rating : option jstring
}.

(** The line feed of the template literal. *)
Definition nl : jstring := [10%N].

Definition generateProjectCard (projectData : ProjectData) : jstring :=
  let name := escapeHTML (Some (orElse (p_name projectData) (s2j "未知项目"))) in
  let summary := escapeHTML (Some (orElse (p_summary projectData) (s2j "暂无"))) in
  let details := escapeHTML (Some (orElse (p_details projectData) (s2j "暂无"))) in
  let url := escapeHTML (Some (orElse (p_url projectData) (s2j "#"))) in
  let stars := escapeHTML (Some (orElse (p_stars projectData) (s2j "0"))) in
  let rating := escapeHTML (Some (orElse (p_rating projectData) (s2j "暂无"))) in
  nl
  ++ s2j "<div class=" ++ dq ++ s2j "project-card" ++ dq ++ s2j ">" ++ nl
  ++ s2j "  <h3 class=" ++ dq ++ s2j "project-name" ++ dq ++ s2j ">" ++ name ++ s2j "</h3>" ++ nl
  ++ s2j "  <div class=" ++ dq ++ s2j "summary" ++ dq ++ s2j ">" ++ nl
  ++ s2j "    <strong>🎯 一句话概括:</strong> " ++ summary ++ nl
  ++ s2j "  </div>" ++ nl
  ++ s2j "  <div class=" ++ dq ++ s2j "details" ++ dq ++ s2j ">" ++ nl
  ++ s2j "    <strong>💡 详细介绍:</strong> " ++ details ++ nl
  ++ s2j "  </div>" ++ nl
  ++ s2j "  <div class=" ++ dq ++ s2j "link" ++ dq ++ s2j ">" ++ nl
  ++ s2j "    <strong>🔗 项目网址:</strong> <a href=" ++ dq ++ url ++ dq ++ s2j " target=" ++ dq ++ s2j "_blank" ++ dq ++ s2j ">" ++ url ++ s2j "</a>" ++ nl
  ++ s2j "  </div>" ++ nl
  ++ s2j "  <div class=" ++ dq ++ s2j "stars" ++ dq ++ s2j ">" ++ nl
  ++ s2j "    <strong>✨ Star 数量:</strong> <span>" ++ stars ++ s2j "</span>" ++ nl
  ++ s2j "  </div>" ++ nl
  ++ s2j "  <div class=" ++ dq ++ s2j "rating" ++ dq ++ s2j ">" ++ nl
  ++ s2j "    <strong>⭐ 推荐指数:</strong> <span>" ++ rating ++ s2j "</span>" ++ nl
  ++ s2j "  </div>" ++ nl
  ++ s2j "</div>".

(** How often the code unit [c] stands in [s]. *)
Definition unitCount (c : N) (s : jstring) : nat :=
  length (filter (N.eqb c) s).

(** The number a text of decimal digits stands for. *)
Definition digitsValue (digits : jstring) : Z :=
  fold_left (fun a c => (a * 10 + (Z.of_N c - 48))%Z) digits 0%Z.

(** The text goes on with something that is no digit, or ends. *)
Definition endsDigits (tail : jstring) : Prop :=
  match tail with
  | c :: _ => isDigit c = false
  | [] => True
  end.

(** The sign and the radix [parseInt] finds at the head of a text, with
    the tests on the code units written as comparisons. *)
Definition signOf (s1 : jstring) : Z * jstring :=
  match s1 with
  | a :: t =>
    if (a =? 45)%N then ((-1)%Z, t)
    else if (a =? 43)%N then (1%Z, t)
    else (1%Z, s1)
  | [] => (1%Z, s1)
  end.

Definition radixOf (s2 : jstring) : Z * jstring :=
  match s2 with
  | a :: b :: t =>
    if ((a =? 48) && ((b =? 120) || (b =? 88)))%N then (16%Z, t)
    else (10%Z, s2)
  | _ => (10%Z, s2)
  end.

(** A letter of the Basic Latin alphabet. *)
Definition isLatin (c : N) : bool :=
  (((65 <=? c) && (c <=? 90)) || ((97 <=? c) && (c <=? 122)))%N.

(** The source term of a table entry starts with a Basic Latin letter. *)
Definition latinHead (entry : jstring * jstring) : bool :=
  match fst entry with
  | c :: _ => isLatin c
  | [] => false
  end.

(* ================================================================== *)
(** ** More notions for the resolver *)

(** A key that no object inherits: the translation cache, read as a
    dictionary, answers for it as the object does.  The lower-cased full
    name of a repository, with its slash, is one. *)
Definition plainKey (k : jstring) : bool :=
  negb (existsb (jeqb k) prototypeNames).

(** A unit that is not the slash. *)
Definition noSlash (s : jstring) : bool :=
  forallb (fun c => negb (c =? 47)%N) s.

(** The world of [cachedWorld] with a curated summary for [a/x] that
    repeats the raw description of [keywordItem]. *)
Definition echoWorld : World :=
  withProjectSummariesCache [(s2j "a/x", description keywordItem)]
                            cachedWorld.

(** A repository whose last part is a name every object has. *)
Definition constructorItem : RepoInfo :=
  mkRepo (s2j "conda/constructor") [] plainDescription (s2j "1,300") 2 [].


(** The loop of [loadProjectSummaries] assigns under the key [k] when it
    meets the section: [k] is the lower-cased name of the section or, for
    a name with a slash, its lower-cased last part. *)
Definition writesKey (k : jstring) (sec : jstring * jstring) : bool :=
  let name := trim (fst sec) in
  jeqb (toLowerCase name) k
  || ((1 <? length (split 47 name))%nat
      && jeqb (toLowerCase (lastPart (split 47 name))) k).

(** No section of the list assigns under [k]. *)
Definition unwritten (k : jstring) (sections : list (jstring * jstring))
  : bool :=
  forallb (fun sec => negb (writesKey k sec)) sections.


(* ================================================================== *)
(** ** The calendar, by counting days *)

(** The leap years of the Gregorian calendar. *)
Definition leapYear (y : Z) : bool :=
  ((y mod 4 =? 0)%Z && negb (y mod 100 =? 0)%Z) || (y mod 400 =? 0)%Z.

Definition yearLength (y : Z) : Z := if leapYear y then 366%Z else 365%Z.

(** The length of the month [m], from 1 to 12. *)
Definition monthLength (leap : bool) (m : nat) : Z :=
  match m with
  | 2 => if leap then 29%Z else 28%Z
  | 4 | 6 | 9 | 11 => 30%Z
  | _ => 31%Z
  end.

(** The days of a year before its month [m]. *)
Fixpoint daysBeforeMonth (leap : bool) (m : nat) : Z :=
  match m with
  | S (S k as m') => (daysBeforeMonth leap m' + monthLength leap m')%Z
  | _ => 0%Z
  end.

(** The days from the first day of the year 0 to the first day of the
    year [y]. *)
Fixpoint daysBeforeYear (y : nat) : Z :=
  match y with
  | O => 0%Z
  | S k => (daysBeforeYear k + yearLength (Z.of_nat k))%Z
  end.

(** The number of the day [d] of the month [m] of the year [y], counted
    from the first of January 1970; a day past the end of its month is
    counted on into the next. *)
Definition epochDay (y m d : Z) : Z :=
  (daysBeforeYear (Z.to_nat y) - daysBeforeYear 1970
   + daysBeforeMonth (leapYear y) (Z.to_nat m) + d - 1)%Z.

(** The year, the month and the day a day key writes. *)
Definition yearOf (key : jstring) : Z := digitsValue (firstn 4 key).
Definition monthOf (key : jstring) : Z := digitsValue (firstn 2 (skipn 5 key)).
Definition dayOf (key : jstring) : Z := digitsValue (firstn 2 (skipn 8 key)).

(** The day key names a month from 1 to 12 and a day from 1 to 31. *)
Definition validDay (key : jstring) : bool :=
  ((1 <=? monthOf key) && (monthOf key <=? 12)
   && (1 <=? dayOf key) && (dayOf key <=? 31))%Z.

(** The time, in milliseconds, of the start of the day in UTC. *)
Definition midnight (key : jstring) : Z :=
  (epochDay (yearOf key) (monthOf key) (dayOf key) * msPerDay)%Z.

(** The file passes the name filter and carries a day whose start lies in
    the [days] times 24 hours that end at [now], both ends included. *)
Definition inWindow (now days : Z) (file : jstring) : bool :=
  isTrendingFile file &&
  match fileMatch file with
  | Some day =>
    validDay day
    && ((now - days * msPerDay <=? midnight day)%Z
        && (midnight day <=? now)%Z)
  | None => false
  end.

(** A data directory with a file that is not named by the convention and
    yet passes the filters of the reader. *)
Definition strayFiles : list (jstring * FileBody) :=
  [(s2j "trending_2026-02-21.json", Parsed (h_data day1));
   (s2j "trending_v2_trending_2026-02-20.json", Parsed (h_data day2))].

Definition strayWorld : World := withDataDir (Dir strayFiles) exampleWorld.


(* ================================================================== *)
(** * Properties *)

(** ** Checks of the embedding on concrete values *)

Example s2j_ascii : s2j "a/x" = [97; 47; 120]%N.
Proof. reflexivity. Qed.

Example s2j_cjk : s2j "人工" = [20154; 24037]%N.
Proof. reflexivity. Qed.

Example s2j_marker : s2j "📝 " = [55357; 56541; 32]%N.
Proof. reflexivity. Qed.

Example parseInt_commas : parseInt (stripCommas (s2j "1,300")) = Some 1300%Z.
Proof. reflexivity. Qed.

Example parseDate_epoch : parseDate (s2j "1970-01-01") = Some 0%Z.
Proof. reflexivity. Qed.

Example parseDate_2026 :
  parseDate (s2j "2026-02-22") = Some 1771718400000%Z.
Proof. reflexivity. Qed.

Example fileMatch_inner :
  fileMatch (s2j "trending_x_trending_2026-01-01.json") = Some (s2j "2026-01-01").
Proof. reflexivity. Qed.

Example ranking_newest_first :
  map (fun r => (name r, stars r, count r)) (calculateRanking [day2; day1])
  = [(s2j "a/x", s2j "1,200", 2); (s2j "b/y", s2j "500", 1)].
Proof. reflexivity. Qed.

Example ranking_oldest_first :
  map (fun r => (name r, stars r, count r)) (calculateRanking [day1; day2])
  = [(s2j "a/x", s2j "1,300", 2); (s2j "b/y", s2j "500", 1)].
Proof. reflexivity. Qed.

Example translate_blockchain :
  simpleTranslate (s2j "A blockchain") = s2j "A blockch人工智能n".
Proof. vm_compute. reflexivity. Qed.

Example translate_fast_tool :
  simpleTranslate (s2j "fast tool") = s2j "快速 工具".
Proof. vm_compute. reflexivity. Qed.

(** ** Strings *)

Lemma jeqb_eq (a b : jstring) : jeqb a b = true <-> a = b.
Proof.
  revert b; induction a as [|x a IH]; intros [|y b]; simpl;
    try (split; [discriminate | congruence]); try tauto.
  rewrite andb_true_iff, N.eqb_eq, IH.
  split; [intros [-> ->]; reflexivity | intros H; inversion H; auto].
Qed.

Lemma jeqb_refl (a : jstring) : jeqb a a = true.
Proof. apply jeqb_eq; reflexivity. Qed.

Lemma jeqb_neq (a b : jstring) : jeqb a b = false <-> a <> b.
Proof.
  rewrite <- jeqb_eq. destruct (jeqb a b); split; congruence.
Qed.

Lemma jeqb_sym (a b : jstring) : jeqb a b = jeqb b a.
Proof.
  destruct (jeqb a b) eqn:E1, (jeqb b a) eqn:E2; auto.
  - apply jeqb_eq in E1. subst. rewrite jeqb_refl in E2. discriminate.
  - apply jeqb_eq in E2. subst. rewrite jeqb_refl in E1. discriminate.
Qed.

Lemma jleb_refl (a : jstring) : jleb a a = true.
Proof.
  induction a as [|x a IH]; simpl; auto.
  rewrite N.ltb_irrefl. exact IH.
Qed.

Lemma jleb_total (a b : jstring) : jleb a b = true \/ jleb b a = true.
Proof.
  revert b; induction a as [|x a IH]; intros [|y b]; simpl; auto.
  destruct (N.ltb_spec x y), (N.ltb_spec y x); auto; lia.
Qed.

Lemma jleb_trans (a b c : jstring) :
  jleb a b = true -> jleb b c = true -> jleb a c = true.
Proof.
  revert b c; induction a as [|x a IH]; intros [|y b] [|z c]; simpl; auto;
    try discriminate.
  destruct (N.ltb_spec x y), (N.ltb_spec y x), (N.ltb_spec y z),
    (N.ltb_spec z y), (N.ltb_spec x z), (N.ltb_spec z x);
    try discriminate; try lia; auto.
  apply IH.
Qed.

Lemma jleb_antisym (a b : jstring) :
  jleb a b = true -> jleb b a = true -> a = b.
Proof.
  revert b; induction a as [|x a IH]; intros [|y b]; simpl; auto;
    try discriminate.
  destruct (N.ltb_spec x y), (N.ltb_spec y x); try discriminate; try lia.
  intros H1 H2. f_equal; [lia | auto].
Qed.

Lemma startsWith_iff (s p : jstring) :
  startsWith s p = true <-> exists b, s = p ++ b.
Proof.
  revert s. induction p as [|x p IH]; intros s.
  - split; [intros _; exists s; reflexivity |].
    intros _. destruct s; reflexivity.
  - destruct s as [|y s]; simpl.
    + split; [discriminate | intros [b Hb]; discriminate].
    + rewrite andb_true_iff, N.eqb_eq, IH. split.
      * intros [-> [b ->]]. exists b. reflexivity.
      * intros [b Hb]. inversion Hb. split; [reflexivity | exists b; reflexivity].
Qed.

Lemma includes_iff (s p : jstring) :
  includes s p = true <-> exists a b, s = a ++ p ++ b.
Proof.
  induction s as [|c s IH].
  - change (includes [] p) with (startsWith [] p || false).
    rewrite orb_false_r, startsWith_iff. split.
    + intros [b Hb]. exists [], b. exact Hb.
    + intros (a & b & H). symmetry in H.
      apply app_eq_nil in H. destruct H as [-> H]. exists b. symmetry. exact H.
  - change (includes (c :: s) p)
      with (startsWith (c :: s) p || includes s p).
    rewrite orb_true_iff, startsWith_iff, IH. split.
    + intros [[b Hb] | (a & b & Hab)].
      * exists [], b. exact Hb.
      * exists (c :: a), b. rewrite Hab. reflexivity.
    + intros (a & b & H). destruct a as [|c' a].
      * left. exists b. exact H.
      * right. inversion H. exists a, b. reflexivity.
Qed.

Lemma endsWith_iff (s p : jstring) :
  endsWith s p = true <-> exists a, s = a ++ p.
Proof.
  unfold endsWith. rewrite andb_true_iff, Nat.leb_le, jeqb_eq. split.
  - intros [L E]. exists (firstn (length s - length p) s).
    transitivity (firstn (length s - length p) s
                  ++ skipn (length s - length p) s).
    + symmetry. apply firstn_skipn.
    + f_equal. exact E.
  - intros [a ->]. rewrite length_app. split; [lia |].
    replace (length a + length p - length p) with (length a) by lia.
    induction a as [|c a IH]; [reflexivity | exact IH].
Qed.

(** ** The stable sort *)

Section SortFacts.
Variable A : Type.
Variable cmp : A -> A -> Z.

Hypothesis le_total : forall a b, cmpLe cmp a b \/ cmpLe cmp b a.
Hypothesis le_trans : forall a b c, cmpLe cmp a b -> cmpLe cmp b c -> cmpLe cmp a c.

Lemma insertSorted_perm (x : A) (l : list A) :
  Permutation (x :: l) (insertSorted cmp x l).
Proof.
  induction l as [|y l IH]; simpl; auto.
  destruct (cmp x y <=? 0)%Z; auto.
  rewrite perm_swap. constructor. exact IH.
Qed.

Lemma sortWith_perm (l : list A) : Permutation l (sortWith cmp l).
Proof.
  induction l as [|x l IH]; simpl; auto.
  rewrite <- insertSorted_perm. constructor. exact IH.
Qed.

Lemma insertSorted_sorted (x : A) (l : list A) :
  StronglySorted (cmpLe cmp) l -> StronglySorted (cmpLe cmp) (insertSorted cmp x l).
Proof.
  induction 1 as [|y l Hs IH Hy]; simpl.
  - repeat constructor.
  - destruct (Z.leb_spec (cmp x y) 0) as [Hle | Hgt].
    + constructor; [constructor; assumption |].
      constructor; [exact Hle |].
      eapply Forall_impl; [| exact Hy]. intros z Hz. eapply le_trans; eauto.
    + constructor; [exact IH |].
      assert (Hyx : cmpLe cmp y x).
      { destruct (le_total x y) as [H | H]; [unfold cmpLe in H; lia | exact H]. }
      rewrite <- insertSorted_perm. constructor; assumption.
Qed.

Lemma sortWith_sorted (l : list A) : StronglySorted (cmpLe cmp) (sortWith cmp l).
Proof.
  induction l as [|x l IH]; simpl; [constructor |].
  apply insertSorted_sorted. exact IH.
Qed.

Lemma insertSorted_least (x : A) (l : list A) :
  Forall (cmpLe cmp x) l -> insertSorted cmp x l = x :: l.
Proof.
  destruct l as [|y l]; simpl; auto.
  intros H. inversion H as [|? ? Hxy _]; subst.
  destruct (Z.leb_spec (cmp x y) 0); [reflexivity | unfold cmpLe in Hxy; lia].
Qed.

(** Filtering commutes with the stable sort. *)
Lemma insertSorted_filter (p : A -> bool) (x : A) (l : list A) :
  StronglySorted (cmpLe cmp) l ->
  filter p (insertSorted cmp x l)
  = if p x then insertSorted cmp x (filter p l) else filter p l.
Proof.
  induction 1 as [|y l Hs IH Hy]; simpl.
  - destruct (p x); reflexivity.
  - destruct (Z.leb_spec (cmp x y) 0) as [Hle | Hgt].
    + simpl. destruct (p x) eqn:Px; [| reflexivity].
      symmetry.
      replace (if p y then y :: filter p l else filter p l)
        with (filter p (y :: l)) by reflexivity.
      apply insertSorted_least.
      apply Forall_forall. intros z Hz. apply filter_In in Hz.
      destruct Hz as [[-> | Hz] _]; [exact Hle |].
      rewrite Forall_forall in Hy. eapply le_trans; eauto.
    + simpl. rewrite IH.
      destruct (p y) eqn:Py, (p x) eqn:Px; simpl; try reflexivity.
      destruct (Z.leb_spec (cmp x y) 0); [lia | reflexivity].
Qed.

Lemma sortWith_filter (p : A -> bool) (l : list A) :
  filter p (sortWith cmp l) = sortWith cmp (filter p l).
Proof.
  induction l as [|x l IH]; simpl; auto.
  rewrite insertSorted_filter by apply sortWith_sorted.
  rewrite IH. destruct (p x); reflexivity.
Qed.

(** A sorted list is determined by the order inside its classes of tied
    elements: the stable sort of a list is unique. *)
Lemma sorted_stable_unique (l1 l2 : list A) :
  (forall a b, tied cmp a b = tied cmp b a) ->
  (forall a, tied cmp a a = true) ->
  StronglySorted (cmpLe cmp) l1 -> StronglySorted (cmpLe cmp) l2 ->
  (forall a, filter (tied cmp a) l1 = filter (tied cmp a) l2) ->
  l1 = l2.
Proof.
  intros Hsym Hrefl H1. revert l2.
  induction H1 as [|x t1 Hs1 IH Hx]; intros l2 H2 Hf.
  - destruct l2 as [|y t2]; auto.
    specialize (Hf y). simpl in Hf. rewrite Hrefl in Hf. discriminate.
  - destruct l2 as [|y t2].
    { specialize (Hf x). simpl in Hf. rewrite Hrefl in Hf. discriminate. }
    inversion H2 as [|? ? Hs2 Hy]; subst.
    assert (Txy : tied cmp x y = true).
    { destruct (tied cmp x y) eqn:T; auto. exfalso.
      assert (Hyin : In y t1).
      { pose proof (Hf y) as F. simpl in F.
        rewrite Hrefl in F. rewrite Hsym, T in F.
        assert (I : In y (filter (tied cmp y) t1)) by (rewrite F; left; auto).
        apply filter_In in I. tauto. }
      assert (Hxin : In x t2).
      { pose proof (Hf x) as F. simpl in F.
        rewrite Hrefl, T in F.
        assert (I : In x (filter (tied cmp x) t2)) by (rewrite <- F; left; auto).
        apply filter_In in I. tauto. }
      rewrite Forall_forall in Hx, Hy.
      pose proof (Hx _ Hyin) as L1. pose proof (Hy _ Hxin) as L2.
      unfold tied in T. unfold cmpLe in L1, L2.
      apply andb_false_iff in T. rewrite !Z.leb_gt in T. lia. }
    assert (x = y).
    { pose proof (Hf x) as F. simpl in F. rewrite Hrefl, Txy in F.
      congruence. }
    subst y. f_equal. apply IH; auto.
    intros a. pose proof (Hf a) as F. simpl in F.
    destruct (tied cmp a x); congruence.
Qed.

Lemma sortWith_stable (l : list A) (a : A) :
  filter (tied cmp a) (sortWith cmp l) = filter (tied cmp a) l.
Proof.
  induction l as [|x l IH]; simpl; auto.
  rewrite insertSorted_filter by apply sortWith_sorted.
  rewrite IH. destruct (tied cmp a x) eqn:T; auto.
  apply insertSorted_least.
  apply Forall_forall. intros z Hz. apply filter_In in Hz.
  destruct Hz as [_ Hz].
  unfold tied in T, Hz. rewrite andb_true_iff, !Z.leb_le in T, Hz.
  apply le_trans with a; unfold cmpLe; tauto.
Qed.
End SortFacts.

(** ** The map of the aggregator *)

Ltac jeq_cases :=
  repeat match goal with
  | |- context [jeqb ?a ?b] =>
    let E := fresh "E" in
    destruct (jeqb a b) eqn:E;
    [apply jeqb_eq in E; try subst | apply jeqb_neq in E]
  end;
  simpl; try congruence; auto.

Lemma mapHas_mapGet (m : RepoMap) (k : jstring) :
  mapHas m k = match mapGet m k with Some _ => true | None => false end.
Proof.
  induction m as [|[k' v] m IH]; simpl; auto.
  destruct (jeqb k' k); simpl; auto.
Qed.

Lemma mapGet_mapSet (m : RepoMap) (k n : jstring) (v : RepoInfo) :
  mapGet (mapSet m k v) n = if jeqb k n then Some v else mapGet m n.
Proof.
  induction m as [|[k' v'] m IH]; simpl; auto.
  destruct (jeqb k' k) eqn:E; simpl.
  - apply jeqb_eq in E. subst. destruct (jeqb k n); reflexivity.
  - rewrite IH. apply jeqb_neq in E. jeq_cases.
Qed.

Lemma mapGet_mapUpdate (m : RepoMap) (k n : jstring) (f : RepoInfo -> RepoInfo) :
  mapGet (mapUpdate m k f) n
  = if jeqb k n then option_map f (mapGet m k) else mapGet m n.
Proof.
  induction m as [|[k' v'] m IH]; simpl; [destruct (jeqb k n); reflexivity |].
  destruct (jeqb k' k) eqn:E; simpl.
  - apply jeqb_eq in E. subst. destruct (jeqb k n); reflexivity.
  - rewrite IH. apply jeqb_neq in E. jeq_cases.
Qed.

Lemma keys_mapUpdate (m : RepoMap) (k : jstring) (f : RepoInfo -> RepoInfo) :
  map fst (mapUpdate m k f) = map fst m.
Proof.
  induction m as [|[k' v'] m IH]; simpl; auto.
  destruct (jeqb k' k); simpl; congruence.
Qed.

Lemma mapSet_absent (m : RepoMap) (k : jstring) (v : RepoInfo) :
  mapHas m k = false -> mapSet m k v = m ++ [(k, v)].
Proof.
  induction m as [|[k' v'] m IH]; simpl; auto.
  intros H. apply orb_false_iff in H. destruct H as [H1 H2].
  rewrite H1, IH by assumption. reflexivity.
Qed.

Lemma mapGet_In (m : RepoMap) (k : jstring) (v : RepoInfo) :
  NoDup (map fst m) -> In (k, v) m -> mapGet m k = Some v.
Proof.
  induction m as [|[k' v'] m IH]; simpl; [tauto |].
  intros Hnd [Heq | Hin].
  - inversion Heq; subst. rewrite jeqb_refl. reflexivity.
  - inversion Hnd as [|? ? Hk Hnd']; subst.
    destruct (jeqb k' k) eqn:E; [| auto].
    apply jeqb_eq in E. subst. exfalso. apply Hk.
    apply in_map_iff. exists (k, v). auto.
Qed.

(** What one turn of the inner loop does, by the name of the element. *)
Lemma visit_valid (date : jstring) (m : RepoMap) (repo : option Entry)
      (r : Entry) (k : jstring) :
  repo = Some r -> validName repo = Some k ->
  visit date m repo
  = mapUpdate
      (if mapHas m k then m
       else mapSet m k (mkRepo k (orElse (e_url r) []) (orElse (e_description r) [])
                               (orElse (e_stars r) (s2j "0")) 0 []))
      k (touch date r).
Proof.
  intros -> H. unfold validName in H. unfold visit.
  destruct (e_name r) as [[|c n]|]; try discriminate.
  inversion H; subst. reflexivity.
Qed.

Lemma visit_invalid (date : jstring) (m : RepoMap) (repo : option Entry) :
  validName repo = None -> visit date m repo = m.
Proof.
  unfold validName, visit. destruct repo as [r|]; auto.
  destruct (e_name r) as [[|c n]|]; auto. discriminate.
Qed.

Lemma validName_Some (repo : option Entry) (k : jstring) :
  validName repo = Some k -> exists r, repo = Some r.
Proof. destruct repo as [r|]; simpl; [eauto | discriminate]. Qed.

Lemma countOf_visit (date : jstring) (m : RepoMap) (repo : option Entry)
      (n : jstring) :
  countOf (visit date m repo) n
  = countOf m n + (if bears n repo then 1 else 0).
Proof.
  unfold bears. destruct (validName repo) as [k|] eqn:V.
  - destruct (validName_Some _ V) as [r ->].
    rewrite (visit_valid date m eq_refl V).
    unfold countOf. rewrite mapGet_mapUpdate.
    destruct (jeqb k n) eqn:E.
    + apply jeqb_eq in E. subst n.
      rewrite mapHas_mapGet.
      destruct (mapGet m k) as [v|] eqn:G; simpl.
      * rewrite G. simpl. lia.
      * rewrite mapGet_mapSet, jeqb_refl. simpl. reflexivity.
    + destruct (mapHas m k); [lia |].
      rewrite mapGet_mapSet, E. lia.
  - rewrite visit_invalid by assumption. lia.
Qed.

Lemma countOf_day (date : jstring) (entries : list (option Entry))
      (m : RepoMap) (n : jstring) :
  countOf (fold_left (visit date) entries m) n
  = countOf m n + length (filter (bears n) entries).
Proof.
  revert m; induction entries as [|e es IH]; intros m; simpl; [lia |].
  rewrite IH, countOf_visit. destruct (bears n e); simpl; lia.
Qed.

Lemma countOf_history (historyData : list HistoryItem) (m : RepoMap)
      (n : jstring) :
  countOf (fold_left visitDay historyData m) n
  = countOf m n + occurrences n historyData.
Proof.
  unfold occurrences.
  revert m; induction historyData as [|h hs IH]; intros m; simpl; [lia |].
  rewrite IH, filter_app, length_app. unfold visitDay.
  destruct (h_data h) as [|entries]; simpl; [lia |].
  rewrite countOf_day. lia.
Qed.

Lemma mapHas_existsb (m : RepoMap) (k : jstring) :
  mapHas m k = existsb (jeqb k) (map fst m).
Proof.
  induction m as [|[k' v] m IH]; simpl; auto.
  rewrite IH, (jeqb_sym k' k). reflexivity.
Qed.

Lemma keys_visit (date : jstring) (m : RepoMap) (repo : option Entry) :
  map fst (visit date m repo)
  = match validName repo with
    | Some k => addKey (map fst m) k
    | None => map fst m
    end.
Proof.
  destruct (validName repo) as [k|] eqn:V.
  - destruct (validName_Some _ V) as [r ->].
    rewrite (visit_valid date m eq_refl V), keys_mapUpdate.
    unfold addKey. rewrite <- mapHas_existsb.
    destruct (mapHas m k) eqn:H; auto.
    rewrite mapSet_absent by assumption. rewrite map_app. reflexivity.
  - rewrite visit_invalid by assumption. reflexivity.
Qed.

Lemma keys_day (date : jstring) (entries : list (option Entry)) (m : RepoMap) :
  map fst (fold_left (visit date) entries m)
  = fold_left addKey (namesOf (ArrayOf entries)) (map fst m).
Proof.
  unfold namesOf. simpl.
  revert m; induction entries as [|e es IH]; intros m; simpl; auto.
  rewrite IH, keys_visit, fold_left_app.
  destruct (validName e); reflexivity.
Qed.

Lemma keys_history (historyData : list HistoryItem) (m : RepoMap) :
  map fst (fold_left visitDay historyData m)
  = fold_left addKey (namesSeen historyData) (map fst m).
Proof.
  unfold namesSeen.
  revert m; induction historyData as [|h hs IH]; intros m; simpl; auto.
  rewrite IH, fold_left_app. f_equal.
  unfold visitDay. destruct (h_data h) as [|entries]; [reflexivity |].
  apply keys_day.
Qed.

Lemma existsb_jeqb_In (k : jstring) (l : list jstring) :
  existsb (jeqb k) l = true <-> In k l.
Proof.
  rewrite existsb_exists. split.
  - intros [x [Hin E]]. apply jeqb_eq in E. subst. exact Hin.
  - intros Hin. exists k. split; [exact Hin | apply jeqb_refl].
Qed.

Lemma keepFirst_snoc (l : list jstring) (x : jstring) :
  keepFirst (l ++ [x]) = addKey (keepFirst l) x.
Proof.
  unfold keepFirst, addKey. rewrite rev_app_distr. simpl.
  destruct (in_dec jstring_eq_dec x (rev l)) as [Hin | Hnin].
  - assert (H : existsb (jeqb x) (rev (nodup jstring_eq_dec (rev l))) = true).
    { apply existsb_jeqb_In. rewrite <- in_rev. apply nodup_In. exact Hin. }
    rewrite H. reflexivity.
  - assert (H : existsb (jeqb x) (rev (nodup jstring_eq_dec (rev l))) = false).
    { destruct (existsb _ _) eqn:E; auto. exfalso. apply Hnin.
      apply existsb_jeqb_In in E. rewrite <- in_rev in E.
      apply nodup_In in E. exact E. }
    rewrite H. reflexivity.
Qed.

Lemma fold_addKey_keepFirst (l : list jstring) :
  fold_left addKey l [] = keepFirst l.
Proof.
  induction l as [|x l IH] using rev_ind; [reflexivity |].
  rewrite fold_left_app, keepFirst_snoc. simpl. rewrite IH. reflexivity.
Qed.

Lemma keys_aggregate (historyData : list HistoryItem) :
  map fst (aggregate historyData) = keepFirst (namesSeen historyData).
Proof.
  unfold aggregate. rewrite keys_history. apply fold_addKey_keepFirst.
Qed.

Lemma keys_aggregate_NoDup (historyData : list HistoryItem) :
  NoDup (map fst (aggregate historyData)).
Proof.
  rewrite keys_aggregate. unfold keepFirst.
  apply NoDup_rev, NoDup_nodup.
Qed.

Lemma filedByName_mapUpdate (m : RepoMap) (k : jstring)
      (f : RepoInfo -> RepoInfo) :
  (forall v, name (f v) = name v) ->
  filedByName m -> filedByName (mapUpdate m k f).
Proof.
  intros Hf. induction 1 as [|[k' v] m Hkv Hm IH]; simpl; [constructor |].
  destruct (jeqb k' k); constructor; simpl in *; auto.
  rewrite Hf. exact Hkv.
Qed.

Lemma filedByName_visit (date : jstring) (m : RepoMap) (repo : option Entry) :
  filedByName m -> filedByName (visit date m repo).
Proof.
  intros Hm. destruct (validName repo) as [k|] eqn:V.
  - destruct (validName_Some _ V) as [r ->].
    rewrite (visit_valid date m eq_refl V).
    apply filedByName_mapUpdate; [reflexivity |].
    destruct (mapHas m k) eqn:H; auto.
    rewrite mapSet_absent by assumption.
    apply Forall_app. split; [assumption | repeat constructor].
  - rewrite visit_invalid by assumption. exact Hm.
Qed.

Lemma filedByName_aggregate (historyData : list HistoryItem) :
  filedByName (aggregate historyData).
Proof.
  unfold aggregate.
  assert (G : forall hs m, filedByName m -> filedByName (fold_left visitDay hs m)).
  { induction hs as [|h hs IH]; intros m Hm; simpl; auto.
    apply IH. unfold visitDay. destruct (h_data h) as [|entries]; auto.
    revert m Hm. induction entries as [|e es IHe]; intros m Hm; simpl; auto.
    apply IHe. apply filedByName_visit. exact Hm. }
  apply G. constructor.
Qed.

(** An object of the map is the one the map gives for its name. *)
Lemma aggregate_values (historyData : list HistoryItem) (r : RepoInfo) :
  In r (map snd (aggregate historyData)) ->
  mapGet (aggregate historyData) (name r) = Some r.
Proof.
  intros Hin. apply in_map_iff in Hin. destruct Hin as [[k v] [Hv Hin]].
  simpl in Hv. subst v.
  pose proof (filedByName_aggregate historyData) as F.
  unfold filedByName in F. rewrite Forall_forall in F.
  pose proof (F _ Hin) as Hk. simpl in Hk. subst k.
  apply mapGet_In; [apply keys_aggregate_NoDup | exact Hin].
Qed.

Lemma aggregate_count (historyData : list HistoryItem) (r : RepoInfo) :
  In r (map snd (aggregate historyData)) ->
  count r = occurrences (name r) historyData.
Proof.
  intros Hin. pose proof (aggregate_values _ _ Hin) as G.
  pose proof (countOf_history historyData [] (name r)) as C.
  unfold aggregate in G. unfold countOf in C. rewrite G in C. simpl in C.
  exact C.
Qed.

(** ** Occurrence counts *)

Lemma In_namesOf (n : jstring) (entries : list (option Entry)) :
  In n (namesOf (ArrayOf entries)) <-> existsb (bears n) entries = true.
Proof.
  unfold namesOf. simpl. rewrite in_flat_map, existsb_exists.
  split; intros [e [Hin H]]; exists e; split; auto; unfold bears in *.
  - destruct (validName e) as [m|]; simpl in H; [| tauto].
    destruct H as [-> | []]. apply jeqb_refl.
  - destruct (validName e) as [m|]; [| discriminate].
    apply jeqb_eq in H. subst. left. reflexivity.
Qed.

Lemma filter_bears_absent (n : jstring) (entries : list (option Entry)) :
  ~ In n (namesOf (ArrayOf entries)) -> filter (bears n) entries = [].
Proof.
  intros H. rewrite In_namesOf in H.
  induction entries as [|e es IH]; simpl in *; auto.
  destruct (bears n e); simpl in H; [congruence |].
  apply IH. exact H.
Qed.

Lemma unique_occurrence (data : SnapshotJson) (n : jstring) :
  uniqueNames data ->
  length (filter (bears n) (entriesOf data))
  = if containsName n data then 1 else 0.
Proof.
  unfold uniqueNames, containsName.
  destruct data as [|entries]; simpl; auto.
  induction entries as [|e es IH]; simpl; auto.
  intros Hnd. unfold namesOf in Hnd. simpl in Hnd.
  fold (namesOf (ArrayOf es)) in Hnd.
  assert (B : bears n e = match validName e with
                          | Some m => jeqb m n
                          | None => false
                          end) by reflexivity.
  destruct (validName e) as [m|] eqn:V; simpl in Hnd; rewrite B; clear B.
  - inversion Hnd as [|? ? Hm Hnd']; subst.
    destruct (jeqb m n) eqn:E; simpl.
    + apply jeqb_eq in E. subst m.
      rewrite filter_bears_absent by exact Hm. reflexivity.
    + apply IH. exact Hnd'.
  - simpl. apply IH. exact Hnd.
Qed.

Lemma occurrences_snapshots (historyData : list HistoryItem) (n : jstring) :
  (forall h, In h historyData -> uniqueNames (h_data h)) ->
  occurrences n historyData = snapshotsWith n historyData.
Proof.
  unfold occurrences, snapshotsWith.
  induction historyData as [|h hs IH]; intros Hu; simpl; auto.
  rewrite filter_app, length_app, IH by (intros; apply Hu; right; assumption).
  rewrite unique_occurrence by (apply Hu; left; reflexivity).
  destruct (containsName n (h_data h)); simpl; lia.
Qed.

Lemma snapshotsWith_perm (l l' : list HistoryItem) (n : jstring) :
  Permutation l l' -> snapshotsWith n l = snapshotsWith n l'.
Proof.
  intros P. unfold snapshotsWith.
  apply Permutation_length.
  induction P; simpl; auto.
  - destruct (containsName n (h_data x)); auto.
  - destruct (containsName n (h_data x)), (containsName n (h_data y)); auto.
    apply perm_swap.
  - etransitivity; eauto.
Qed.

Lemma In_firstn (A : Type) (n : nat) (l : list A) (x : A) :
  In x (firstn n l) -> In x l.
Proof.
  intros H. rewrite <- (firstn_skipn n l). apply in_or_app. left. exact H.
Qed.

Lemma ranking_incl (historyData : list HistoryItem) (r : RepoInfo) :
  In r (calculateRanking historyData) ->
  In r (map snd (aggregate historyData)).
Proof.
  unfold calculateRanking. intros H.
  apply In_firstn in H.
  eapply Permutation_in; [| exact H].
  symmetry. apply sortWith_perm.
Qed.

(** C4.  The count an entity ends with is the number of entries that bear
    its name.  When every snapshot has a name at most once, as the data
    model says, this is exactly the number of (day, snapshot) pairs whose
    snapshot has an entry of that name: in the map of the aggregator, hence
    in the ranking returned; and it is the same for every order in which
    the pairs are supplied. *)
Theorem occurrence_count (historyData : list HistoryItem) :
  (forall n, countOf (aggregate historyData) n = occurrences n historyData) /\
  ((forall h, In h historyData -> uniqueNames (h_data h)) ->
   (forall n, countOf (aggregate historyData) n = snapshotsWith n historyData) /\
   (forall r, In r (calculateRanking historyData) ->
              count r = snapshotsWith (name r) historyData) /\
   (forall historyData', Permutation historyData historyData' ->
      forall n, countOf (aggregate historyData') n
                = countOf (aggregate historyData) n)).
Proof.
  split; [intros n; apply (countOf_history historyData []) |].
  intros Hu.
  assert (C : forall l, (forall h, In h l -> uniqueNames (h_data h)) ->
                        forall n, countOf (aggregate l) n = snapshotsWith n l).
  { intros l Hl n. unfold aggregate. rewrite countOf_history.
    rewrite occurrences_snapshots by assumption. reflexivity. }
  split; [apply C; assumption |]. split.
  - intros r Hr. apply ranking_incl in Hr.
    rewrite (aggregate_count _ _ Hr).
    apply occurrences_snapshots. assumption.
  - intros l' P n. rewrite !C; auto.
    + symmetry. apply snapshotsWith_perm. assumption.
    + intros h Hh. apply Hu. eapply Permutation_in; [symmetry; eassumption | assumption].
Qed.

Lemma occurrence_count_witness :
  (forall n, countOf (aggregate [day2; day1]) n = snapshotsWith n [day2; day1]) /\
  (forall r, In r (calculateRanking [day2; day1]) ->
             count r = snapshotsWith (name r) [day2; day1]) /\
  (forall historyData', Permutation [day2; day1] historyData' ->
     forall n, countOf (aggregate historyData') n
               = countOf (aggregate [day2; day1]) n).
Proof.
  apply (proj2 (occurrence_count [day2; day1])).
  intros h [<- | [<- | []]]; unfold uniqueNames; vm_compute;
    repeat constructor; simpl; intuition discriminate.
Defined.

(** ** The number read from the stars *)

Lemma isDigit_cases (c : N) :
  isDigit c = true ->
  c = 48%N \/ c = 49%N \/ c = 50%N \/ c = 51%N \/ c = 52%N \/
  c = 53%N \/ c = 54%N \/ c = 55%N \/ c = 56%N \/ c = 57%N.
Proof.
  unfold isDigit. rewrite andb_true_iff, !N.leb_le. lia.
Qed.

Ltac split_units :=
  repeat (cbv beta iota;
          match goal with
          | |- context [match ?x with xI _ => _ | xO _ => _ | xH => _ end] =>
            is_var x; destruct x
          | |- context [match ?x with N0 => _ | Npos _ => _ end] =>
            is_var x; destruct x
          end).

Lemma parseInt_unfold (s : jstring) :
  parseInt s
  = let '(sign, s2) := signOf (skipWhite s) in
    let '(radix, s3) := radixOf s2 in
    match readDigits radix None s3 with
    | Some v => Some (sign * v)%Z
    | None => None
    end.
Proof.
  unfold parseInt, signOf, radixOf.
  destruct (skipWhite s) as [|a t]; [reflexivity |].
  destruct t as [|b t]; [split_units; reflexivity |].
  destruct t as [|c t]; split_units; reflexivity.
Qed.

Lemma digitVal_digit (c : N) :
  isDigit c = true -> digitVal 10 c = Some (Z.of_N c - 48)%Z.
Proof.
  intros H. unfold digitVal. unfold isDigit in H.
  apply andb_true_iff in H. destruct H as [H1 H2].
  apply N.leb_le in H1, H2.
  replace ((48 <=? Z.of_N c)%Z && (Z.of_N c <=? 57)%Z) with true; [reflexivity |].
  symmetry. apply andb_true_iff. split; apply Z.leb_le; lia.
Qed.

Lemma digitVal_other (c : N) : isDigit c = false -> digitVal 10 c = None.
Proof.
  intros H. unfold digitVal. unfold isDigit in H.
  replace ((48 <=? Z.of_N c)%Z && (Z.of_N c <=? 57)%Z) with false; [reflexivity |].
  rewrite <- H. f_equal.
  - destruct (N.leb_spec 48 c), (Z.leb_spec 48 (Z.of_N c)); auto; lia.
  - destruct (N.leb_spec c 57), (Z.leb_spec (Z.of_N c) 57); auto; lia.
Qed.

Lemma readDigits_digits (digits tail : jstring) (v : Z) :
  forallb isDigit digits = true -> endsDigits tail ->
  readDigits 10 (Some v) (digits ++ tail)
  = Some (fold_left (fun a c => (a * 10 + (Z.of_N c - 48))%Z) digits v).
Proof.
  revert v. induction digits as [|c digits IH]; intros v Hd Ht.
  - cbn [app fold_left]. destruct tail as [|c tail]; [reflexivity |].
    cbn [readDigits]. rewrite (digitVal_other _ Ht). reflexivity.
  - cbn [forallb] in Hd. apply andb_true_iff in Hd. destruct Hd as [H1 H2].
    cbn [app readDigits fold_left]. rewrite (digitVal_digit _ H1).
    apply IH; assumption.
Qed.

Lemma isDigit_not_white (c : N) : isDigit c = true -> isWhite c = false.
Proof.
  intros H.
  destruct (isDigit_cases _ H) as [-> | [-> | [-> | [-> | [-> | [-> | [-> |
    [-> | [-> | ->]]]]]]]]]; reflexivity.
Qed.

Lemma parseInt_digits (a : N) (digits tail : jstring) :
  forallb isDigit (a :: digits) = true ->
  endsDigits tail ->
  match tail with
  | c :: _ => c <> 120%N /\ c <> 88%N
  | [] => True
  end ->
  parseInt ((a :: digits) ++ tail) = Some (digitsValue (a :: digits)).
Proof.
  intros Hd Ht Hx.
  cbn [forallb] in Hd. apply andb_true_iff in Hd. destruct Hd as [Ha Hds].
  rewrite parseInt_unfold. cbn [app skipWhite].
  rewrite (isDigit_not_white _ Ha).
  assert (S : signOf (a :: digits ++ tail) = (1%Z, a :: digits ++ tail)).
  { unfold signOf.
    destruct (isDigit_cases _ Ha) as [-> | [-> | [-> | [-> | [-> | [-> | [-> |
      [-> | [-> | ->]]]]]]]]]; reflexivity. }
  assert (R : radixOf (a :: digits ++ tail) = (10%Z, a :: digits ++ tail)).
  { unfold radixOf. destruct (digits ++ tail) as [|b t] eqn:E; [reflexivity |].
    assert (Hb : (b =? 120)%N = false /\ (b =? 88)%N = false).
    { destruct digits as [|b' digits'].
      - cbn [app] in E. subst tail. destruct Hx as [H1 H2].
        split; apply N.eqb_neq; assumption.
      - cbn [app] in E. inversion E; subst b'.
        cbn [forallb] in Hds. apply andb_true_iff in Hds.
        destruct Hds as [Hb _].
        destruct (isDigit_cases _ Hb) as [-> | [-> | [-> | [-> | [-> | [-> |
          [-> | [-> | [-> | ->]]]]]]]]]; split; reflexivity. }
    destruct Hb as [-> ->]. cbn [orb]. rewrite andb_false_r. reflexivity. }
  rewrite S, R. cbn [readDigits]. rewrite (digitVal_digit _ Ha).
  rewrite (@readDigits_digits digits tail _ Hds Ht).
  unfold digitsValue. cbn [fold_left]. rewrite Z.mul_1_l.
  replace (0 * 10 + (Z.of_N a - 48))%Z with (Z.of_N a - 48)%Z by lia.
  reflexivity.
Qed.

Lemma stripCommas_app (a b : jstring) :
  stripCommas (a ++ b) = stripCommas a ++ stripCommas b.
Proof. apply filter_app. Qed.

Lemma stripCommas_digits (d : jstring) :
  forallb (fun u => isDigit u || (u =? 44)%N) d = true ->
  forallb isDigit (stripCommas d) = true.
Proof.
  induction d as [|u d IH]; [reflexivity |].
  cbn [forallb]. intros H. apply andb_true_iff in H. destruct H as [H1 H2].
  unfold stripCommas in *. cbn [filter].
  destruct (N.eqb_spec u 44) as [-> | Hu]; cbn [negb]; [apply IH, H2 |].
  cbn [forallb]. rewrite (IH H2), andb_true_r.
  apply orb_true_iff in H1. destruct H1 as [H1 | H1]; [exact H1 |].
  discriminate.
Qed.



(** ** The ranking order *)

Lemma compareFn_ranksBefore (a b : RepoInfo) :
  cmpLe compareFn a b <-> ranksBefore a b.
Proof.
  unfold cmpLe, compareFn, ranksBefore.
  destruct (Nat.eqb_spec (count a) (count b)); simpl; lia.
Qed.

Lemma compareFn_total (a b : RepoInfo) :
  cmpLe compareFn a b \/ cmpLe compareFn b a.
Proof.
  unfold cmpLe, compareFn.
  destruct (Nat.eqb_spec (count a) (count b)),
           (Nat.eqb_spec (count b) (count a)); simpl; lia.
Qed.

Lemma compareFn_trans (a b c : RepoInfo) :
  cmpLe compareFn a b -> cmpLe compareFn b c -> cmpLe compareFn a c.
Proof.
  rewrite !compareFn_ranksBefore. unfold ranksBefore. lia.
Qed.

Lemma compareFn_tied (a b : RepoInfo) : tied compareFn a b = fullTie a b.
Proof.
  unfold tied, fullTie, compareFn.
  destruct (Nat.eqb_spec (count a) (count b)),
           (Nat.eqb_spec (count b) (count a)); simpl; lia.
Qed.

Lemma StronglySorted_impl (A : Type) (R S : A -> A -> Prop) (l : list A) :
  (forall a b, R a b -> S a b) -> StronglySorted R l -> StronglySorted S l.
Proof.
  intros H. induction 1 as [|x l Hs IH Hx]; constructor; auto.
  eapply Forall_impl; [| exact Hx]. auto.
Qed.

Lemma StronglySorted_firstn (A : Type) (R : A -> A -> Prop) (n : nat)
      (l : list A) :
  StronglySorted R l -> StronglySorted R (firstn n l).
Proof.
  intros H. revert n. induction H as [|x l Hs IH Hx]; intros [|n]; simpl;
    try constructor; auto.
  apply Forall_forall. intros y Hy. apply In_firstn in Hy.
  rewrite Forall_forall in Hx. auto.
Qed.

Lemma sorted_ranking (l : list RepoInfo) :
  StronglySorted ranksBefore (sortWith compareFn l).
Proof.
  apply StronglySorted_impl with (R := cmpLe compareFn).
  - intros a b. apply compareFn_ranksBefore.
  - apply sortWith_sorted; [apply compareFn_total | apply compareFn_trans].
Qed.

Lemma stable_ranking (l : list RepoInfo) (a : RepoInfo) :
  filter (fullTie a) (sortWith compareFn l) = filter (fullTie a) l.
Proof.
  rewrite <- !(filter_ext _ _ (compareFn_tied a)).
  apply sortWith_stable; [apply compareFn_total | apply compareFn_trans].
Qed.

Lemma sortWith_stableSortOf (l : list RepoInfo) :
  stableSortOf l (sortWith compareFn l).
Proof.
  split; [apply sortWith_perm |].
  split; [apply sorted_ranking | apply stable_ranking].
Qed.

Lemma values_names (m : RepoMap) :
  filedByName m -> map name (map snd m) = map fst m.
Proof.
  induction 1 as [|[k v] m Hkv Hm IH]; simpl in *; congruence.
Qed.


(** C6.  The ranking is a function of the history alone: the embedding of
    [calculateRanking] takes no world, since the source reads no module
    variable and writes neither its argument nor anything outside the
    objects it creates.  What the runtime leaves open is the sorting
    procedure; any two results that keep the promise of a stable sort are
    the same list, so that two runs return the same ordered ranking. *)
Theorem calculateRanking_deterministic (historyData : list HistoryItem)
        (sorted1 sorted2 : list RepoInfo) :
  stableSortOf (map snd (aggregate historyData)) sorted1 ->
  stableSortOf (map snd (aggregate historyData)) sorted2 ->
  sorted1 = sorted2 /\
  firstn config.maxItems sorted1 = calculateRanking historyData /\
  firstn config.maxItems sorted2 = calculateRanking historyData.
Proof.
  assert (U : forall l l1 l2, stableSortOf l l1 -> stableSortOf l l2 -> l1 = l2).
  { intros l l1 l2 (_ & S1 & F1) (_ & S2 & F2).
    apply sorted_stable_unique with (cmp := compareFn).
    - intros a b. unfold tied. apply andb_comm.
    - intros a. unfold tied, compareFn. rewrite Nat.eqb_refl. simpl.
      rewrite Z.sub_diag. reflexivity.
    - eapply StronglySorted_impl; [| exact S1].
      intros a b. apply compareFn_ranksBefore.
    - eapply StronglySorted_impl; [| exact S2].
      intros a b. apply compareFn_ranksBefore.
    - intros a. rewrite !(filter_ext _ _ (compareFn_tied a)).
      rewrite F1, F2. reflexivity. }
  intros H1 H2.
  pose proof (sortWith_stableSortOf (map snd (aggregate historyData))) as H0.
  rewrite (U _ _ _ H1 H0), (U _ _ _ H2 H0).
  repeat split; reflexivity.
Qed.

Lemma calculateRanking_deterministic_witness :
  let sorted := map snd (aggregate [day2; day1]) in
  sorted = sorted /\
  firstn config.maxItems sorted = calculateRanking [day2; day1] /\
  firstn config.maxItems sorted = calculateRanking [day2; day1].
Proof.
  assert (H : stableSortOf (map snd (aggregate [day2; day1]))
                           (map snd (aggregate [day2; day1]))).
  { split; [apply Permutation_refl |].
    split; [| reflexivity].
    vm_compute aggregate. simpl.
    repeat constructor. }
  exact (calculateRanking_deterministic [day2; day1] H H).
Defined.

(** ** Runs of the reader *)

Lemma withConsole_nil (w : World) : withConsole (console w ++ []) w = w.
Proof. destruct w. unfold withConsole. simpl. rewrite app_nil_r. reflexivity. Qed.

Lemma readFiles_run (files : list (jstring * FileBody)) (sel : list jstring) :
  forall (acc : list HistoryItem) (w : World),
    dataDir w = Dir files ->
    readFiles sel acc w
    = (Returned (acc ++ flat_map (loadOne files) sel),
       withConsole (console w ++ flat_map (complainOne files) sel) w).
Proof.
  induction sel as [|file rest IH]; intros acc w Hd; simpl.
  - rewrite app_nil_r, withConsole_nil. reflexivity.
  - unfold bind at 1. unfold tryCatch, bind at 1, readJsonFile.
    rewrite Hd. unfold loadOne at 1, complainOne at 1.
    destruct (lookupFile files file) as [[|v]|]; simpl.
    + rewrite IH by exact Hd. simpl. rewrite <- app_assoc. reflexivity.
    + rewrite IH by exact Hd. rewrite <- app_assoc. reflexivity.
    + rewrite IH by exact Hd. simpl. rewrite <- app_assoc. reflexivity.
Qed.

Lemma recentFilesOf_nil (now days : Z) (listing : list jstring) :
  filter isTrendingFile listing = [] -> recentFilesOf now days listing = [].
Proof. unfold recentFilesOf. intros ->. reflexivity. Qed.

Lemma readHistoryData_run (days : Z) (w : World)
      (files : list (jstring * FileBody)) :
  dataDir w = Dir files ->
  readHistoryData days w
  = (Returned (flat_map (loadOne files)
                        (recentFilesOf (clock w (ticks w)) days (map fst files))),
     afterRead days files w).
Proof.
  intros Hd. unfold readHistoryData, afterRead.
  unfold bind at 1, existsSyncDataDir. rewrite Hd. simpl.
  unfold tryCatch, bind at 1, readdirSync. rewrite Hd.
  destruct (filter isTrendingFile (map fst files)) as [|f fs] eqn:F.
  - simpl. rewrite recentFilesOf_nil by exact F. reflexivity.
  - simpl. unfold bind at 1, newDate.
    rewrite readFiles_run with (files := files) by exact Hd.
    unfold recentFilesOf. rewrite F. reflexivity.
Qed.

Lemma readHistoryData_noDir (days : Z) (w : World) :
  dataDir w = NoDir ->
  readHistoryData days w
  = (Returned [], withConsole (console w ++ [WarnNoDataDir]) w).
Proof.
  intros Hd. unfold readHistoryData, bind at 1, existsSyncDataDir.
  rewrite Hd. reflexivity.
Qed.

Lemma readHistoryData_unreadable (days : Z) (w : World) :
  dataDir w = DirUnreadable ->
  readHistoryData days w
  = (Returned [], withConsole (console w ++ [ErrorHistory]) w).
Proof.
  intros Hd. unfold readHistoryData, bind at 1, existsSyncDataDir.
  rewrite Hd. simpl. unfold tryCatch, bind at 1, readdirSync.
  rewrite Hd. reflexivity.
Qed.

(** ** The files the reader keeps *)

Lemma defaultCompare_jleb (a b : jstring) :
  cmpLe defaultCompare a b <-> jleb a b = true.
Proof.
  unfold cmpLe, defaultCompare.
  destruct (jleb b a) eqn:Eba, (jleb a b) eqn:Eab; simpl;
    try (split; [reflexivity | lia]); try (split; [lia | discriminate]).
  destruct (jleb_total a b); congruence.
Qed.

Lemma defaultCompare_total (a b : jstring) :
  cmpLe defaultCompare a b \/ cmpLe defaultCompare b a.
Proof. rewrite !defaultCompare_jleb. apply jleb_total. Qed.

Lemma defaultCompare_trans (a b c : jstring) :
  cmpLe defaultCompare a b -> cmpLe defaultCompare b c ->
  cmpLe defaultCompare a c.
Proof. rewrite !defaultCompare_jleb. apply jleb_trans. Qed.

Lemma filter_filter (A : Type) (p q : A -> bool) (l : list A) :
  filter p (filter q l) = filter (fun x => q x && p x) l.
Proof.
  induction l as [|x l IH]; simpl; auto.
  destruct (q x); simpl; [destruct (p x) |]; congruence.
Qed.

Lemma recentFilesOf_perm (now days : Z) (listing : list jstring) :
  Permutation (recentFilesOf now days listing)
              (filter (keptFile now days) listing).
Proof.
  unfold recentFilesOf. rewrite <- Permutation_rev.
  rewrite <- sortWith_perm. rewrite filter_filter. reflexivity.
Qed.

Lemma recentFilesOf_In (now days : Z) (listing : list jstring) (f : jstring) :
  In f (recentFilesOf now days listing)
  <-> In f listing /\ keptFile now days f = true.
Proof.
  rewrite <- filter_In. split; apply Permutation_in;
    [| symmetry]; apply recentFilesOf_perm.
Qed.

Lemma StronglySorted_snoc (A : Type) (R : A -> A -> Prop) (l : list A) (x : A) :
  StronglySorted R l -> Forall (fun y => R y x) l ->
  StronglySorted R (l ++ [x]).
Proof.
  induction 1 as [|y l Hs IH Hy]; intros Hx; simpl.
  - repeat constructor.
  - inversion Hx; subst. constructor; [apply IH; assumption |].
    apply Forall_app. split; [assumption | repeat constructor; assumption].
Qed.

Lemma StronglySorted_rev (A : Type) (R : A -> A -> Prop) (l : list A) :
  StronglySorted R l -> StronglySorted (fun a b => R b a) (rev l).
Proof.
  induction 1 as [|x l Hs IH Hx]; simpl; [constructor |].
  apply StronglySorted_snoc; [exact IH |].
  apply Forall_rev. exact Hx.
Qed.

(** The reader takes the files in descending order of their names. *)
Lemma recentFilesOf_sorted (now days : Z) (listing : list jstring) :
  StronglySorted (fun a b => jleb b a = true) (recentFilesOf now days listing).
Proof.
  unfold recentFilesOf.
  apply StronglySorted_rev with (R := fun a b => jleb a b = true).
  apply StronglySorted_impl with (R := cmpLe defaultCompare).
  - intros a b. apply defaultCompare_jleb.
  - apply sortWith_sorted; [apply defaultCompare_total | apply defaultCompare_trans].
Qed.

Lemma isRecent_inv (now cutoff : Z) (f : jstring) :
  isRecent now cutoff f = true <->
  exists d t, fileMatch f = Some d /\ parseDate d = Some t /\
              (cutoff <= t <= now)%Z.
Proof.
  unfold isRecent. split.
  - destruct (fileMatch f) as [d|]; [| discriminate].
    destruct (parseDate d) as [t|] eqn:P; [| discriminate].
    intros H. apply andb_true_iff in H. rewrite !Z.leb_le in H.
    exists d, t. split; [reflexivity |]. split; [exact P | exact H].
  - intros (d & t & -> & -> & H). apply andb_true_iff.
    rewrite !Z.leb_le. exact H.
Qed.

Lemma loadOne_In (files : list (jstring * FileBody)) (f : jstring)
      (x : HistoryItem) :
  In x (loadOne files f) <->
  exists v, lookupFile files f = Some (Parsed v) /\ x = mkHistory (dayKey f) v.
Proof.
  unfold loadOne. destruct (lookupFile files f) as [[|v]|]; simpl.
  - split; [tauto | intros (v & H & _); discriminate].
  - split.
    + intros [<- | []]. exists v. auto.
    + intros (v' & H & ->). inversion H. auto.
  - split; [tauto | intros (v & H & _); discriminate].
Qed.

Lemma loadOne_length (files : list (jstring * FileBody)) (f : jstring) :
  length (loadOne files f) = if readable files f then 1 else 0.
Proof.
  unfold loadOne, readable. destruct (lookupFile files f) as [[|v]|]; reflexivity.
Qed.

Lemma flat_map_loadOne_length (files : list (jstring * FileBody))
      (sel : list jstring) :
  length (flat_map (loadOne files) sel) = length (filter (readable files) sel).
Proof.
  induction sel as [|f sel IH]; simpl; auto.
  rewrite length_app, loadOne_length, IH.
  destruct (readable files f); reflexivity.
Qed.

Lemma filter_perm (A : Type) (p : A -> bool) (l l' : list A) :
  Permutation l l' -> Permutation (filter p l) (filter p l').
Proof.
  induction 1; simpl; auto.
  - destruct (p x); auto.
  - destruct (p x), (p y); auto. apply perm_swap.
  - etransitivity; eauto.
Qed.

(** Day keys have ten units. *)
Lemma dateShape_length (d : jstring) : dateShape d = true -> length d = 10.
Proof.
  unfold dateShape.
  do 11 (destruct d as [|? d]; try discriminate). reflexivity.
Qed.

Lemma matchHere_shape (s d : jstring) :
  matchHere s = Some d -> dateShape d = true.
Proof.
  unfold matchHere.
  match goal with
  | |- (if ?c then _ else _) = _ -> _ => destruct c eqn:E; [| discriminate]
  end.
  intros H. inversion H; subst.
  apply andb_true_iff in E. destruct E as [E _].
  apply andb_true_iff in E. destruct E as [_ E]. exact E.
Qed.

Lemma fileMatch_shape (s d : jstring) :
  fileMatch s = Some d -> dateShape d = true.
Proof.
  induction s as [|c s IH].
  - vm_compute. discriminate.
  - change (fileMatch (c :: s))
      with (match matchHere (c :: s) with
            | Some d => Some d
            | None => fileMatch s
            end).
    destruct (matchHere (c :: s)) eqn:E.
    + intros H. inversion H; subst. eapply matchHere_shape; eauto.
    + exact IH.
Qed.

Lemma jleb_app_l (p a b : jstring) : jleb (p ++ a) (p ++ b) = jleb a b.
Proof.
  induction p as [|x p IH]; simpl; auto.
  rewrite N.ltb_irrefl. exact IH.
Qed.

Lemma jleb_app_r (a b e : jstring) :
  length a = length b -> jleb (a ++ e) (b ++ e) = true -> jleb a b = true.
Proof.
  revert b; induction a as [|x a IH]; intros [|y b]; simpl; try discriminate; auto.
  intros L. destruct (x <? y)%N; auto. destruct (y <? x)%N; auto.
Qed.

Lemma conventional_order (f1 f2 d1 d2 : jstring) :
  conventional f1 -> conventional f2 ->
  fileMatch f1 = Some d1 -> fileMatch f2 = Some d2 ->
  jleb f2 f1 = true -> jleb d2 d1 = true.
Proof.
  intros C1 C2 M1 M2. rewrite (C1 _ M1), (C2 _ M2), jleb_app_l.
  apply jleb_app_r.
  rewrite (dateShape_length _ (fileMatch_shape _ M1)).
  rewrite (dateShape_length _ (fileMatch_shape _ M2)). reflexivity.
Qed.

Lemma loaded_newestFirst (files : list (jstring * FileBody))
      (sel : list jstring) :
  StronglySorted (fun a b => jleb b a = true) sel ->
  (forall f, In f sel -> conventional f /\ exists d, fileMatch f = Some d) ->
  StronglySorted newestFirst (flat_map (loadOne files) sel).
Proof.
  induction 1 as [|a l Hs IH Ha]; intros Hc; simpl; [constructor |].
  assert (IH' : StronglySorted newestFirst (flat_map (loadOne files) l)).
  { apply IH. intros f Hf. apply Hc. right. exact Hf. }
  destruct (loadOne files a) as [|x [|? ?]] eqn:L; simpl; auto.
  - constructor; auto.
    apply Forall_forall. intros y Hy. apply in_flat_map in Hy.
    destruct Hy as (b & Hb & Hy). apply loadOne_In in Hy.
    destruct Hy as (v & _ & ->).
    assert (Hx : In x (loadOne files a)) by (rewrite L; left; reflexivity).
    apply loadOne_In in Hx. destruct Hx as (va & _ & ->).
    unfold newestFirst. simpl.
    destruct (Hc a (or_introl eq_refl)) as (Ca & da & Ma).
    destruct (Hc b (or_intror Hb)) as (Cb & db & Mb).
    unfold dayKey. rewrite Ma, Mb.
    rewrite Forall_forall in Ha.
    apply (conventional_order Ca Cb Ma Mb). apply Ha. exact Hb.
  - exfalso. pose proof (loadOne_length files a) as E. rewrite L in E.
    simpl in E. destruct (readable files a); discriminate.
Qed.

(** The name filter: the prefix at the head and the extension at the
    end. *)
Lemma isTrendingFile_iff (file : jstring) :
  isTrendingFile file = true <->
  (exists x, file = config.trendingPrefix ++ x) /\
  (exists y, file = y ++ config.trendingExt).
Proof.
  unfold isTrendingFile.
  rewrite andb_true_iff, startsWith_iff, endsWith_iff. reflexivity.
Qed.

Lemma matchHere_holds (s d : jstring) :
  matchHere s = Some d ->
  exists b, s = config.trendingPrefix ++ d ++ config.trendingExt ++ b.
Proof.
  unfold matchHere.
  destruct (startsWith s (s2j "trending_")) eqn:P; [| discriminate].
  apply startsWith_iff in P. destruct P as [r ->].
  change (skipn 9 (s2j "trending_" ++ r)) with r.
  destruct (dateShape (firstn 10 r)) eqn:D; [| discriminate].
  destruct (startsWith (skipn 10 r) (s2j ".json")) eqn:E; [| discriminate].
  cbn [andb]. intros H.
  assert (Hd : firstn 10 r = d) by congruence. clear H.
  apply startsWith_iff in E. destruct E as [b E].
  exists b. unfold config.trendingPrefix, config.trendingExt.
  rewrite <- Hd, <- E, firstn_skipn. reflexivity.
Qed.

(** A name the expression matches holds the prefix, the day key and the
    extension in a row. *)
Lemma fileMatch_holds (file day : jstring) :
  fileMatch file = Some day ->
  exists a b,
    file = a ++ config.trendingPrefix ++ day ++ config.trendingExt ++ b.
Proof.
  induction file as [|c s IH].
  - vm_compute. discriminate.
  - change (fileMatch (c :: s))
      with (match matchHere (c :: s) with
            | Some d => Some d
            | None => fileMatch s
            end).
    destruct (matchHere (c :: s)) eqn:E.
    + intros H. inversion H; subst.
      destruct (matchHere_holds _ E) as [b Hb].
      exists [], b. exact Hb.
    + intros H. destruct (IH H) as (a & b & ->).
      exists (c :: a), b. reflexivity.
Qed.

(** ** The calendar *)

Local Open Scope Z_scope.

(** The part of [daysFromCivil] that depends on the year alone. *)
Lemma daysFromCivil_year (y m d : Z) :
  daysFromCivil y m d
  = (let y' := if m <=? 2 then y - 1 else y in
     y' / 400 * 146097 + (y' - y' / 400 * 400) * 365
     + (y' - y' / 400 * 400) / 4 - (y' - y' / 400 * 400) / 100)
    + ((153 * ((m + 9) mod 12) + 2) / 5 + d - 1) - 719468.
Proof. unfold daysFromCivil. cbv zeta. lia. Qed.

Lemma year_step (y : Z) :
  y / 400 * 146097 + (y - y / 400 * 400) * 365
  + (y - y / 400 * 400) / 4 - (y - y / 400 * 400) / 100
  = (y - 1) / 400 * 146097 + (y - 1 - (y - 1) / 400 * 400) * 365
    + (y - 1 - (y - 1) / 400 * 400) / 4 - (y - 1 - (y - 1) / 400 * 400) / 100
    + yearLength y.
Proof.
  unfold yearLength, leapYear.
  destruct (Z.eqb_spec (y mod 4) 0), (Z.eqb_spec (y mod 100) 0),
    (Z.eqb_spec (y mod 400) 0); cbn [andb orb negb];
    Z.div_mod_to_equations; lia.
Qed.

Lemma daysFromCivil_next_year (y : Z) :
  daysFromCivil (y + 1) 1 1 = daysFromCivil y 1 1 + yearLength y.
Proof.
  rewrite !daysFromCivil_year. cbv zeta.
  change (1 <=? 2) with true. cbv iota.
  replace (y + 1 - 1) with y by lia.
  rewrite (year_step y). lia.
Qed.

Lemma daysFromCivil_january (y : nat) :
  daysFromCivil (Z.of_nat y) 1 1 = daysBeforeYear y - daysBeforeYear 1970.
Proof.
  assert (B : daysBeforeYear 1970 = 719528) by (vm_compute; reflexivity).
  rewrite B. induction y as [|y IH].
  - vm_compute. reflexivity.
  - rewrite Nat2Z.inj_succ. unfold Z.succ.
    rewrite daysFromCivil_next_year, IH.
    cbn [daysBeforeYear]. lia.
Qed.

Ltac month_case :=
  match goal with
  | |- context [Z.of_nat ?m] =>
    let v := eval vm_compute in (Z.of_nat m) in change (Z.of_nat m) with v
  end;
  match goal with
  | |- context [?a <=? 2] =>
    let v := eval vm_compute in (a <=? 2) in change (a <=? 2) with v
  end;
  match goal with
  | |- context [(153 * ((?a + 9) mod 12) + 2) / 5] =>
    let v := eval vm_compute in ((153 * ((a + 9) mod 12) + 2) / 5) in
    change ((153 * ((a + 9) mod 12) + 2) / 5) with v
  end;
  match goal with
  | |- context [daysBeforeMonth ?b ?m] =>
    let v := eval vm_compute in (daysBeforeMonth b m) in
    change (daysBeforeMonth b m) with v
  end;
  cbv iota.

Lemma daysFromCivil_month (y : Z) (m : nat) (d : Z) :
  (1 <= m <= 12)%nat ->
  daysFromCivil y (Z.of_nat m) d
  = daysFromCivil y 1 1 + daysBeforeMonth (leapYear y) m + d - 1.
Proof.
  intros Hm.
  rewrite (daysFromCivil_year y 1 1). cbv zeta.
  change (1 <=? 2) with true.
  change ((153 * ((1 + 9) mod 12) + 2) / 5) with 306.
  cbv iota.
  rewrite daysFromCivil_year. cbv zeta.
  pose proof (year_step y) as Y. unfold yearLength in Y.
  assert (C : (m = 1 \/ m = 2 \/ m = 3 \/ m = 4 \/ m = 5 \/ m = 6 \/ m = 7
               \/ m = 8 \/ m = 9 \/ m = 10 \/ m = 11 \/ m = 12)%nat) by lia.
  clear Hm.
  destruct (leapYear y);
    repeat (destruct C as [-> | C]; [month_case; lia |]);
    subst m; month_case; lia.
Qed.

Lemma daysFromCivil_epochDay (y m d : Z) :
  0 <= y -> 1 <= m <= 12 -> daysFromCivil y m d = epochDay y m d.
Proof.
  intros Hy Hm. unfold epochDay.
  rewrite <- (Z2Nat.id m) at 1 by lia.
  rewrite daysFromCivil_month by lia.
  rewrite <- (Z2Nat.id y) at 1 by lia.
  rewrite daysFromCivil_january. reflexivity.
Qed.

Lemma dig_digit (c : N) : isDigit c = true -> 0 <= dig c <= 9.
Proof.
  unfold isDigit, dig. rewrite andb_true_iff, !N.leb_le. lia.
Qed.

(** The reader's date of a day key is the start of the day the calendar
    counts. *)
Lemma parseDate_calendar (key : jstring) :
  dateShape key = true ->
  parseDate key = if validDay key then Some (midnight key) else None.
Proof.
  intros H. unfold dateShape in H.
  destruct key as [|y1 [|y2 [|y3 [|y4 [|h1 [|m1 [|m2 [|h2 [|d1 [|d2 [|x key]]]]]]]]]]];
    try discriminate.
  repeat (apply andb_true_iff in H; destruct H as [H ?]).
  unfold validDay, midnight, yearOf, monthOf, dayOf, digitsValue.
  cbn [firstn skipn fold_left parseDate].
  fold (dig y1) (dig y2) (dig y3) (dig y4) (dig m1) (dig m2) (dig d1) (dig d2).
  replace ((((0 * 10 + dig y1) * 10 + dig y2) * 10 + dig y3) * 10 + dig y4)
    with (dig y1 * 1000 + dig y2 * 100 + dig y3 * 10 + dig y4) by lia.
  replace ((0 * 10 + dig m1) * 10 + dig m2) with (dig m1 * 10 + dig m2) by lia.
  replace ((0 * 10 + dig d1) * 10 + dig d2) with (dig d1 * 10 + dig d2) by lia.
  destruct ((1 <=? dig m1 * 10 + dig m2) && (dig m1 * 10 + dig m2 <=? 12)
            && (1 <=? dig d1 * 10 + dig d2) && (dig d1 * 10 + dig d2 <=? 31))
    eqn:V; [| reflexivity].
  repeat (apply andb_true_iff in V; destruct V as [V ?]).
  rewrite Z.leb_le in *.
  assert (D1 : 0 <= dig y1 <= 9)
    by (apply dig_digit; unfold isDigit; rewrite H; assumption).
  assert (D2 : 0 <= dig y2 <= 9) by (apply dig_digit; assumption).
  assert (D3 : 0 <= dig y3 <= 9) by (apply dig_digit; assumption).
  assert (D4 : 0 <= dig y4 <= 9) by (apply dig_digit; assumption).
  rewrite daysFromCivil_epochDay; [reflexivity | lia | lia].
Qed.

Local Close Scope Z_scope.


(** ** The window of the reader *)

Lemma isRecent_calendar (now cutoff : Z) (file : jstring) :
  isRecent now cutoff file
  = match fileMatch file with
    | Some day =>
      validDay day
      && ((cutoff <=? midnight day)%Z && (midnight day <=? now)%Z)
    | None => false
    end.
Proof.
  unfold isRecent. destruct (fileMatch file) as [day|] eqn:M; [| reflexivity].
  rewrite (parseDate_calendar _ (fileMatch_shape _ M)).
  destruct (validDay day); reflexivity.
Qed.

Lemma keptFile_inWindow (now days : Z) (file : jstring) :
  keptFile now days file = inWindow now days file.
Proof. unfold keptFile, inWindow. rewrite isRecent_calendar. reflexivity. Qed.

(** A file named by the convention passes the name filter, and its day
    key is the one in its name. *)
Lemma conventional_name (day : jstring) :
  dateShape day = true ->
  isTrendingFile (config.trendingPrefix ++ day ++ config.trendingExt) = true /\
  fileMatch (config.trendingPrefix ++ day ++ config.trendingExt) = Some day.
Proof.
  intros H. pose proof H as S. unfold dateShape in S.
  destruct day as [|y1 [|y2 [|y3 [|y4 [|h1 [|m1 [|m2 [|h2 [|d1 [|d2 [|x day]]]]]]]]]]];
    try discriminate.
  clear S. split.
  - vm_compute. reflexivity.
  - change (config.trendingPrefix ++ [y1; y2; y3; y4; h1; m1; m2; h2; d1; d2]
            ++ config.trendingExt)
      with ([116; 114; 101; 110; 100; 105; 110; 103; 95; y1; y2; y3; y4; h1;
             m1; m2; h2; d1; d2; 46; 106; 115; 111; 110]%N).
    cbn [fileMatch]. unfold matchHere.
    change (s2j "trending_") with [116; 114; 101; 110; 100; 105; 110; 103; 95]%N.
    change (s2j ".json") with [46; 106; 115; 111; 110]%N.
    cbn [skipn firstn]. rewrite H.
    vm_compute. reflexivity.
Qed.

(** C8, as amended.  A data directory that does not exist gives the empty
    sequence, and a warning, not an exception.  On an existing directory
    the reader returns one item for each file of the listing that passes
    the name filter, whose name holds [trending_<day>.json] for a day
    with a month from 1 to 12 and a day of the month from 1 to 31 that
    starts, in UTC, within the [days] times 24 hours before [now] (both
    ends included), and whose content parses; and nothing else.  The
    name filter asks for the prefix at the head of the name and the
    extension at its end; the day is one that the name holds between the
    prefix and the extension.  The start of a day is counted by the
    calendar: years of 365 days, 366 in leap years, and the months with
    their lengths.  The items follow the descending order of the file
    names.  That is newest first by day key when the files that pass the
    name filter are named by the convention [trending_<day>.json], which
    the name filter does not ask for. *)
Theorem readHistoryData_window (days : Z) (w : World) :
  (dataDir w = NoDir ->
   readHistoryData days w
   = (Returned [], withConsole (console w ++ [WarnNoDataDir]) w)) /\
  (forall files, dataDir w = Dir files ->
   let now := clock w (ticks w) in
   exists items w',
     readHistoryData days w = (Returned items, w') /\
     (forall date data,
        In (mkHistory date data) items <->
        exists file,
          In file (map fst files) /\
          isTrendingFile file = true /\
          fileMatch file = Some date /\
          validDay date = true /\
          (now - days * msPerDay <= midnight date <= now)%Z /\
          lookupFile files file = Some (Parsed data)) /\
     length items
     = length (filter (fun f => inWindow now days f && readable files f)
                      (map fst files)) /\
     (exists recentFiles,
        Permutation recentFiles (filter (inWindow now days) (map fst files)) /\
        StronglySorted (fun a b => jleb b a = true) recentFiles /\
        items = flat_map (loadOne files) recentFiles) /\
     ((forall file, In file (map fst files) -> isTrendingFile file = true ->
                    conventional file) ->
      StronglySorted newestFirst items)) /\
  (forall day, dateShape day = true ->
     isTrendingFile (config.trendingPrefix ++ day ++ config.trendingExt) = true /\
     fileMatch (config.trendingPrefix ++ day ++ config.trendingExt) = Some day /\
     parseDate day = if validDay day then Some (midnight day) else None) /\
  (forall file,
     isTrendingFile file = true <->
     (exists x, file = config.trendingPrefix ++ x) /\
     (exists y, file = y ++ config.trendingExt)) /\
  (forall file day,
     fileMatch file = Some day ->
     dateShape day = true /\
     exists a b,
       file = a ++ config.trendingPrefix ++ day ++ config.trendingExt ++ b).
Proof.
  split; [apply readHistoryData_noDir |].
  split; [| split; [| split]].
  2:{ intros day H. destruct (conventional_name _ H) as [H1 H2].
      split; [exact H1 |]. split; [exact H2 |].
      apply parseDate_calendar. exact H. }
  2:{ intros file. apply isTrendingFile_iff. }
  2:{ intros file day H. split; [exact (fileMatch_shape _ H) |].
      apply fileMatch_holds. exact H. }
  intros files Hd now.
  eexists _, _. split; [apply readHistoryData_run; exact Hd |].
  fold now. split; [| split; [| split]].
  - intros date data. rewrite in_flat_map. split.
    + intros (f & Hf & Hx). apply recentFilesOf_In in Hf.
      destruct Hf as (Hin & Hk). apply loadOne_In in Hx.
      destruct Hx as (v & Hl & Hx). inversion Hx; subst.
      rewrite keptFile_inWindow in Hk. unfold inWindow in Hk.
      apply andb_true_iff in Hk. destruct Hk as (Ht & Hr).
      unfold dayKey.
      destruct (fileMatch f) as [day|] eqn:Hm; [| discriminate].
      apply andb_true_iff in Hr. destruct Hr as (Hv & Hb).
      apply andb_true_iff in Hb. rewrite !Z.leb_le in Hb.
      exists f. auto 10.
    + intros (f & Hin & Ht & Hm & Hv & Hb & Hl).
      exists f. split.
      * apply recentFilesOf_In. split; [exact Hin |].
        rewrite keptFile_inWindow. unfold inWindow.
        rewrite Ht, Hm, Hv. cbn [andb]. apply andb_true_iff.
        rewrite !Z.leb_le. exact Hb.
      * apply loadOne_In. exists data. unfold dayKey. rewrite Hm. auto.
  - rewrite flat_map_loadOne_length.
    rewrite <- filter_filter.
    rewrite <- (filter_ext _ _ (keptFile_inWindow now days)).
    apply Permutation_length.
    apply filter_perm. apply recentFilesOf_perm.
  - exists (recentFilesOf now days (map fst files)).
    rewrite <- (filter_ext _ _ (keptFile_inWindow now days)).
    split; [apply recentFilesOf_perm |].
    split; [apply recentFilesOf_sorted | reflexivity].
  - intros Hc. apply loaded_newestFirst; [apply recentFilesOf_sorted |].
    intros f Hf. apply recentFilesOf_In in Hf. destruct Hf as (Hin & Hk).
    unfold keptFile in Hk. apply andb_true_iff in Hk. destruct Hk as (Ht & Hr).
    split; [apply Hc; assumption |].
    apply isRecent_inv in Hr. destruct Hr as (d & _ & Hm & _). eauto.
Qed.

(** At noon of 2026-02-22 the reader, asked for seven days, returns the
    two snapshots of the example, the newer one first. *)
Lemma readHistoryData_window_witness :
  readHistoryData 7 (withDataDir NoDir exampleWorld)
  = (Returned [],
     withConsole [WarnNoDataDir] (withDataDir NoDir exampleWorld)) /\
  exists items w',
    readHistoryData 7 exampleWorld = (Returned items, w') /\
    In day2 items /\ In day1 items /\ length items = 2 /\
    StronglySorted newestFirst items.
Proof.
  split.
  - exact (proj1 (readHistoryData_window 7 (withDataDir NoDir exampleWorld))
                 eq_refl).
  - destruct (proj1 (proj2 (readHistoryData_window 7 exampleWorld))
                exampleFiles eq_refl)
      as (items & w' & Hr & Hin & Hlen & _ & Hs).
    exists items, w'. split; [exact Hr |].
    split; [| split; [| split]].
    + apply Hin. exists (s2j "trending_2026-02-22.json").
      split; [right; left; reflexivity |].
      split; [reflexivity |]. split; [reflexivity |].
      split; [reflexivity |].
      split; [split; apply Z.leb_le; vm_compute; reflexivity | reflexivity].
    + apply Hin. exists (s2j "trending_2026-02-21.json").
      split; [left; reflexivity |].
      split; [reflexivity |]. split; [reflexivity |].
      split; [reflexivity |].
      split; [split; apply Z.leb_le; vm_compute; reflexivity | reflexivity].
    + rewrite Hlen. vm_compute. reflexivity.
    + apply Hs. intros file [<- | [<- | []]] _ d H;
        vm_compute in H; inversion H; subst; reflexivity.
Defined.

(** C8, as stated, fails: of two files that pass the filters of the
    reader, the one carrying the older day is returned first when its
    name, which is not the conventional one, is the greater. *)
Lemma older_snapshot_first :
  dataDir strayWorld = Dir strayFiles /\
  fst (readHistoryData 7 strayWorld)
  = Returned [mkHistory (s2j "2026-02-20") (h_data day2);
              mkHistory (s2j "2026-02-21") (h_data day1)] /\
  ~ newestFirst (mkHistory (s2j "2026-02-20") (h_data day2))
                (mkHistory (s2j "2026-02-21") (h_data day1)).
Proof.
  split; [reflexivity |]. split; [vm_compute; reflexivity |].
  unfold newestFirst. vm_compute. discriminate.
Qed.

(** ** A file that does not parse *)

Lemma lookupFile_other (before after : list (jstring * FileBody))
      (bad f : jstring) (body : FileBody) :
  f <> bad ->
  lookupFile (before ++ (bad, body) :: after) f = lookupFile (before ++ after) f.
Proof.
  intros Hne. induction before as [|[k b] l IH]; simpl.
  - destruct (jeqb bad f) eqn:E; auto. apply jeqb_eq in E. congruence.
  - rewrite IH. reflexivity.
Qed.

Lemma lookupFile_bad (before after : list (jstring * FileBody))
      (bad : jstring) (body : FileBody) :
  ~ In bad (map fst (before ++ after)) ->
  lookupFile (before ++ (bad, body) :: after) bad = Some body.
Proof.
  intros H. induction before as [|[k b] l IH]; simpl in *.
  - rewrite jeqb_refl. reflexivity.
  - destruct (jeqb k bad) eqn:E.
    + apply jeqb_eq in E. tauto.
    + apply IH. tauto.
Qed.

Lemma filter_absent (bad : jstring) (l : list jstring) :
  ~ In bad l -> filter (fun f => negb (jeqb f bad)) l = l.
Proof.
  induction l as [|x l IH]; simpl; auto.
  intros H. destruct (jeqb x bad) eqn:E; simpl.
  - apply jeqb_eq in E. tauto.
  - rewrite IH by tauto. reflexivity.
Qed.

Lemma listing_without (before after : list (jstring * FileBody))
      (bad : jstring) (body : FileBody) :
  ~ In bad (map fst (before ++ after)) ->
  filter (fun f => negb (jeqb f bad))
         (map fst (before ++ (bad, body) :: after))
  = map fst (before ++ after).
Proof.
  intros H. rewrite !map_app in *. simpl. rewrite filter_app. simpl.
  rewrite jeqb_refl. simpl. rewrite <- filter_app.
  apply filter_absent. exact H.
Qed.

Lemma filter_comm (A : Type) (p q : A -> bool) (l : list A) :
  filter p (filter q l) = filter q (filter p l).
Proof.
  rewrite !filter_filter. apply filter_ext. intros a. apply andb_comm.
Qed.

Lemma recentFilesOf_filter (now days : Z) (p : jstring -> bool)
      (listing : list jstring) :
  filter p (recentFilesOf now days listing)
  = recentFilesOf now days (filter p listing).
Proof.
  unfold recentFilesOf. rewrite filter_rev. f_equal.
  rewrite sortWith_filter
    by (apply defaultCompare_total || apply defaultCompare_trans).
  f_equal. rewrite filter_comm. f_equal. apply filter_comm.
Qed.

Lemma flat_map_skip (A B : Type) (g : A -> list B) (p : A -> bool)
      (l : list A) :
  (forall x, In x l -> p x = false -> g x = []) ->
  flat_map g l = flat_map g (filter p l).
Proof.
  induction l as [|x l IH]; intros H; simpl; auto.
  destruct (p x) eqn:E; simpl.
  - rewrite IH; auto. intros y Hy. apply H. right. exact Hy.
  - rewrite (H x) by (auto; left; reflexivity). simpl.
    apply IH. intros y Hy. apply H. right. exact Hy.
Qed.

Lemma flat_map_agree (A B : Type) (g g' : A -> list B) (l : list A) :
  (forall x, In x l -> g x = g' x) -> flat_map g l = flat_map g' l.
Proof.
  induction l as [|x l IH]; intros H; simpl; auto.
  rewrite (H x) by (left; reflexivity). rewrite IH; auto.
  intros y Hy. apply H. right. exact Hy.
Qed.

(** Reading with and without a file that contributes nothing. *)
Lemma without_bad (now days : Z) (g g' : jstring -> list HistoryItem)
      (before after : list (jstring * FileBody)) (bad : jstring)
      (body : FileBody) :
  ~ In bad (map fst (before ++ after)) ->
  g bad = [] ->
  (forall f, f <> bad -> g f = g' f) ->
  flat_map g (recentFilesOf now days (map fst (before ++ (bad, body) :: after)))
  = flat_map g' (recentFilesOf now days (map fst (before ++ after))).
Proof.
  intros Hnin Hbad Hag.
  rewrite (flat_map_skip g (fun f => negb (jeqb f bad))).
  - rewrite recentFilesOf_filter, listing_without by exact Hnin.
    apply flat_map_agree. intros f Hf. apply Hag.
    apply recentFilesOf_In in Hf. destruct Hf as [Hf _]. congruence.
  - intros f _ Hf. apply negb_false_iff, jeqb_eq in Hf. subst. exact Hbad.
Qed.

(** The aggregator passes over what is not an array. *)
Lemma aggregate_arrays (l : list HistoryItem) :
  aggregate l = aggregate (filter isArrayItem l).
Proof.
  unfold aggregate. generalize (@nil (jstring * RepoInfo)).
  induction l as [|h l IH]; intros m; simpl; auto.
  unfold isArrayItem at 1. unfold visitDay at 2.
  destruct (h_data h) eqn:E; simpl.
  - apply IH.
  - rewrite IH. unfold visitDay at 3. rewrite E. reflexivity.
Qed.

Lemma filter_flat_map (A B : Type) (p : B -> bool) (g : A -> list B)
      (l : list A) :
  filter p (flat_map g l) = flat_map (fun x => filter p (g x)) l.
Proof.
  induction l as [|x l IH]; simpl; auto.
  rewrite filter_app, IH. reflexivity.
Qed.

(** C7.  A snapshot file whose content does not parse (or parses to
    something that is not an array) changes nothing in the ranking: the
    reader returns and the ranking computed from what it returns is the one
    computed without the file.  For content that does not parse the history
    itself is the same, and when the file is one the reader keeps, the
    console has the error line for it. *)
Theorem corrupt_file_skipped (days : Z) (w : World)
        (before after : list (jstring * FileBody)) (bad : jstring)
        (body : FileBody) :
  dataDir w = Dir (before ++ (bad, body) :: after) ->
  ~ In bad (map fst (before ++ after)) ->
  body = Unparsable \/ body = Parsed NotArray ->
  exists items items' w1 w1',
    readHistoryData days w = (Returned items, w1) /\
    readHistoryData days (withDataDir (Dir (before ++ after)) w)
    = (Returned items', w1') /\
    calculateRanking items = calculateRanking items' /\
    (body = Unparsable ->
     items = items' /\
     (keptFile (clock w (ticks w)) days bad = true ->
      In (ErrorHistoryFile bad) (console w1))).
Proof.
  intros Hd Hnin Hbody.
  eexists _, _, _, _.
  split; [apply readHistoryData_run; exact Hd |].
  split; [apply readHistoryData_run; reflexivity |].
  simpl clock. simpl ticks.
  set (now := clock w (ticks w)).
  set (files := before ++ (bad, body) :: after) in *.
  set (files' := before ++ after) in *.
  assert (Hl : lookupFile files bad = Some body)
    by (apply lookupFile_bad; exact Hnin).
  split; [| intros ->; split].
  - unfold calculateRanking.
    rewrite (aggregate_arrays (flat_map (loadOne files) _)).
    rewrite (aggregate_arrays (flat_map (loadOne files') _)).
    rewrite !filter_flat_map.
    rewrite (@without_bad now days _
               (fun f => filter isArrayItem (loadOne files' f))
               before after bad body Hnin); [reflexivity | |].
    + unfold loadOne. rewrite Hl.
      destruct Hbody as [-> | ->]; reflexivity.
    + intros f Hf. unfold loadOne, files, files'.
      rewrite lookupFile_other by exact Hf. reflexivity.
  - apply without_bad; [exact Hnin | |].
    + unfold loadOne. rewrite Hl. reflexivity.
    + intros f Hf. unfold loadOne, files, files'.
      rewrite lookupFile_other by exact Hf. reflexivity.
  - intros Hk. unfold afterRead.
    assert (Hsel : In bad (recentFilesOf now days (map fst files))).
    { apply recentFilesOf_In. split; [| exact Hk].
      unfold files. rewrite map_app. apply in_or_app. right. left. reflexivity. }
    destruct (filter isTrendingFile (map fst files)) eqn:F.
    + rewrite recentFilesOf_nil in Hsel by exact F. destruct Hsel.
    + simpl. apply in_or_app. right. apply in_flat_map.
      exists bad. split; [exact Hsel |].
      unfold complainOne. rewrite Hl. left. reflexivity.
Qed.

Lemma corrupt_file_skipped_witness :
  let bad := s2j "trending_2026-02-20.json" in
  let w := withDataDir
             (Dir ([(s2j "trending_2026-02-21.json", Parsed (h_data day1))]
                   ++ (bad, Unparsable)
                   :: [(s2j "trending_2026-02-22.json", Parsed (h_data day2))]))
             exampleWorld in
  exists items items' w1 w1',
    readHistoryData 7 w = (Returned items, w1) /\
    readHistoryData 7 exampleWorld = (Returned items', w1') /\
    calculateRanking items = calculateRanking items' /\
    (Unparsable = Unparsable ->
     items = items' /\
     (keptFile (clock w (ticks w)) 7 bad = true ->
      In (ErrorHistoryFile bad) (console w1))).
Proof.
  intros bad w.
  apply (@corrupt_file_skipped 7 w
           [(s2j "trending_2026-02-21.json", Parsed (h_data day1))]
           [(s2j "trending_2026-02-22.json", Parsed (h_data day2))]
           bad Unparsable).
  - reflexivity.
  - vm_compute. intuition discriminate.
  - left. reflexivity.
Defined.

(** ** Runs of the resolver *)

Lemma truthy_nonempty (s : jstring) : truthy s = true <-> s <> [].
Proof. destruct s; simpl; split; congruence. Qed.

Lemma simpleTranslate_cases (text : jstring) :
  text <> [] ->
  simpleTranslate text
  = if (length text <? 100) && negb (jeqb (keywordPass text) text)
    then keywordPass text
    else if 20 <? length text then marker ++ text else text.
Proof.
  intros Hne. unfold simpleTranslate, keywordPass.
  destruct text as [|c t]; [congruence |]. cbv [truthy negb].
  destruct (length (c :: t) <? 100) eqn:L; cbv [andb negb].
  - destruct (jeqb _ (c :: t)) eqn:E; [| reflexivity].
    apply jeqb_eq in E. rewrite E.
    destruct (20 <? length (c :: t)); reflexivity.
  - rewrite jeqb_refl. destruct (20 <? length (c :: t)); reflexivity.
Qed.

Lemma marker_changes (text : jstring) : marker ++ text <> text.
Proof.
  intros H. apply (f_equal (@length N)) in H. rewrite length_app in H.
  change (length marker) with 3 in H. lia.
Qed.

(** [simpleTranslate] leaves a text as it is only when the text has at most
    twenty units: the branch of [translateWithCache] that stores the marked
    text cannot be reached. *)
Lemma simpleTranslate_fixed (text : jstring) :
  simpleTranslate text = text -> length text <= 20.
Proof.
  destruct text as [|c t]; [simpl; lia |].
  rewrite simpleTranslate_cases by discriminate.
  destruct ((length (c :: t) <? 100) && negb (jeqb (keywordPass (c :: t)) (c :: t)))
    eqn:C.
  - apply andb_true_iff in C. destruct C as [_ C].
    apply negb_true_iff, jeqb_neq in C. congruence.
  - destruct (Nat.ltb_spec 20 (length (c :: t))) as [Hlt | Hge]; [| lia].
    intros Hm. apply marker_changes in Hm. destruct Hm.
Qed.

Lemma objTruthy_truthy (d : Dict) (k : jstring) (v : JsValue) :
  objTruthy d k = Some v -> jsTruthy v = true.
Proof.
  unfold objTruthy. destruct (objGet d k) as [x|]; [| discriminate].
  destruct (jsTruthy x) eqn:E; [| discriminate].
  intros H. inversion H. subst. exact E.
Qed.

Lemma curatedHit_truthy (summaries : Dict) (n : jstring) (v : JsValue) :
  curatedHit summaries n = Some v -> jsTruthy v = true.
Proof.
  unfold curatedHit.
  destruct (objTruthy summaries (toLowerCase n)) eqn:E.
  - intros H. inversion H. subst. eapply objTruthy_truthy; eauto.
  - destruct (1 <? length (split 47 n)); [| discriminate].
    apply objTruthy_truthy.
Qed.

Lemma jsIs_true (v : JsValue) (s : jstring) : jsIs v s = true <-> v = Str s.
Proof.
  destruct v as [t|q]; simpl.
  - rewrite jeqb_eq. split; congruence.
  - split; discriminate.
Qed.

Lemma jsIs_false (v : JsValue) (s : jstring) : jsIs v s = false <-> v <> Str s.
Proof.
  rewrite <- jsIs_true. destruct (jsIs v s); split; congruence.
Qed.

Lemma getChineseSummary_run (projectName originalDesc : jstring) (w : World) :
  getChineseSummary projectName originalDesc w
  = (Returned
       match curatedHit (projectSummariesCache w) projectName with
       | Some summary => summary
       | None =>
         Str (if truthy originalDesc
                 && negb (jeqb (simpleTranslate originalDesc) originalDesc)
              then simpleTranslate originalDesc
              else if truthy originalDesc then originalDesc
                   else noDescription)
       end, w).
Proof.
  unfold getChineseSummary, curatedHit, bind, getWorld, ret.
  destruct (objTruthy (projectSummariesCache w) (toLowerCase projectName));
    [reflexivity |].
  destruct (if 1 <? length (split 47 projectName) then _ else None);
    [reflexivity |].
  destruct (truthy originalDesc && _); reflexivity.
Qed.

(** Without a curated summary the display resolver gives the text of
    [simpleTranslate], or the placeholder for an empty description. *)
Lemma getChineseSummary_plain (projectName originalDesc : jstring) (w : World) :
  curatedHit (projectSummariesCache w) projectName = None ->
  getChineseSummary projectName originalDesc w
  = (Returned (Str (if truthy originalDesc then simpleTranslate originalDesc
                    else noDescription)), w).
Proof.
  intros Hc. rewrite getChineseSummary_run, Hc.
  destruct (truthy originalDesc); [| reflexivity]. simpl.
  destruct (jeqb (simpleTranslate originalDesc) originalDesc) eqn:E;
    [| reflexivity].
  apply jeqb_eq in E. rewrite E. reflexivity.
Qed.

Lemma translateWithCache_hit (projectName text cached : jstring) (w : World) :
  text <> [] ->
  dictTruthy (translationCache w) (toLowerCase projectName) = Some cached ->
  translateWithCache projectName text w = (Returned (Some cached), w).
Proof.
  intros Ht Hc. unfold translateWithCache.
  apply truthy_nonempty in Ht. rewrite Ht. simpl.
  unfold bind, getWorld. rewrite Hc. reflexivity.
Qed.

Lemma translateWithCache_miss_fixed (projectName text : jstring) (w : World) :
  text <> [] ->
  dictTruthy (translationCache w) (toLowerCase projectName) = None ->
  simpleTranslate text = text ->
  translateWithCache projectName text w
  = (Returned None,
     if openaiConfigured w
     then withDispatched (dispatched w ++ [(toLowerCase projectName, text)]) w
     else w).
Proof.
  intros Ht Hc Hs. unfold translateWithCache.
  pose proof (simpleTranslate_fixed Hs) as Hlen.
  apply truthy_nonempty in Ht. rewrite Ht. simpl.
  unfold bind at 1. unfold getWorld at 1. rewrite Hc, Hs, jeqb_refl. simpl.
  destruct (Nat.ltb_spec 20 (length text)); [lia |].
  unfold bind, ret, getWorld, dispatchOpenAI, modify.
  destruct (openaiConfigured w); reflexivity.
Qed.

Lemma translateWithCache_miss_changed (projectName text : jstring) (w : World) :
  text <> [] ->
  dictTruthy (translationCache w) (toLowerCase projectName) = None ->
  simpleTranslate text <> text ->
  translateWithCache projectName text w
  = (Returned (Some (simpleTranslate text)),
     withTranslationCache
       (dictSet (translationCache w) (toLowerCase projectName)
                (simpleTranslate text)) w).
Proof.
  intros Ht Hc Hs. unfold translateWithCache.
  apply truthy_nonempty in Ht. rewrite Ht. simpl.
  unfold bind at 1. unfold getWorld at 1. rewrite Hc.
  apply jeqb_neq in Hs. rewrite Hs. reflexivity.
Qed.

Lemma bind_run (A B : Type) (m : M A) (k : A -> M B) (w w1 : World) (a : A) :
  m w = (Returned a, w1) -> bind m k w = k a w1.
Proof. intros H. unfold bind. rewrite H. reflexivity. Qed.
Arguments bind_run {A B m} k {w w1 a} _.

Lemma startsWith_app (r x : jstring) : startsWith (r ++ x) r = true.
Proof.
  induction r as [|c r IH]; simpl; [destruct x; reflexivity |].
  rewrite N.eqb_refl. exact IH.
Qed.

Lemma includes_tail (c : N) (t r : jstring) :
  includes (c :: t) r = false -> includes t r = false.
Proof.
  simpl. intros H. apply orb_false_iff in H. tauto.
Qed.

Lemma includes_head (t r : jstring) :
  includes t r = false -> startsWith t r = false.
Proof.
  destruct t; simpl; intros H; apply orb_false_iff in H; tauto.
Qed.

(** A text that does not have the replacement in it came out of
    [replace] unchanged. *)
Lemma replaceFrom_avoids (p r : jstring) (s t : jstring) :
  includes t r = false -> replaceFrom p r 0 s = t -> s = t.
Proof.
  revert t. induction s as [|c s IH]; intros t Hi; [simpl; auto |].
  change (replaceFrom p r 0 (c :: s))
    with (if matchesAt (c :: s) p
          then r ++ replaceFrom p r (length p - 1) s
          else c :: replaceFrom p r 0 s).
  destruct (matchesAt (c :: s) p).
  - intros H. subst t. apply includes_head in Hi.
    rewrite startsWith_app in Hi. discriminate.
  - intros H. destruct t as [|c' t]; [discriminate |].
    inversion H; subst. f_equal. apply IH; auto.
    eapply includes_tail; eauto.
Qed.

Lemma keywordPass_avoids (table : list (jstring * jstring))
      (lowerText text t : jstring) :
  forallb (fun e => negb (includes t (snd e))) table = true ->
  fold_left (substitute lowerText) table text = t -> text = t.
Proof.
  revert text. induction table as [|[eng chi] l IH]; intros text Hf; simpl; auto.
  simpl in Hf. apply andb_true_iff in Hf. destruct Hf as [H1 H2].
  intros H. apply IH in H; [| exact H2].
  destruct (includes lowerText eng); auto.
  apply negb_true_iff in H1.
  eapply replaceFrom_avoids; eauto.
Qed.

Lemma simpleTranslate_proper (d : jstring) :
  d <> [] -> simpleTranslate d <> d ->
  simpleTranslate d <> [] /\ simpleTranslate d <> noDescription.
Proof.
  intros Hd. rewrite simpleTranslate_cases by exact Hd.
  destruct ((length d <? 100) && negb (jeqb (keywordPass d) d)) eqn:C.
  - apply andb_true_iff in C. destruct C as [_ C].
    apply negb_true_iff, jeqb_neq in C.
    intros _. unfold keywordPass in *. split; intros H.
    + apply Hd. revert H. apply keywordPass_avoids.
      vm_compute. reflexivity.
    + apply C. rewrite H. symmetry. revert H. apply keywordPass_avoids.
      vm_compute. reflexivity.
  - destruct (20 <? length d); [| congruence].
    intros _. split; intros H; vm_compute in H; discriminate.
Qed.

Lemma getChineseSummary_truthy (n d : jstring) (w w' : World) (v : JsValue) :
  getChineseSummary n d w = (Returned v, w') -> jsTruthy v = true /\ w' = w.
Proof.
  rewrite getChineseSummary_run. intros H.
  assert (Hw : w' = w) by (inversion H; reflexivity).
  split; [| exact Hw].
  assert (Hv : v = match curatedHit (projectSummariesCache w) n with
                   | Some summary => summary
                   | None =>
                     Str (if truthy d && negb (jeqb (simpleTranslate d) d)
                          then simpleTranslate d
                          else if truthy d then d else noDescription)
                   end) by (inversion H; reflexivity).
  clear H. subst v.
  destruct (curatedHit (projectSummariesCache w) n) as [x|] eqn:Hc.
  - exact (curatedHit_truthy _ _ Hc).
  - destruct d as [|c t]; [reflexivity |].
    destruct (jeqb (simpleTranslate (c :: t)) (c :: t)) eqn:E;
      cbn [truthy negb andb jsTruthy]; [reflexivity |].
    apply jeqb_neq in E.
    assert (Hd : c :: t <> []) by discriminate.
    destruct (simpleTranslate_proper Hd E) as [P _].
    apply truthy_nonempty. exact P.
Qed.

Lemma getDetailedDescription_summary (it : RepoInfo) (w : World) (v : JsValue) :
  getChineseSummary (name it) (description it) w = (Returned v, w) ->
  v <> Str (description it) -> v <> Str noDescription ->
  getDetailedDescription it w = (Returned v, w).
Proof.
  intros Hs H2 H3. unfold getDetailedDescription.
  rewrite (bind_run _ Hs).
  destruct (getChineseSummary_truthy _ _ _ Hs) as [H1 _].
  apply jsIs_false in H2, H3.
  rewrite H1, H2, H3. reflexivity.
Qed.

Lemma getDetailedDescription_through (it : RepoInfo) (w : World) (v : JsValue) :
  getChineseSummary (name it) (description it) w = (Returned v, w) ->
  v = Str (description it) \/ v = Str noDescription ->
  getDetailedDescription it w
  = bind (if truthy (description it)
          then translateWithCache (name it) (description it)
          else ret None)
         (fun translated =>
            match translated with
            | Some (c :: t) => ret (Str (c :: t))
            | _ => ret (Str (if truthy (description it) then description it
                             else noDescription))
            end) w.
Proof.
  intros Hs H. unfold getDetailedDescription.
  rewrite (bind_run _ Hs).
  assert (T : jsTruthy v && negb (jsIs v (description it))
              && negb (jsIs v noDescription) = false).
  { destruct H as [-> | ->]; unfold jsIs; rewrite jeqb_refl; cbn [negb];
      rewrite ?andb_false_r; reflexivity. }
  rewrite T. reflexivity.
Qed.

Lemma dictTruthy_nonempty (d : Dict) (k v : jstring) :
  dictTruthy d k = Some v -> exists c t, v = c :: t.
Proof.
  unfold dictTruthy. destruct (dictGet d k) as [[|c t]|]; try discriminate.
  intros H. inversion H. eauto.
Qed.

Lemma split_nonempty (sep : N) (s : jstring) : split sep s <> [].
Proof.
  induction s as [|c s IH]; simpl; [discriminate |].
  destruct (c =? sep)%N; [discriminate |].
  destruct (split sep s); discriminate.
Qed.

Lemma split_noSlash (s : jstring) : noSlash s = true -> split 47 s = [s].
Proof.
  induction s as [|c s IH]; simpl; [reflexivity |].
  intros H. apply andb_true_iff in H. destruct H as [Hc Hs].
  apply negb_true_iff in Hc. rewrite Hc, (IH Hs). reflexivity.
Qed.

(** The parts of a name with a slash: more than one, and the last is what
    follows the last slash. *)
Lemma split_last (owner short : jstring) :
  noSlash short = true ->
  1 < length (split 47 (owner ++ 47%N :: short)) /\
  lastPart (split 47 (owner ++ 47%N :: short)) = short.
Proof.
  intros Hs. unfold lastPart.
  induction owner as [|c owner [IH1 IH2]].
  - simpl. rewrite (split_noSlash _ Hs). simpl. split; [lia | reflexivity].
  - change (split 47 ((c :: owner) ++ 47%N :: short))
      with (if (c =? 47)%N then [] :: split 47 (owner ++ 47%N :: short)
            else match split 47 (owner ++ 47%N :: short) with
                 | w :: ws => (c :: w) :: ws
                 | [] => [[c]]
                 end).
    destruct (split 47 (owner ++ 47%N :: short)) as [|p [|q ps]];
      simpl in IH1; try lia.
    destruct (c =? 47)%N; simpl; simpl in IH2; (split; [lia | exact IH2]).
Qed.

Lemma toLowerCase_app (a b : jstring) :
  toLowerCase (a ++ b) = toLowerCase a ++ toLowerCase b.
Proof. apply map_app. Qed.

(** A key with a slash is not a name of [Object.prototype]. *)
Lemma plainKey_slash (owner short : jstring) :
  plainKey (toLowerCase (owner ++ 47%N :: short)) = true.
Proof.
  unfold plainKey. apply negb_true_iff.
  destruct (existsb _ prototypeNames) eqn:E; [| reflexivity]. exfalso.
  apply existsb_exists in E. destruct E as (p & Hin & He).
  apply jeqb_eq in He.
  assert (Hs : In 47%N p).
  { rewrite <- He, toLowerCase_app. apply in_or_app. right. left. reflexivity. }
  assert (A : forallb noSlash prototypeNames = true) by (vm_compute; reflexivity).
  rewrite forallb_forall in A. specialize (A p Hin).
  unfold noSlash in A. rewrite forallb_forall in A.
  specialize (A 47%N Hs). discriminate.
Qed.

Lemma objTruthy_own (d : Dict) (k v : jstring) :
  k <> s2j "__proto__" -> dictGet d k = Some v -> v <> [] ->
  objTruthy d k = Some (Str v).
Proof.
  intros Hk Hd Hv. unfold objTruthy, objGet.
  apply jeqb_neq in Hk. rewrite Hk, Hd.
  destruct v; [contradiction | reflexivity].
Qed.

Lemma plainKey_proto (k : jstring) :
  plainKey k = true -> k <> s2j "__proto__".
Proof.
  intros H E. subst k. vm_compute in H. discriminate.
Qed.

Lemma objTruthy_none (d : Dict) (k : jstring) :
  plainKey k = true -> dictGet d k = None -> objTruthy d k = None.
Proof.
  intros Hk Hd. unfold objTruthy, objGet.
  pose proof (@plainKey_proto k Hk) as Hp. apply jeqb_neq in Hp.
  rewrite Hp, Hd. unfold plainKey in Hk. apply negb_true_iff in Hk.
  rewrite Hk. reflexivity.
Qed.

Lemma objTruthy_inherited (d : Dict) (k : jstring) :
  In k prototypeNames -> dictGet d k = None ->
  objTruthy d k = Some (Inherited k).
Proof.
  intros Hin Hd. unfold objTruthy, objGet.
  destruct (jeqb k (s2j "__proto__")); [reflexivity |].
  rewrite Hd.
  assert (E : existsb (jeqb k) prototypeNames = true).
  { apply existsb_exists. exists k. split; [exact Hin | apply jeqb_refl]. }
  rewrite E. reflexivity.
Qed.

Lemma objTruthy_empty (d : Dict) (k : jstring) :
  k <> s2j "__proto__" -> dictGet d k = Some [] -> objTruthy d k = None.
Proof.
  intros Hk Hd. unfold objTruthy, objGet.
  apply jeqb_neq in Hk. rewrite Hk, Hd. reflexivity.
Qed.

(** C2, as amended.  The curated summary of a name is what the object of
    summaries holds, as a truthy value, under the lower-cased name or else,
    for a name with a slash, under the lower-cased part after the last
    slash.  The object is a plain one: under a key it holds a text of its
    own, when it has one that is not empty; or, having no text of its own
    there, what every object inherits under a name of
    [Object.prototype], [constructor] being one; or nothing.  The display
    resolver returns the curated summary when there is one; without one
    it returns the text [simpleTranslate] makes of a description that is
    not empty (keyword substitution for a description under 100 units that
    it changes, otherwise the marker before a description over 20 units,
    otherwise the description as it is) and the placeholder for an empty
    description; it never reads the translation cache.  The detail resolver returns what the display
    resolver returns whenever that is neither the raw description nor the
    placeholder, whatever the translation cache holds: a value inherited
    from [Object.prototype] too, and, without a curated summary, every
    text [simpleTranslate] changed.  Only when the display resolver
    returns the raw description or the placeholder (a curated summary that
    repeats one of them, or no curated summary and a description that
    [simpleTranslate] leaves as it is or that is empty) does the detail
    resolver go to the translation cache, for a description that is not
    empty.  Under a lower-cased name that is no name of
    [Object.prototype], as every name with a slash is, it returns the
    cached value; else the text of [simpleTranslate] when that differs
    from the description, and stores it in the cache; else the raw
    description, storing nothing.  For an empty description it returns
    the placeholder. *)
Theorem resolution_priority (w : World) (it : RepoInfo) :
  let n := name it in
  let d := description it in
  let summaries := projectSummariesCache w in
  let curated := curatedHit summaries n in
  let cached := dictTruthy (translationCache w) (toLowerCase n) in
  let display := getChineseSummary n d w in
  let detail := getDetailedDescription it w in
  (forall owner short,
     n = owner ++ 47%N :: short -> noSlash short = true ->
     curated = match objTruthy summaries (toLowerCase n) with
               | Some v => Some v
               | None => objTruthy summaries (toLowerCase short)
               end /\
     plainKey (toLowerCase n) = true) /\
  (noSlash n = true -> curated = objTruthy summaries (toLowerCase n)) /\
  (forall k v, k <> s2j "__proto__" -> dictGet summaries k = Some v ->
     objTruthy summaries k = if truthy v then Some (Str v) else None) /\
  (forall k, In k prototypeNames -> dictGet summaries k = None ->
     objTruthy summaries k = Some (Inherited k)) /\
  (forall k, plainKey k = true -> dictGet summaries k = None ->
     objTruthy summaries k = None) /\
  In (s2j "constructor") prototypeNames /\
  (forall v, curated = Some v -> display = (Returned v, w)) /\
  (curated = None -> d <> [] ->
   display = (Returned (Str (simpleTranslate d)), w)) /\
  (curated = None -> d = [] -> display = (Returned (Str noDescription), w)) /\
  (d <> [] ->
     simpleTranslate d
     = if (length d <? 100) && negb (jeqb (keywordPass d) d)
       then keywordPass d
       else if 20 <? length d then marker ++ d else d) /\
  (forall v, display = (Returned v, w) ->
     v <> Str d -> v <> Str noDescription -> detail = (Returned v, w)) /\
  (forall p, curated = Some (Inherited p) ->
     detail = (Returned (Inherited p), w)) /\
  (curated = None -> d <> [] -> simpleTranslate d <> d ->
   detail = (Returned (Str (simpleTranslate d)), w)) /\
  (forall v, display = (Returned v, w) ->
     v = Str d \/ v = Str noDescription ->
     (d = [] -> detail = (Returned (Str noDescription), w)) /\
     (d <> [] -> plainKey (toLowerCase n) = true ->
      (forall c, cached = Some c -> detail = (Returned (Str c), w)) /\
      (cached = None -> simpleTranslate d <> d ->
       detail
       = (Returned (Str (simpleTranslate d)),
          withTranslationCache
            (dictSet (translationCache w) (toLowerCase n) (simpleTranslate d))
            w)) /\
      (cached = None -> simpleTranslate d = d ->
       exists w', detail = (Returned (Str d), w') /\
                  translationCache w' = translationCache w))).
Proof.
  intros n d summaries curated cached display detail.
  assert (P4 : curated = None -> d <> [] ->
               display = (Returned (Str (simpleTranslate d)), w)).
  { intros Hc Hd. unfold display.
    rewrite (getChineseSummary_plain n d w Hc).
    apply truthy_nonempty in Hd. rewrite Hd. reflexivity. }
  assert (P7 : forall v, display = (Returned v, w) ->
                 v <> Str d -> v <> Str noDescription ->
                 detail = (Returned v, w)).
  { intros v Hv H1 H2. apply getDetailedDescription_summary; assumption. }
  assert (P3 : forall v, curated = Some v -> display = (Returned v, w)).
  { intros v Hc. unfold display. rewrite getChineseSummary_run.
    fold summaries. fold curated. rewrite Hc. reflexivity. }
  split; [| split; [| split; [| split; [| split; [| split; [| split; [| split;
    [| split; [| split; [| split; [| split; [| split]]]]]]]]]]]].
  - intros owner short Hn Hs. split.
    + unfold curated, curatedHit.
      destruct (objTruthy summaries (toLowerCase n)); [reflexivity |].
      rewrite Hn. destruct (split_last owner short Hs) as [L1 L2].
      apply Nat.ltb_lt in L1. rewrite L1, L2. reflexivity.
    + rewrite Hn. apply plainKey_slash.
  - intros Hs. unfold curated, curatedHit.
    destruct (objTruthy summaries (toLowerCase n)); [reflexivity |].
    rewrite (split_noSlash _ Hs). reflexivity.
  - intros k v Hk Hd. destruct v as [|c t].
    + apply objTruthy_empty; assumption.
    + apply objTruthy_own; [assumption | assumption | discriminate].
  - intros k. apply objTruthy_inherited.
  - intros k. apply objTruthy_none.
  - vm_compute. tauto.
  - exact P3.
  - exact P4.
  - intros Hc Hd. unfold display.
    rewrite (getChineseSummary_plain n d w Hc), Hd. reflexivity.
  - apply simpleTranslate_cases.
  - exact P7.
  - intros p Hc. apply P7; [apply P3; exact Hc | discriminate | discriminate].
  - intros Hc Hd Hs. apply P7; [apply P4; assumption | |].
    + intros E. inversion E. contradiction.
    + intros E. inversion E as [E'].
      destruct (simpleTranslate_proper Hd Hs) as [_ Q]. contradiction.
  - intros v Hv Hor.
    pose proof (getDetailedDescription_through it Hv Hor) as T.
    fold d n detail in T. split.
    + intros Hd. rewrite T, Hd. reflexivity.
    + intros Hd _.
      pose proof Hd as Ht. apply truthy_nonempty in Ht. rewrite Ht in T.
      split; [| split].
      * intros c Hh.
        rewrite T, (bind_run _ (@translateWithCache_hit n d c w Hd Hh)).
        apply dictTruthy_nonempty in Hh. destruct Hh as (x & t & ->).
        reflexivity.
      * intros Hm Hs.
        rewrite T, (bind_run _ (@translateWithCache_miss_changed n d w Hd Hm Hs)).
        destruct (simpleTranslate_proper Hd Hs) as [Q _].
        destruct (simpleTranslate d) as [|x t]; [contradiction |].
        reflexivity.
      * intros Hm Hs.
        rewrite T, (bind_run _ (@translateWithCache_miss_fixed n d w Hd Hm Hs)).
        eexists. split; [reflexivity |].
        destruct (openaiConfigured w); reflexivity.
Qed.

(** C2, as stated, fails: with no curated summary and an entry for the name
    in the translation cache, a description that matches keywords is shown
    with the keywords substituted by both resolvers, not with the cached
    value. *)
Lemma cache_does_not_win :
  curatedHit (projectSummariesCache cachedWorld) (name keywordItem) = None /\
  dictTruthy (translationCache cachedWorld) (toLowerCase (name keywordItem))
  = Some (s2j "cached text") /\
  getChineseSummary (name keywordItem) (description keywordItem) cachedWorld
  = (Returned (Str (s2j "快速 工具")), cachedWorld) /\
  getDetailedDescription keywordItem cachedWorld
  = (Returned (Str (s2j "快速 工具")), cachedWorld) /\
  s2j "快速 工具" <> s2j "cached text".
Proof.
  repeat split; try (vm_compute; reflexivity).
  vm_compute. discriminate.
Qed.

(** In [echoWorld] the curated summary of [a/x] repeats the raw
    description: the display resolver returns it, and the detail resolver
    returns the entry of the translation cache. *)
Lemma resolution_priority_witness :
  getChineseSummary (name keywordItem) (description keywordItem) echoWorld
  = (Returned (Str (description keywordItem)), echoWorld) /\
  getDetailedDescription keywordItem echoWorld
  = (Returned (Str (s2j "cached text")), echoWorld).
Proof.
  pose proof (resolution_priority echoWorld keywordItem) as H.
  cbv zeta in H.
  destruct H as (_ & _ & _ & _ & _ & _ & H3 & _ & _ & _ & _ & _ & _ & H10).
  assert (D : getChineseSummary (name keywordItem) (description keywordItem)
                echoWorld
              = (Returned (Str (description keywordItem)), echoWorld)).
  { apply H3. vm_compute. reflexivity. }
  split; [exact D |].
  destruct (H10 _ D (or_introl eq_refl)) as [_ Hc].
  destruct Hc as [Hc _]; [discriminate | vm_compute; reflexivity |].
  apply Hc. vm_compute. reflexivity.
Defined.

(** A name that ends in [constructor]: without any curated summary, both
    resolvers return the function every object inherits under that name,
    not a text. *)
Lemma inherited_summary :
  projectSummariesCache exampleWorld = [] /\
  getChineseSummary (name constructorItem) (description constructorItem)
                    exampleWorld
  = (Returned (Inherited (s2j "constructor")), exampleWorld) /\
  getDetailedDescription constructorItem exampleWorld
  = (Returned (Inherited (s2j "constructor")), exampleWorld).
Proof.
  repeat split; vm_compute; reflexivity.
Qed.

(** ** The keyword pass *)

Lemma matchesAt_prefix (p m rest : jstring) :
  toLowerCase m = toLowerCase p -> matchesAt (m ++ rest) p = true.
Proof.
  revert m. induction p as [|x p IH]; intros m H.
  - destruct (m ++ rest); reflexivity.
  - destruct m as [|y m]; [discriminate |].
    simpl in H. inversion H as [[H1 H2]].
    simpl. rewrite H1, N.eqb_refl. simpl. apply IH. exact H2.
Qed.

Lemma matchesAt_split (s p : jstring) :
  matchesAt s p = true ->
  exists m rest, s = m ++ rest /\ toLowerCase m = toLowerCase p.
Proof.
  revert s. induction p as [|x p IH]; intros s H.
  - exists [], s. split; reflexivity.
  - destruct s as [|y s]; [discriminate |].
    simpl in H. apply andb_true_iff in H. destruct H as [H1 H2].
    apply N.eqb_eq in H1.
    destruct (IH s H2) as (m & rest & -> & Hm).
    exists (y :: m), rest. split; [reflexivity |].
    simpl. rewrite Hm, H1. reflexivity.
Qed.

Lemma replaceFrom_skip (p r x rest : jstring) :
  replaceFrom p r (length x) (x ++ rest) = replaceFrom p r 0 rest.
Proof.
  induction x as [|c x IH]; [reflexivity |]. simpl. exact IH.
Qed.

Lemma replaceFrom_step (p r : jstring) (c : N) (s : jstring) :
  replaceFrom p r 0 (c :: s)
  = if matchesAt (c :: s) p
    then r ++ replaceFrom p r (length p - 1) s
    else c :: replaceFrom p r 0 s.
Proof. reflexivity. Qed.

(** An occurrence at the head, in any case of letters, is replaced, and
    the scan goes on behind it. *)
Lemma replaceAllCI_head (p r m rest : jstring) :
  p <> [] -> toLowerCase m = toLowerCase p ->
  replaceAllCI p r (m ++ rest) = r ++ replaceAllCI p r rest.
Proof.
  intros Hp Hm. unfold replaceAllCI.
  assert (L : length m = length p).
  { apply (f_equal (@length N)) in Hm. unfold toLowerCase in Hm.
    rewrite !length_map in Hm. exact Hm. }
  destruct m as [|c m].
  - destruct p; [contradiction | discriminate].
  - change ((c :: m) ++ rest) with (c :: (m ++ rest)).
    rewrite replaceFrom_step.
    change (c :: (m ++ rest)) with ((c :: m) ++ rest).
    rewrite (matchesAt_prefix p (c :: m) rest Hm).
    simpl in L. rewrite <- L.
    replace (S (length m) - 1) with (length m) by lia.
    rewrite replaceFrom_skip. reflexivity.
Qed.

(** Where no occurrence starts, the unit is kept. *)
Lemma replaceAllCI_keep (p r : jstring) (c : N) (rest : jstring) :
  (forall m rest', c :: rest = m ++ rest' -> toLowerCase m <> toLowerCase p) ->
  replaceAllCI p r (c :: rest) = c :: replaceAllCI p r rest.
Proof.
  intros H. unfold replaceAllCI. rewrite replaceFrom_step.
  destruct (matchesAt (c :: rest) p) eqn:E; [| reflexivity].
  apply matchesAt_split in E. destruct E as (m & rest' & E1 & E2).
  destruct (H m rest' E1 E2).
Qed.

(** C9, as amended.  Without a curated summary the display resolver
    returns: the placeholder for an empty description; the result of the
    keyword pass for a description under 100 units that the pass changes;
    the marker followed by the description when nothing changed and the
    description has more than 20 units; the description as it is
    otherwise.  The keyword pass goes through the table in its order; a
    source term counts as found when the lower-cased description has it as
    a substring, and for each term found the text rewritten so far is
    scanned from the left: where a run of units equal to the term up to
    the case of letters starts, the run is replaced by the display term
    and the scan goes on behind the run; where no such run starts, the
    unit is kept.  When no term is found the pass changes nothing. *)
Theorem display_without_curated (w : World) (projectName originalDesc : jstring) :
  curatedHit (projectSummariesCache w) projectName = None ->
  exists shown,
    getChineseSummary projectName originalDesc w = (Returned (Str shown), w) /\
    (originalDesc = [] -> shown = noDescription) /\
    (originalDesc <> [] -> length originalDesc < 100 ->
     keywordPass originalDesc <> originalDesc ->
     shown = keywordPass originalDesc) /\
    (originalDesc <> [] ->
     100 <= length originalDesc \/ keywordPass originalDesc = originalDesc ->
     20 < length originalDesc ->
     shown = marker ++ originalDesc) /\
    (originalDesc <> [] -> keywordPass originalDesc = originalDesc ->
     length originalDesc <= 20 ->
     shown = originalDesc) /\
    keywordPass originalDesc
    = fold_left
        (fun text entry =>
           if includes (toLowerCase originalDesc) (fst entry)
           then replaceAllCI (fst entry) (snd entry) text
           else text)
        keywordMap originalDesc /\
    (forall term,
       includes (toLowerCase originalDesc) term = true <->
       exists a b, toLowerCase originalDesc = a ++ term ++ b) /\
    (forall term display, replaceAllCI term display [] = []) /\
    (forall term display run rest,
       term <> [] -> toLowerCase run = toLowerCase term ->
       replaceAllCI term display (run ++ rest)
       = display ++ replaceAllCI term display rest) /\
    (forall term display c rest,
       (forall run rest', c :: rest = run ++ rest' ->
                          toLowerCase run <> toLowerCase term) ->
       replaceAllCI term display (c :: rest)
       = c :: replaceAllCI term display rest) /\
    ((forall entry, In entry keywordMap ->
                    includes (toLowerCase originalDesc) (fst entry) = false) ->
     keywordPass originalDesc = originalDesc).
Proof.
  intros Hc.
  exists (if truthy originalDesc then simpleTranslate originalDesc
          else noDescription).
  split; [apply getChineseSummary_plain; exact Hc |].
  assert (F : forall table text,
             fold_left (substitute (toLowerCase originalDesc)) table text
             = fold_left
                 (fun text entry =>
                    if includes (toLowerCase originalDesc) (fst entry)
                    then replaceAllCI (fst entry) (snd entry) text
                    else text) table text).
  { induction table as [|[eng chi] l IH]; intros text; simpl; auto. }
  assert (S : originalDesc <> [] ->
              (if truthy originalDesc then simpleTranslate originalDesc
               else noDescription)
              = simpleTranslate originalDesc).
  { intros Hd. apply truthy_nonempty in Hd. rewrite Hd. reflexivity. }
  split; [intros ->; reflexivity |].
  split; [| split; [| split; [| split; [| split; [| split; [| split;
    [| split]]]]]]].
  - intros Hd Hl Hk. rewrite S, simpleTranslate_cases by exact Hd.
    apply Nat.ltb_lt in Hl. apply jeqb_neq in Hk.
    rewrite Hl, Hk. reflexivity.
  - intros Hd Hk Hl. rewrite S, simpleTranslate_cases by exact Hd.
    apply Nat.ltb_lt in Hl.
    assert (C : (length originalDesc <? 100)
                && negb (jeqb (keywordPass originalDesc) originalDesc) = false).
    { destruct Hk as [Hk | Hk].
      - apply Nat.ltb_ge in Hk. rewrite Hk. reflexivity.
      - rewrite Hk, jeqb_refl. apply andb_false_r. }
    rewrite C, Hl. reflexivity.
  - intros Hd Hk Hl. rewrite S, simpleTranslate_cases by exact Hd.
    rewrite Hk, jeqb_refl. cbn [negb]. rewrite andb_false_r.
    apply Nat.ltb_ge in Hl. rewrite Hl. reflexivity.
  - apply F.
  - intros term. apply includes_iff.
  - reflexivity.
  - intros term display run rest. apply replaceAllCI_head.
  - intros term display c rest. apply replaceAllCI_keep.
  - intros Hn. unfold keywordPass.
    assert (G : forall table text,
               (forall entry, In entry table ->
                  includes (toLowerCase originalDesc) (fst entry) = false) ->
               fold_left (substitute (toLowerCase originalDesc)) table text = text).
    { induction table as [|[eng chi] l IH]; intros text Ht; simpl; auto.
      pose proof (Ht (eng, chi) (or_introl eq_refl)) as Hi. simpl in Hi.
      rewrite Hi. apply IH. intros e He. apply Ht. right. exact He. }
    apply G. exact Hn.
Qed.

(** On [A Fast TOOL] the two terms are replaced whatever the case of
    their letters. *)
Lemma display_without_curated_witness :
  exists shown,
    getChineseSummary (s2j "a/x") (s2j "A Fast TOOL") exampleWorld
    = (Returned (Str shown), exampleWorld) /\
    shown = s2j "A 快速 工具".
Proof.
  destruct (@display_without_curated exampleWorld (s2j "a/x")
              (s2j "A Fast TOOL") eq_refl) as (shown & Hr & _ & Hk & _).
  exists shown. split; [exact Hr |].
  rewrite Hk.
  - vm_compute. reflexivity.
  - discriminate.
  - vm_compute. lia.
  - vm_compute. discriminate.
Defined.

(** C9, as stated, fails: [blockchain] is a source term of the table and
    occurs in the description, yet the text returned does not have its
    display term: the term [ai], earlier in the table, was replaced
    first, inside the word. *)
Lemma keyword_occurrence_not_replaced :
  dictGet keywordMap (s2j "blockchain") = Some (s2j "区块链") /\
  includes (toLowerCase (s2j "A blockchain")) (s2j "blockchain") = true /\
  curatedHit (projectSummariesCache exampleWorld) (s2j "a/x") = None /\
  getChineseSummary (s2j "a/x") (s2j "A blockchain") exampleWorld
  = (Returned (Str (s2j "A blockch人工智能n")), exampleWorld) /\
  includes (s2j "A blockch人工智能n") (s2j "区块链") = false.
Proof.
  repeat split; vm_compute; reflexivity.
Qed.

(** A later term is looked for in the text as rewritten so far, display
    terms included: in [gptest] the term [gpt] gives [GPTest], in which
    the later term [test] is then replaced. *)
Lemma later_term_in_rewritten_text :
  keywordPass (s2j "gptest") = s2j "GP测试".
Proof. vm_compute. reflexivity. Qed.




(** ** Runs of the builder *)

Lemma keepsFiles_refl (w : World) : keepsFiles w w.
Proof.
  repeat split. exists []. rewrite app_nil_r. reflexivity.
Qed.


Lemma keepsFiles_console (w : World) (lines : list LogMsg) :
  keepsFiles w (withConsole (console w ++ lines) w).
Proof. repeat split. exists lines. reflexivity. Qed.



Lemma quiet_consoleWrite (m : LogMsg) : quiet (consoleWrite m).
Proof.
  intros w. eexists tt, _. split; [reflexivity |]. apply keepsFiles_console.
Qed.

Lemma quiet_readHistoryData (days : Z) : quiet (readHistoryData days).
Proof.
  intros w. destruct (dataDir w) as [| |files] eqn:Hd.
  - eexists _, _. split; [apply readHistoryData_noDir; exact Hd |].
    apply keepsFiles_console.
  - eexists _, _. split; [apply readHistoryData_unreadable; exact Hd |].
    apply keepsFiles_console.
  - eexists _, _. split; [apply readHistoryData_run; exact Hd |].
    unfold afterRead.
    destruct (filter isTrendingFile (map fst files));
      repeat split; eexists; reflexivity.
Qed.

Lemma quiet_loadTranslationCache : quiet loadTranslationCache.
Proof.
  intros w. unfold loadTranslationCache, tryCatch, bind, getWorld, readCacheFile.
  destruct (cacheFile w) eqn:Hc; simpl; try rewrite Hc; simpl.
  - exists tt, w. split; [reflexivity | apply keepsFiles_refl].
  - eexists tt, _. split; [reflexivity |].
    repeat split; auto. eexists. reflexivity.
  - eexists tt, _. split; [reflexivity |].
    repeat split; auto. eexists. reflexivity.
Qed.











(** The builder is the enrichment followed by the two guarded writes. *)
Lemma generateRankingData_split (w : World) :
  generateRankingData w
  = bind (loadTranslationCache ;;;
          weekData <- readHistoryData config.week ;;
          monthData <- readHistoryData config.month ;;
          quarterData <- readHistoryData config.quarter ;;
          weekRankingWithCN <-
            mapM enrichRankingItem (calculateRanking weekData) ;;
          monthRankingWithCN <-
            mapM enrichRankingItem (calculateRanking monthData) ;;
          quarterRankingWithCN <-
            mapM enrichRankingItem (calculateRanking quarterData) ;;
          ret (mkRanking weekRankingWithCN monthRankingWithCN
                         quarterRankingWithCN))
         (fun rankingData =>
            saveTranslationCache ;;;
            tryCatch
              (writeRankingFile rankingData ;;;
               consoleWrite LogRankingWritten)
              (fun _ => consoleWrite ErrorRankingWrite) ;;;
            ret rankingData) w.
Proof.
  unfold generateRankingData, bind.
  destruct (loadTranslationCache w) as [[u|e] w0]; [| reflexivity].
  destruct (readHistoryData config.week w0) as [[d1|e] w1]; [| reflexivity].
  destruct (readHistoryData config.month w1) as [[d2|e] w2]; [| reflexivity].
  destruct (readHistoryData config.quarter w2) as [[d3|e] w3]; [| reflexivity].
  destruct (mapM enrichRankingItem (calculateRanking d1) w3) as [[r1|e] w4];
    [| reflexivity].
  destruct (mapM enrichRankingItem (calculateRanking d2) w4) as [[r2|e] w5];
    [| reflexivity].
  destruct (mapM enrichRankingItem (calculateRanking d3) w5) as [[r3|e] w6];
    reflexivity.
Qed.

Lemma saveTranslationCache_run (w : World) :
  saveTranslationCache w = (Returned tt, afterCacheWrite w).
Proof.
  unfold saveTranslationCache, afterCacheWrite, tryCatch, bind, getWorld,
    writeCacheFile.
  destruct (cacheWrite w); reflexivity.
Qed.

Lemma writeRanking_run (r : RankingData) (w : World) :
  tryCatch (writeRankingFile r ;;; consoleWrite LogRankingWritten)
           (fun _ => consoleWrite ErrorRankingWrite) w
  = (Returned tt, afterRankingWrite r w).
Proof.
  unfold afterRankingWrite, tryCatch, bind, writeRankingFile.
  destruct (rankingWrite w); reflexivity.
Qed.




(** A write that fails after the file was opened does not leave the file
    as it was: the cache file of [fullDiskWorld] held an entry before the
    builder ran and cannot be parsed after it. *)
Lemma failed_write_damages_file :
  cacheFile fullDiskWorld = CacheContent [(s2j "a/x", s2j "cached text")] /\
  cacheFile (snd (generateRankingData fullDiskWorld)) = CacheCorrupt /\
  rankingFile (snd (generateRankingData fullDiskWorld)) = RankingDamaged.
Proof.
  repeat split; vm_compute; reflexivity.
Qed.

(** ** The stars of the latest snapshot *)

Lemma aggregate_visits (historyData : list HistoryItem) (m : RepoMap) :
  fold_left visitDay historyData m
  = fold_left (fun m de => visit (fst de) m (snd de)) (visits historyData) m.
Proof.
  unfold visits. revert m.
  induction historyData as [|h hs IH]; intros m; simpl; auto.
  rewrite fold_left_app, IH. f_equal.
  unfold visitDay. destruct (h_data h) as [|entries]; simpl; auto.
  generalize m. clear.
  induction entries as [|e es IHe]; intros m; simpl; auto.
Qed.

Lemma mapGet_visit_other (date : jstring) (m : RepoMap) (repo : option Entry)
      (n : jstring) :
  bears n repo = false -> mapGet (visit date m repo) n = mapGet m n.
Proof.
  unfold bears. destruct (validName repo) as [k|] eqn:V.
  - intros E. destruct (validName_Some _ V) as [r ->].
    rewrite (visit_valid date m eq_refl V), mapGet_mapUpdate, E.
    destruct (mapHas m k); [reflexivity |].
    rewrite mapGet_mapSet, E. reflexivity.
  - intros _. rewrite visit_invalid by assumption. reflexivity.
Qed.

Lemma mapGet_visit_bears (date : jstring) (m : RepoMap) (r : Entry)
      (n : jstring) :
  bears n (Some r) = true ->
  exists v, mapGet (visit date m (Some r)) n = Some v /\
            stars v = match e_stars r with
                      | Some (c :: s) => c :: s
                      | _ => match mapGet m n with
                             | Some v0 => stars v0
                             | None => s2j "0"
                             end
                      end.
Proof.
  unfold bears. destruct (validName (Some r)) as [k|] eqn:V; [| discriminate].
  intros E. apply jeqb_eq in E. subst k.
  rewrite (visit_valid date m eq_refl V), mapGet_mapUpdate, jeqb_refl.
  rewrite mapHas_mapGet.
  destruct (mapGet m n) as [v0|] eqn:G.
  - rewrite G. simpl. eexists. split; [reflexivity |]. reflexivity.
  - rewrite mapGet_mapSet, jeqb_refl. simpl.
    eexists. split; [reflexivity |]. simpl.
    destruct (e_stars r) as [[|c s]|]; reflexivity.
Qed.

(** The value of [stars] an entity ends with is the one of the element
    visited last among those that report stars for it: the order of the
    visits decides, not the day keys. *)
Lemma stars_last_visited (historyData : list HistoryItem)
      (before after : list (jstring * option Entry))
      (date n c_s : jstring) (r : Entry) :
  visits historyData = before ++ (date, Some r) :: after ->
  bears n (Some r) = true ->
  e_stars r = Some c_s -> c_s <> [] ->
  (forall de, In de after -> reportsStars n (snd de) = false) ->
  exists v, mapGet (aggregate historyData) n = Some v /\ stars v = c_s.
Proof.
  intros Hv Hb Hs Hne Hafter.
  unfold aggregate. rewrite aggregate_visits, Hv, fold_left_app.
  cbn [fold_left fst snd].
  set (m0 := fold_left (fun m de => visit (fst de) m (snd de)) before []).
  destruct (mapGet_visit_bears date m0 r n Hb) as (v1 & G1 & S1).
  rewrite Hs in S1. destruct c_s as [|c s]; [congruence |].
  cbn [fst snd]. revert G1 S1.
  generalize (visit date m0 (Some r)) v1. clear Hv m0.
  induction after as [|[d e] l IH]; intros m v G S; simpl.
  - exists v. auto.
  - assert (Hl : forall de, In de l -> reportsStars n (snd de) = false).
    { intros de Hde. apply Hafter. right. exact Hde. }
    pose proof (Hafter (d, e) (or_introl eq_refl)) as He. simpl in He.
    unfold reportsStars in He.
    destruct (bears n e) eqn:B.
    + destruct e as [r'|]; [| discriminate]. simpl in He.
      destruct (mapGet_visit_bears d m r' n B) as (v' & G' & S').
      rewrite G in S'.
      assert (S'' : stars v' = c :: s).
      { destruct (e_stars r') as [[|c' s']|]; simpl in He;
          try discriminate; congruence. }
      exact (IH Hl _ _ G' S'').
    + apply (IH Hl _ v); [| exact S].
      rewrite mapGet_visit_other by exact B. exact G.
Qed.

(** C1.  The code at the example of the specification.  The reader hands
    the two snapshots over newest first; the aggregator overwrites [stars]
    at every occurrence, so the value that stays is the one of the snapshot
    read last, the oldest: [a/x] ends with the stars of 2026-02-21,
    "1,200", where the snapshot with the greatest day key, 2026-02-22, has
    "1,300". *)
Theorem stars_of_example_window :
  exists items w',
    readHistoryData config.week exampleWorld = (Returned items, w') /\
    items = [day2; day1] /\
    jleb (h_date day1) (h_date day2) = true /\
    h_date day1 <> h_date day2 /\
    h_data day2
    = ArrayOf [Some (mkEntry (Some (s2j "a/x")) None None (Some (s2j "1,300")))] /\
    map (fun r => (name r, stars r, count r)) (calculateRanking items)
    = [(s2j "a/x", s2j "1,200", 2); (s2j "b/y", s2j "500", 1)].
Proof.
  eexists _, _. split; [vm_compute; reflexivity |].
  repeat split; try (vm_compute; reflexivity).
  vm_compute. discriminate.
Qed.

(** ** The module state and the ranking *)

(** What the reader returns depends on the data directory and the clock
    alone: the module variables, which the resolver changes, do not enter
    the history, hence not the ranking computed from it. *)
Lemma history_ignores_module_state (days : Z) (w1 w2 : World) :
  dataDir w1 = dataDir w2 ->
  clock w1 (ticks w1) = clock w2 (ticks w2) ->
  fst (readHistoryData days w1) = fst (readHistoryData days w2).
Proof.
  intros Hd Hc. destruct (dataDir w2) as [| |files] eqn:D.
  - rewrite !readHistoryData_noDir by assumption. reflexivity.
  - rewrite !readHistoryData_unreadable by assumption. reflexivity.
  - rewrite (@readHistoryData_run days w1 files Hd).
    rewrite (@readHistoryData_run days w2 files D).
    simpl. rewrite Hc. reflexivity.
Qed.

(** ** Repeated detail resolution *)

Lemma dictGet_dictSet (d : Dict) (k v : jstring) :
  dictGet (dictSet d k v) k = Some v.
Proof.
  induction d as [|[k' v'] d IH]; simpl.
  - rewrite jeqb_refl. reflexivity.
  - destruct (jeqb k' k) eqn:E; simpl; rewrite E; auto.
Qed.

Lemma getDetailedDescription_run (it : RepoInfo) (w : World) (s : JsValue) :
  getChineseSummary (name it) (description it) w = (Returned s, w) ->
  getDetailedDescription it w
  = if jsTruthy s && negb (jsIs s (description it))
       && negb (jsIs s noDescription)
    then (Returned s, w)
    else
      bind (if truthy (description it)
            then translateWithCache (name it) (description it)
            else ret None)
           (fun translated =>
              match translated with
              | Some (c :: t) => ret (Str (c :: t))
              | _ => ret (Str (if truthy (description it) then description it
                               else noDescription))
              end) w.
Proof.
  intros Hs. unfold getDetailedDescription. rewrite (bind_run _ Hs).
  destruct (jsTruthy s && _ && _); reflexivity.
Qed.

(** In the model, where no answer of the translation service arrives, the
    detail resolver returns at a second call what it returned at the
    first. *)
Lemma detail_resolution_repeatable (w : World) (it : RepoInfo) :
  exists shown w1 w2,
    getDetailedDescription it w = (Returned shown, w1) /\
    getDetailedDescription it w1 = (Returned shown, w2).
Proof.
  set (n := name it). set (d := description it).
  pose proof (getChineseSummary_run n d w) as R.
  set (s := match curatedHit (projectSummariesCache w) n with
            | Some summary => summary
            | None => _
            end) in R.
  assert (R' : forall w1, projectSummariesCache w1 = projectSummariesCache w ->
                          getChineseSummary n d w1 = (Returned s, w1)).
  { intros w1 H. rewrite getChineseSummary_run, H. reflexivity. }
  rewrite (getDetailedDescription_run it R).
  destruct (jsTruthy s && negb (jsIs s (description it))
            && negb (jsIs s noDescription)) eqn:T.
  { exists s, w, w. split; [reflexivity |].
    rewrite (getDetailedDescription_run it R), T. reflexivity. }
  fold d n. destruct (truthy d) eqn:Td.
  2:{ eexists _, w, w. split; [reflexivity |].
      rewrite (getDetailedDescription_run it R), T. fold d. rewrite Td.
      reflexivity. }
  assert (Hd : d <> []) by (apply truthy_nonempty; exact Td).
  destruct (dictTruthy (translationCache w) (toLowerCase n)) as [c|] eqn:Hc.
  - rewrite (bind_run _ (@translateWithCache_hit n d c w Hd Hc)).
    destruct (dictTruthy_nonempty _ _ Hc) as (x & t & ->).
    exists (Str (x :: t)), w, w. split; [reflexivity |].
    rewrite (getDetailedDescription_run it R), T. fold d n. rewrite Td.
    rewrite (bind_run _ (@translateWithCache_hit n d (x :: t) w Hd Hc)).
    reflexivity.
  - destruct (jeqb (simpleTranslate d) d) eqn:Hs.
    + apply jeqb_eq in Hs.
      rewrite (bind_run _ (@translateWithCache_miss_fixed n d w Hd Hc Hs)).
      set (w1 := if openaiConfigured w then _ else w).
      assert (P1 : projectSummariesCache w1 = projectSummariesCache w)
        by (unfold w1; destruct (openaiConfigured w); reflexivity).
      assert (C1 : translationCache w1 = translationCache w)
        by (unfold w1; destruct (openaiConfigured w); reflexivity).
      eexists _, w1, _. split; [reflexivity |].
      rewrite (getDetailedDescription_run it (R' w1 P1)), T. fold d n.
      rewrite Td.
      assert (Hc1 : dictTruthy (translationCache w1) (toLowerCase n) = None)
        by (rewrite C1; exact Hc).
      rewrite (bind_run _ (@translateWithCache_miss_fixed n d w1 Hd Hc1 Hs)).
      reflexivity.
    + apply jeqb_neq in Hs.
      rewrite (bind_run _ (@translateWithCache_miss_changed n d w Hd Hc Hs)).
      destruct (simpleTranslate_proper Hd Hs) as [Hne _].
      destruct (simpleTranslate d) as [|x t] eqn:St; [congruence |].
      set (w1 := withTranslationCache _ w).
      exists (Str (x :: t)), w1, w1. split; [reflexivity |].
      rewrite (getDetailedDescription_run it (R' w1 eq_refl)), T. fold d n.
      rewrite Td.
      assert (Hc1 : dictTruthy (translationCache w1) (toLowerCase n)
                    = Some (x :: t)).
      { unfold w1, dictTruthy. simpl. rewrite dictGet_dictSet. reflexivity. }
      rewrite (bind_run _ (@translateWithCache_hit n d (x :: t) w1 Hd Hc1)).
      reflexivity.
Qed.

(* ================================================================== *)
(** * Further properties of the code *)

(** ** The aggregator beyond counts and order *)

Lemma NoDup_firstn (A : Type) (n : nat) (l : list A) :
  NoDup l -> NoDup (firstn n l).
Proof.
  intros H. rewrite <- (firstn_skipn n l) in H.
  apply NoDup_app_remove_r in H. exact H.
Qed.

Lemma namesOf_nonempty (data : SnapshotJson) (n : jstring) :
  In n (namesOf data) -> n <> [].
Proof.
  unfold namesOf. rewrite in_flat_map. intros (e & _ & H).
  unfold validName in H. destruct e as [r|]; [| destruct H].
  destruct (e_name r) as [[|c s]|]; simpl in H; try tauto.
  destruct H as [<- | []]. discriminate.
Qed.

Lemma keepFirst_In (l : list jstring) (x : jstring) :
  In x (keepFirst l) <-> In x l.
Proof.
  unfold keepFirst. rewrite <- in_rev, nodup_In, <- in_rev. tauto.
Qed.

Lemma keepFirst_NoDup (l : list jstring) : NoDup (keepFirst l).
Proof. unfold keepFirst. apply NoDup_rev, NoDup_nodup. Qed.

Lemma ranking_names (historyData : list HistoryItem) :
  Permutation (map name (sortWith compareFn (map snd (aggregate historyData))))
              (keepFirst (namesSeen historyData)).
Proof.
  rewrite <- keys_aggregate.
  rewrite <- (values_names (filedByName_aggregate historyData)).
  apply Permutation_map. symmetry. apply sortWith_perm.
Qed.

(** X1.  The ranking has every repository at most once, and every name
    in it is the non-empty name of an entry of some snapshot. *)
Theorem ranking_names_distinct (historyData : list HistoryItem) :
  NoDup (map name (calculateRanking historyData)) /\
  (forall r, In r (calculateRanking historyData) ->
             name r <> [] /\ In (name r) (namesSeen historyData)).
Proof.
  split.
  - unfold calculateRanking. rewrite <- firstn_map. apply NoDup_firstn.
    eapply Permutation_NoDup; [symmetry; apply ranking_names |].
    apply keepFirst_NoDup.
  - intros r Hr. apply ranking_incl in Hr.
    assert (Hn : In (name r) (namesSeen historyData)).
    { apply keepFirst_In. rewrite <- keys_aggregate.
      rewrite <- (values_names (filedByName_aggregate historyData)).
      apply in_map. exact Hr. }
    split; [| exact Hn].
    unfold namesSeen in Hn. apply in_flat_map in Hn.
    destruct Hn as (h & _ & Hh). eapply namesOf_nonempty; eauto.
Qed.

Lemma fold_visit_absent (l : list (jstring * option Entry)) (m : RepoMap)
      (n : jstring) :
  (forall de, In de l -> bears n (snd de) = false) ->
  mapGet (fold_left (fun m de => visit (fst de) m (snd de)) l m) n = mapGet m n.
Proof.
  revert m. induction l as [|[d e] l IH]; intros m H; simpl; auto.
  rewrite IH by (intros de Hde; apply H; right; exact Hde).
  apply mapGet_visit_other. apply (H (d, e)). left. reflexivity.
Qed.

Lemma visit_keeps_first (date : jstring) (m : RepoMap) (repo : option Entry)
      (n : jstring) (v : RepoInfo) :
  mapGet m n = Some v ->
  exists v', mapGet (visit date m repo) n = Some v' /\
             url v' = url v /\ description v' = description v.
Proof.
  intros G. destruct (bears n repo) eqn:B.
  - unfold bears in B. destruct (validName repo) as [k|] eqn:V; [| discriminate].
    apply jeqb_eq in B. subst k. destruct (validName_Some _ V) as [r ->].
    rewrite (visit_valid date m eq_refl V), mapGet_mapUpdate, jeqb_refl.
    rewrite mapHas_mapGet, G, G. simpl. eexists. repeat split.
  - rewrite mapGet_visit_other by exact B. exists v. auto.
Qed.

(** X2.  The url and the description an entity ends with are those of the
    first element visited that bears its name (the empty string when that
    element has none): later snapshots do not change them. *)
Theorem first_seen_url_description (historyData : list HistoryItem)
        (before after : list (jstring * option Entry))
        (date n : jstring) (r : Entry) :
  visits historyData = before ++ (date, Some r) :: after ->
  bears n (Some r) = true ->
  (forall de, In de before -> bears n (snd de) = false) ->
  exists v, mapGet (aggregate historyData) n = Some v /\
            url v = orElse (e_url r) [] /\
            description v = orElse (e_description r) [].
Proof.
  intros Hv Hb Hbefore.
  unfold aggregate. rewrite aggregate_visits, Hv, fold_left_app.
  cbn [fold_left fst snd].
  set (m0 := fold_left (fun m de => visit (fst de) m (snd de)) before []).
  assert (G0 : mapGet m0 n = None).
  { unfold m0. rewrite fold_visit_absent by exact Hbefore. reflexivity. }
  assert (G1 : exists v, mapGet (visit date m0 (Some r)) n = Some v /\
                         url v = orElse (e_url r) [] /\
                         description v = orElse (e_description r) []).
  { unfold bears in Hb.
    destruct (validName (Some r)) as [k|] eqn:V; [| discriminate].
    apply jeqb_eq in Hb. subst k.
    rewrite (visit_valid date m0 eq_refl V), mapGet_mapUpdate, jeqb_refl.
    rewrite mapHas_mapGet, G0, mapGet_mapSet, jeqb_refl. simpl.
    eexists. repeat split. }
  destruct G1 as (v1 & G1 & U1 & D1). revert G1 U1 D1.
  generalize (visit date m0 (Some r)) v1. clear.
  induction after as [|[d e] l IH]; intros m v G U D; simpl.
  - exists v. auto.
  - destruct (@visit_keeps_first d m e n v G) as (v' & G' & U' & D').
    apply (IH _ v' G'); congruence.
Qed.

Lemma first_seen_url_description_witness :
  exists v, mapGet (aggregate [day2; day1]) (s2j "b/y") = Some v /\
            url v = [] /\ description v = [].
Proof.
  apply (@first_seen_url_description [day2; day1]
           [(s2j "2026-02-22",
             Some (mkEntry (Some (s2j "a/x")) None None (Some (s2j "1,300"))));
            (s2j "2026-02-21",
             Some (mkEntry (Some (s2j "a/x")) None None (Some (s2j "1,200"))))]
           [] (s2j "2026-02-21") (s2j "b/y")
           (mkEntry (Some (s2j "b/y")) None None (Some (s2j "500")))).
  - reflexivity.
  - reflexivity.
  - intros de [<- | [<- | []]]; reflexivity.
Defined.

Lemma datesOf_visit (date : jstring) (m : RepoMap) (repo : option Entry)
      (n : jstring) :
  datesOf (visit date m repo) n
  = if bears n repo then addKey (datesOf m n) date else datesOf m n.
Proof.
  unfold datesOf. destruct (bears n repo) eqn:B.
  - unfold bears in B. destruct (validName repo) as [k|] eqn:V; [| discriminate].
    apply jeqb_eq in B. subst k. destruct (validName_Some _ V) as [r ->].
    rewrite (visit_valid date m eq_refl V), mapGet_mapUpdate, jeqb_refl.
    rewrite mapHas_mapGet.
    destruct (mapGet m n) as [v|] eqn:G.
    + rewrite G. reflexivity.
    + rewrite mapGet_mapSet, jeqb_refl. reflexivity.
  - rewrite mapGet_visit_other by exact B. reflexivity.
Qed.

Lemma datesOf_visits (l : list (jstring * option Entry)) (m : RepoMap)
      (n : jstring) :
  datesOf (fold_left (fun m de => visit (fst de) m (snd de)) l m) n
  = fold_left addKey (map fst (filter (fun de => bears n (snd de)) l))
              (datesOf m n).
Proof.
  revert m. induction l as [|[d e] l IH]; intros m; simpl; auto.
  rewrite IH, datesOf_visit. destruct (bears n e); reflexivity.
Qed.

Lemma datesOf_aggregate (historyData : list HistoryItem) (n : jstring) :
  datesOf (aggregate historyData) n
  = keepFirst (map fst (filter (fun de => bears n (snd de)) (visits historyData))).
Proof.
  unfold aggregate. rewrite aggregate_visits, datesOf_visits.
  apply fold_addKey_keepFirst.
Qed.

Lemma visits_In (historyData : list HistoryItem) (d : jstring)
      (e : option Entry) :
  In (d, e) (visits historyData) <->
  exists h, In h historyData /\ h_date h = d /\ In e (entriesOf (h_data h)).
Proof.
  unfold visits. rewrite in_flat_map. split.
  - intros (h & Hh & Hin). apply in_map_iff in Hin.
    destruct Hin as (e' & E & He). inversion E; subst. eauto.
  - intros (h & Hh & <- & He). exists h. split; [exact Hh |].
    apply in_map. exact He.
Qed.

Lemma visits_entries (historyData : list HistoryItem) :
  map snd (visits historyData)
  = flat_map (fun h => entriesOf (h_data h)) historyData.
Proof.
  unfold visits. induction historyData as [|h hs IH]; simpl; auto.
  rewrite map_app, IH, map_map. simpl. rewrite map_id. reflexivity.
Qed.

Lemma filter_map_length (A B : Type) (f : A -> B) (p : B -> bool) (l : list A) :
  length (filter (fun x => p (f x)) l) = length (filter p (map f l)).
Proof.
  induction l as [|x l IH]; simpl; auto.
  destruct (p (f x)); simpl; congruence.
Qed.

Lemma keepFirst_length (l : list jstring) : length (keepFirst l) <= length l.
Proof.
  apply NoDup_incl_length; [apply keepFirst_NoDup |].
  intros x Hx. apply (proj1 (keepFirst_In _ _)) in Hx. exact Hx.
Qed.

(** X3.  The dates an entity ends with are, without repetition, exactly
    the dates of the history items whose snapshot has an entry of its name;
    there are at most as many as its count. *)
Theorem dates_of_entity (historyData : list HistoryItem) (r : RepoInfo) :
  In r (map snd (aggregate historyData)) ->
  NoDup (dates r) /\
  (forall d, In d (dates r) <->
             exists h, In h historyData /\ h_date h = d /\
                       containsName (name r) (h_data h) = true) /\
  length (dates r) <= count r.
Proof.
  intros Hr.
  pose proof (aggregate_values _ _ Hr) as G.
  pose proof (datesOf_aggregate historyData (name r)) as D.
  unfold datesOf in D. rewrite G in D.
  split; [rewrite D; apply keepFirst_NoDup |]. split.
  - intros d. rewrite D, keepFirst_In, in_map_iff. split.
    + intros ([d' e] & E & Hin). simpl in E. subst d'.
      apply filter_In in Hin. destruct Hin as [Hin B]. simpl in B.
      apply visits_In in Hin. destruct Hin as (h & Hh & Hd & He).
      exists h. split; [exact Hh |]. split; [exact Hd |].
      unfold containsName. apply existsb_exists. eauto.
    + intros (h & Hh & Hd & Hc). unfold containsName in Hc.
      apply existsb_exists in Hc. destruct Hc as (e & He & B).
      exists (d, e). split; [reflexivity |].
      apply filter_In. split; [| exact B].
      apply visits_In. eauto.
  - rewrite (aggregate_count _ _ Hr). unfold occurrences.
    rewrite <- visits_entries, <- filter_map_length.
    rewrite D.
    apply Nat.le_trans with (1 := keepFirst_length _).
    rewrite length_map. apply Nat.le_refl.
Qed.

Lemma dates_of_entity_witness :
  let r := mkRepo (s2j "a/x") [] [] (s2j "1,200") 2
                  [s2j "2026-02-22"; s2j "2026-02-21"] in
  NoDup (dates r) /\
  (forall d, In d (dates r) <->
             exists h, In h [day2; day1] /\ h_date h = d /\
                       containsName (name r) (h_data h) = true) /\
  length (dates r) <= count r.
Proof.
  apply (dates_of_entity [day2; day1]).
  vm_compute. left. reflexivity.
Defined.

Lemma Forall_mapUpdate (P : RepoInfo -> Prop) (m : RepoMap) (k : jstring)
      (f : RepoInfo -> RepoInfo) :
  (forall v, P v -> P (f v)) ->
  Forall (fun kv => P (snd kv)) m ->
  Forall (fun kv => P (snd kv)) (mapUpdate m k f).
Proof.
  intros Hf. induction 1 as [|[k' v] m Hv Hm IH]; simpl; [constructor |].
  destruct (jeqb k' k); constructor; simpl in *; auto.
Qed.

Lemma mapUpdate_new (m : RepoMap) (k : jstring) (v : RepoInfo)
      (f : RepoInfo -> RepoInfo) :
  mapHas m k = false -> mapUpdate (m ++ [(k, v)]) k f = m ++ [(k, f v)].
Proof.
  induction m as [|[k' v'] m IH]; simpl.
  - intros _. rewrite jeqb_refl. reflexivity.
  - intros H. apply orb_false_iff in H. destruct H as [H1 H2].
    rewrite H1, IH by exact H2. reflexivity.
Qed.

Lemma touch_wellFormed (date : jstring) (r : Entry) (v : RepoInfo) :
  wellFormed v -> wellFormed (touch date r v).
Proof.
  intros (Hn & Hs & Hc & Hd). unfold wellFormed, touch. simpl.
  split; [exact Hn |]. split; [| split; [lia |]].
  - destruct (e_stars r) as [[|c s]|]; auto. discriminate.
  - destruct (existsb (jeqb date) (dates v)); auto.
    destruct (dates v); discriminate.
Qed.

Lemma touch_new_wellFormed (date : jstring) (r : Entry) (c : N) (n : jstring) :
  wellFormed (touch date r
                (mkRepo (c :: n) (orElse (e_url r) []) (orElse (e_description r) [])
                        (orElse (e_stars r) (s2j "0")) 0 [])).
Proof.
  unfold wellFormed, touch. simpl.
  split; [discriminate |]. split; [| split; [lia | discriminate]].
  destruct (e_stars r) as [[|c' s]|]; discriminate.
Qed.

Lemma visit_wellFormed (date : jstring) (m : RepoMap) (repo : option Entry) :
  Forall (fun kv => wellFormed (snd kv)) m ->
  Forall (fun kv => wellFormed (snd kv)) (visit date m repo).
Proof.
  intros Hm. destruct (validName repo) as [k|] eqn:V.
  - destruct (validName_Some _ V) as [r ->].
    rewrite (visit_valid date m eq_refl V).
    destruct (mapHas m k) eqn:H.
    + apply Forall_mapUpdate; [apply touch_wellFormed | exact Hm].
    + rewrite mapSet_absent, mapUpdate_new by exact H.
      apply Forall_app. split; [exact Hm |].
      constructor; [| constructor]. simpl.
      unfold validName in V. destruct (e_name r) as [[|c n]|]; try discriminate.
      inversion V; subst. apply touch_new_wellFormed.
  - rewrite visit_invalid by assumption. exact Hm.
Qed.


Lemma StronglySorted_app_inv (A : Type) (R : A -> A -> Prop) (a b : list A) :
  StronglySorted R (a ++ b) ->
  forall x y, In x a -> In y b -> R x y.
Proof.
  induction a as [|z a IH]; simpl; intros H x y Hx Hy; [destruct Hx |].
  inversion H as [|? ? Hs Hz]; subst.
  destruct Hx as [<- | Hx].
  - rewrite Forall_forall in Hz. apply Hz. apply in_or_app. right. exact Hy.
  - eapply IH; eauto.
Qed.

(** X5.  The cut to [config.maxItems] drops the lowest: an aggregated
    object that is not in the ranking stands, in ranking order, at or after
    every object that is; and with at most ten objects nothing is
    dropped. *)
Theorem ranking_cut (historyData : list HistoryItem) :
  (forall r x, In r (map snd (aggregate historyData)) ->
               ~ In r (calculateRanking historyData) ->
               In x (calculateRanking historyData) ->
               ranksBefore x r) /\
  (length (map snd (aggregate historyData)) <= config.maxItems ->
   Permutation (map snd (aggregate historyData))
               (calculateRanking historyData)).
Proof.
  unfold calculateRanking.
  set (values := map snd (aggregate historyData)).
  set (sorted := sortWith compareFn values).
  split.
  - intros r x Hr Hn Hx.
    assert (Hs : In r sorted).
    { eapply Permutation_in; [apply sortWith_perm | exact Hr]. }
    rewrite <- (firstn_skipn config.maxItems sorted) in Hs.
    apply in_app_or in Hs. destruct Hs as [Hs | Hs]; [tauto |].
    pose proof (sorted_ranking values) as S. fold sorted in S.
    rewrite <- (firstn_skipn config.maxItems sorted) in S.
    exact (@StronglySorted_app_inv _ _ _ _ S x r Hx Hs).
  - intros Hl. rewrite firstn_all2.
    + apply sortWith_perm.
    + unfold sorted. rewrite <- (Permutation_length (sortWith_perm compareFn values)).
      exact Hl.
Qed.

Lemma ranking_cut_witness :
  ranksBefore
    (mkRepo (s2j "o/k") [] [] (s2j "11") 1 [s2j "2026-02-22"])
    (mkRepo (s2j "o/a") [] [] (s2j "1") 1 [s2j "2026-02-22"]) /\
  Permutation (map snd (aggregate [day2; day1])) (calculateRanking [day2; day1]).
Proof.
  split.
  - apply (proj1 (ranking_cut [elevenDay])).
    + vm_compute. left. reflexivity.
    + vm_compute. intros H.
      repeat (destruct H as [H | H]; [discriminate H |]). exact H.
    + vm_compute. left. reflexivity.
  - apply (proj2 (ranking_cut [day2; day1])). vm_compute. repeat constructor.
Defined.

(** ** The reader: windows and failures *)

Lemma subseq_refl (A : Type) (l : list A) : subseq l l.
Proof. induction l; [apply subseq_nil | apply subseq_keep; assumption]. Qed.

Lemma subseq_app (A : Type) (a a' b b' : list A) :
  subseq a a' -> subseq b b' -> subseq (a ++ b) (a' ++ b').
Proof.
  intros Ha Hb. induction Ha; simpl;
    [exact Hb | apply subseq_skip; assumption | apply subseq_keep; assumption].
Qed.

Lemma subseq_nil_l (A : Type) (l : list A) : subseq [] l.
Proof. induction l; [apply subseq_nil | apply subseq_skip; assumption]. Qed.

Lemma subseq_flat_map_filter (A B : Type) (g : A -> list B) (p : A -> bool)
      (l : list A) :
  subseq (flat_map g (filter p l)) (flat_map g l).
Proof.
  induction l as [|x l IH]; simpl; [apply subseq_nil |].
  destruct (p x); simpl.
  - apply subseq_app; [apply subseq_refl | exact IH].
  - change (flat_map g (filter p l)) with ([] ++ flat_map g (filter p l)).
    apply subseq_app; [apply subseq_nil_l | exact IH].
Qed.

Lemma subseq_In (A : Type) (l l' : list A) (x : A) :
  subseq l l' -> In x l -> In x l'.
Proof.
  induction 1; simpl; auto.
  intros [-> | H']; auto.
Qed.

Lemma isRecent_wider (now c c' : Z) (f : jstring) :
  (c' <= c)%Z -> isRecent now c f = true -> isRecent now c' f = true.
Proof.
  intros Hc H. apply isRecent_inv in H. destruct H as (d & t & M & P & B).
  apply isRecent_inv. exists d, t. repeat split; auto; lia.
Qed.

Lemma recentFilesOf_narrow (now days days' : Z) (listing : list jstring) :
  (days <= days')%Z ->
  recentFilesOf now days listing
  = filter (isRecent now (now - days * msPerDay)%Z)
           (recentFilesOf now days' listing).
Proof.
  intros Hd. rewrite recentFilesOf_filter. unfold recentFilesOf.
  do 2 f_equal. rewrite !filter_filter. apply filter_ext_in.
  intros f _.
  destruct (isRecent now (now - days * msPerDay) f) eqn:R; simpl.
  - assert (R' : isRecent now (now - days' * msPerDay) f = true).
    { eapply isRecent_wider; [| exact R]. unfold msPerDay. lia. }
    rewrite R'. rewrite andb_true_r. reflexivity.
  - rewrite andb_false_r. reflexivity.
Qed.

(** X6.  At one instant a shorter window gives a part of what a longer
    window gives, in the same order: every item read for [days] is read
    for [days'] when [days <= days']. *)
Theorem window_monotone (w : World) (files : list (jstring * FileBody))
        (days days' : Z) :
  dataDir w = Dir files ->
  (days <= days')%Z ->
  exists items items',
    fst (readHistoryData days w) = Returned items /\
    fst (readHistoryData days' w) = Returned items' /\
    subseq items items' /\
    (forall h, In h items -> In h items').
Proof.
  intros Hd Hle.
  rewrite !(@readHistoryData_run _ w files Hd). simpl.
  eexists _, _. split; [reflexivity |]. split; [reflexivity |].
  assert (S : subseq
                (flat_map (loadOne files)
                   (recentFilesOf (clock w (ticks w)) days (map fst files)))
                (flat_map (loadOne files)
                   (recentFilesOf (clock w (ticks w)) days' (map fst files)))).
  { rewrite (recentFilesOf_narrow _ _ Hle). apply subseq_flat_map_filter. }
  split; [exact S |].
  intros h. apply subseq_In. exact S.
Qed.

Lemma window_monotone_witness :
  exists items items',
    fst (readHistoryData config.week exampleWorld) = Returned items /\
    fst (readHistoryData config.month exampleWorld) = Returned items' /\
    subseq items items' /\
    (forall h, In h items -> In h items').
Proof.
  apply (@window_monotone exampleWorld exampleFiles).
  - reflexivity.
  - vm_compute. discriminate.
Defined.

(** X7.  The reader returns from every world, whatever the state of the
    data directory; it leaves the files and the module variables as they
    were.  A directory that exists and cannot be listed gives the empty
    history and one error line; a directory without any trending file gives
    the empty history and one warning, and the clock is not read. *)
Theorem reader_never_throws (days : Z) (w : World) :
  exists items w',
    readHistoryData days w = (Returned items, w') /\
    dataDir w' = dataDir w /\
    cacheFile w' = cacheFile w /\
    rankingFile w' = rankingFile w /\
    projectSummariesCache w' = projectSummariesCache w /\
    translationCache w' = translationCache w /\
    (dataDir w = DirUnreadable ->
     items = [] /\ console w' = console w ++ [ErrorHistory]) /\
    (forall files, dataDir w = Dir files ->
                   filter isTrendingFile (map fst files) = [] ->
     items = [] /\ console w' = console w ++ [WarnNoTrendingFiles] /\
     ticks w' = ticks w).
Proof.
  destruct (dataDir w) as [| |files] eqn:Hd.
  - eexists _, _. split; [apply readHistoryData_noDir; exact Hd |].
    simpl. do 5 (split; [auto |]). split; discriminate.
  - eexists _, _. split; [apply readHistoryData_unreadable; exact Hd |].
    simpl. do 5 (split; [auto |]). split; [auto | discriminate].
  - eexists _, _. split; [apply readHistoryData_run; exact Hd |].
    unfold afterRead.
    destruct (filter isTrendingFile (map fst files)) as [|f fs] eqn:F; simpl.
    + rewrite recentFilesOf_nil by exact F.
      do 5 (split; [auto |]). split; [discriminate |].
      intros files' E _. auto.
    + do 5 (split; [auto |]). split; [discriminate |].
      intros files' E Hf. inversion E; subst. rewrite F in Hf. discriminate.
Qed.

(** ** The resolver: the thresholds of [simpleTranslate] *)

(** X8.  The two thresholds of [simpleTranslate].  A text of 100 units or
    more is never keyword-translated: it comes back with the marker before
    it.  A text comes back unchanged exactly when it is empty, or has at
    most 20 units and the keyword pass leaves it as it is.  A non-empty
    text never gives the empty string. *)
Theorem simpleTranslate_thresholds (text : jstring) :
  (100 <= length text -> simpleTranslate text = marker ++ text) /\
  (simpleTranslate text = text <->
   text = [] \/ (length text <= 20 /\ keywordPass text = text)) /\
  (text <> [] -> simpleTranslate text <> []).
Proof.
  destruct (jstring_eq_dec text []) as [-> | Hne].
  { split; [simpl; lia |]. split; [| congruence].
    split; [auto | reflexivity]. }
  pose proof (simpleTranslate_cases Hne) as E.
  split; [| split].
  - intros Hl. rewrite E.
    assert (H1 : (length text <? 100) = false) by (apply Nat.ltb_ge; exact Hl).
    assert (H2 : (20 <? length text) = true) by (apply Nat.ltb_lt; lia).
    rewrite H1, H2. reflexivity.
  - split.
    + intros Hs. right.
      pose proof (simpleTranslate_fixed Hs) as Hl.
      split; [exact Hl |].
      destruct (jeqb (keywordPass text) text) eqn:J;
        [apply jeqb_eq; exact J |].
      assert (C : (length text <? 100) && negb false = true).
      { replace (length text <? 100) with true; [reflexivity |].
        symmetry. apply Nat.ltb_lt. lia. }
      rewrite E, C in Hs. exact Hs.
    + intros [H | [Hl Hk]]; [congruence |].
      rewrite E, Hk, jeqb_refl, andb_false_r.
      apply Nat.ltb_ge in Hl. rewrite Hl. reflexivity.
  - intros _. destruct (jeqb (simpleTranslate text) text) eqn:J.
    + apply jeqb_eq in J. rewrite J. exact Hne.
    + apply jeqb_neq in J. apply (simpleTranslate_proper Hne J).
Qed.

Lemma simpleTranslate_thresholds_witness :
  simpleTranslate (s2j "no keyword here") = s2j "no keyword here".
Proof.
  apply (proj1 (proj2 (simpleTranslate_thresholds (s2j "no keyword here")))).
  right. split; [vm_compute; lia | vm_compute; reflexivity].
Defined.

(** ** The resolver: empty results and the translation cache *)

Lemma translateWithCache_cases (projectName text : jstring) (w : World) :
  let key := toLowerCase projectName in
  (text = [] /\ translateWithCache projectName text w = (Returned None, w)) \/
  (text <> [] /\
   exists cached,
     dictTruthy (translationCache w) key = Some cached /\
     translateWithCache projectName text w = (Returned (Some cached), w)) \/
  (text <> [] /\ dictTruthy (translationCache w) key = None /\
   simpleTranslate text <> text /\
   translateWithCache projectName text w
   = (Returned (Some (simpleTranslate text)),
      withTranslationCache
        (dictSet (translationCache w) key (simpleTranslate text)) w)) \/
  (text <> [] /\ dictTruthy (translationCache w) key = None /\
   simpleTranslate text = text /\
   translateWithCache projectName text w
   = (Returned None,
      if openaiConfigured w
      then withDispatched (dispatched w ++ [(key, text)]) w
      else w)).
Proof.
  intros key. destruct (jstring_eq_dec text []) as [-> | Ht].
  { left. split; reflexivity. }
  right. destruct (dictTruthy (translationCache w) key) as [cached|] eqn:Hc.
  { left. split; [exact Ht |]. exists cached. split; [reflexivity |].
    apply translateWithCache_hit; assumption. }
  right. destruct (jstring_eq_dec (simpleTranslate text) text) as [Hs | Hs].
  - right. split; [exact Ht |]. split; [reflexivity |]. split; [exact Hs |].
    apply translateWithCache_miss_fixed; assumption.
  - left. split; [exact Ht |]. split; [reflexivity |]. split; [exact Hs |].
    apply translateWithCache_miss_changed; assumption.
Qed.

Lemma dictTruthy_dictSet (d : Dict) (k v : jstring) :
  v <> [] -> dictTruthy (dictSet d k v) k = Some v.
Proof.
  intros Hv. unfold dictTruthy. rewrite dictGet_dictSet.
  destruct v; [congruence | reflexivity].
Qed.

(** X9.  [translateWithCache] returns from every world.  It returns
    nothing exactly for an empty text, or when the cache has nothing
    truthy under the lower-cased name and [simpleTranslate] gives the text
    back; the cache is then left as it was, so the assignment of the
    marked text at the end of the function is never reached.  What it
    returns otherwise is not empty and is in the cache under the
    lower-cased name afterwards.  A request for the translation service
    is handed over only when the service is configured, nothing is
    returned, and the text has at most 20 units. *)
Theorem translateWithCache_behaviour (projectName text : jstring) (w : World) :
  let key := toLowerCase projectName in
  exists r w',
    translateWithCache projectName text w = (Returned r, w') /\
    (r = None <->
     text = [] \/
     (dictTruthy (translationCache w) key = None /\
      simpleTranslate text = text)) /\
    (r = None -> translationCache w' = translationCache w) /\
    (forall v, r = Some v ->
       v <> [] /\ dictTruthy (translationCache w') key = Some v /\
       dispatched w' = dispatched w) /\
    (dispatched w' = dispatched w \/
     (openaiConfigured w = true /\ r = None /\ length text <= 20 /\
      dispatched w' = dispatched w ++ [(key, text)])).
Proof.
  intros key.
  destruct (translateWithCache_cases projectName text w)
    as [[Ht R] | [(Ht & c & Hc & R) | [(Ht & Hc & Hs & R) | (Ht & Hc & Hs & R)]]];
    fold key in R; fold key in Hc || idtac.
  - eexists _, _. split; [exact R |].
    split; [split; auto |]. split; [reflexivity |].
    split; [discriminate | left; reflexivity].
  - eexists _, _. split; [exact R |].
    split; [split; [discriminate | intros [H | [H _]]; congruence] |].
    split; [discriminate |].
    split; [| left; reflexivity].
    intros v H. inversion H; subst v.
    destruct (dictTruthy_nonempty _ _ Hc) as (a & b & E).
    split; [rewrite E; discriminate | split; [exact Hc | reflexivity]].
  - eexists _, _. split; [exact R |].
    split; [split; [discriminate | intros [H | [_ H]]; congruence] |].
    split; [discriminate |].
    split; [| left; reflexivity].
    intros v H. inversion H as [H1]. clear H. try subst v.
    destruct (simpleTranslate_proper Ht Hs) as [N _].
    split; [exact N |]. split; [| reflexivity].
    cbn [translationCache withTranslationCache].
    apply dictTruthy_dictSet. exact N.
  - eexists _, _. split; [exact R |].
    split; [split; auto |].
    split; [intros _; destruct (openaiConfigured w); reflexivity |].
    split; [discriminate |].
    destruct (openaiConfigured w); [right | left; reflexivity].
    split; [reflexivity |]. split; [reflexivity |].
    split; [apply simpleTranslate_fixed; exact Hs | reflexivity].
Qed.

(** X10.  The translation cache is keyed by the lower-cased name alone:
    once [translateWithCache] has returned a text for a name, every later
    call for a name with the same lower-cased form returns that text,
    whatever non-empty description it is given, and changes nothing. *)
Theorem cache_keyed_by_name (n n' t t' v : jstring) (w w' : World) :
  translateWithCache n t w = (Returned (Some v), w') ->
  toLowerCase n' = toLowerCase n ->
  t' <> [] ->
  translateWithCache n' t' w' = (Returned (Some v), w').
Proof.
  intros R Hn Ht'.
  assert (Hc : dictTruthy (translationCache w') (toLowerCase n) = Some v).
  { destruct (translateWithCache_cases n t w)
      as [[Ht R'] | [(Ht & c & Hc & R') | [(Ht & Hc & Hs & R')
                                          | (Ht & Hc & Hs & R')]]];
      rewrite R' in R; inversion R as [[H1 H2]]; clear R.
    - subst. exact Hc.
    - destruct (simpleTranslate_proper Ht Hs) as [N _]. try subst v.
      try subst w'. cbn [translationCache withTranslationCache].
      apply dictTruthy_dictSet. exact N. }
  apply translateWithCache_hit; [exact Ht' |]. rewrite Hn. exact Hc.
Qed.

Lemma cache_keyed_by_name_witness :
  translateWithCache (s2j "A/X") (s2j "another description")
    (snd (translateWithCache (s2j "a/x") (s2j "fast tool") exampleWorld))
  = (Returned (Some (s2j "快速 工具")),
     snd (translateWithCache (s2j "a/x") (s2j "fast tool") exampleWorld)).
Proof.
  apply (@cache_keyed_by_name (s2j "a/x") (s2j "A/X") (s2j "fast tool")
           (s2j "another description") (s2j "快速 工具") exampleWorld).
  - vm_compute. reflexivity.
  - vm_compute. reflexivity.
  - discriminate.
Defined.

Lemma objTruthy_text (d : Dict) (k : jstring) (v : JsValue) :
  existsb (jeqb k) prototypeNames = false ->
  objTruthy d k = Some v -> isText v.
Proof.
  intros Hk. unfold objTruthy, objGet.
  destruct (jeqb k (s2j "__proto__")) eqn:E.
  - apply jeqb_eq in E. subst k. vm_compute in Hk. discriminate.
  - destruct (dictGet d k) as [s|].
    + destruct s as [|c t]; simpl; [discriminate |].
      intros H. inversion H. exists (c :: t).
      split; [reflexivity | discriminate].
    + rewrite Hk. discriminate.
Qed.

Lemma curatedHit_text (summaries : Dict) (n : jstring) (v : JsValue) :
  inheritedName n = false -> curatedHit summaries n = Some v -> isText v.
Proof.
  unfold inheritedName. intros H. apply orb_false_iff in H.
  destruct H as [H1 H2]. unfold curatedHit.
  destruct (objTruthy summaries (toLowerCase n)) eqn:E.
  - intros X. inversion X. subst. exact (objTruthy_text _ _ H1 E).
  - destruct (1 <? length (split 47 n)); [| discriminate].
    apply objTruthy_text. exact H2.
Qed.

Lemma truthy_text (s : jstring) : truthy s = true -> isText (Str s).
Proof.
  intros H. exists s. split; [reflexivity | apply truthy_nonempty; exact H].
Qed.

Lemma noDescription_nonempty : noDescription <> [].
Proof. vm_compute. discriminate. Qed.

Lemma getChineseSummary_described (n d : jstring) (w : World) :
  exists v, getChineseSummary n d w = (Returned v, w) /\
            jsTruthy v = true /\ (inheritedName n = false -> isText v).
Proof.
  pose proof (getChineseSummary_run n d w) as R.
  destruct (getChineseSummary_truthy _ _ _ R) as [T _].
  eexists. split; [exact R |]. split; [exact T |].
  intros Hn.
  destruct (curatedHit (projectSummariesCache w) n) as [v|] eqn:E.
  - exact (curatedHit_text _ _ Hn E).
  - apply truthy_text. exact T.
Qed.

Lemma resolverStep_refl (w : World) : resolverStep w w.
Proof. repeat split. Qed.

Lemma translateWithCache_step (n t : jstring) (w : World) :
  exists r w', translateWithCache n t w = (Returned r, w') /\
               resolverStep w w' /\
               (forall v, r = Some v -> v <> []).
Proof.
  destruct (translateWithCache_cases n t w)
    as [[Ht R] | [(Ht & c & Hc & R) | [(Ht & Hc & Hs & R) | (Ht & Hc & Hs & R)]]];
    eexists _, _; (split; [exact R |]).
  - split; [apply resolverStep_refl | discriminate].
  - split; [apply resolverStep_refl |]. intros v H. inversion H; subst.
    destruct (dictTruthy_nonempty _ _ Hc) as (a & b & ->). discriminate.
  - split; [repeat split |]. intros v H. inversion H as [H1].
    apply (simpleTranslate_proper Ht Hs).
  - split; [| discriminate].
    destruct (openaiConfigured w); repeat split.
Qed.

Lemma getDetailedDescription_described (it : RepoInfo) (w : World) :
  exists v w', getDetailedDescription it w = (Returned v, w') /\
               jsTruthy v = true /\
               (inheritedName (name it) = false -> isText v) /\
               resolverStep w w'.
Proof.
  destruct (getChineseSummary_described (name it) (description it) w)
    as (s & R & Ts & Hs).
  rewrite (getDetailedDescription_run it R).
  destruct (jsTruthy s && negb (jsIs s (description it))
            && negb (jsIs s noDescription)).
  { exists s, w. split; [reflexivity |]. split; [exact Ts |].
    split; [exact Hs | apply resolverStep_refl]. }
  destruct (description it) as [|c d] eqn:D.
  { cbn [truthy]. eexists _, w. split; [reflexivity |].
    split; [reflexivity |].
    split; [intros _; apply truthy_text; reflexivity
           | apply resolverStep_refl]. }
  change (truthy (c :: d)) with true. cbv iota.
  destruct (translateWithCache_step (name it) (c :: d) w)
    as (r & w' & R' & St & Hr).
  unfold bind at 1. rewrite R'.
  destruct r as [[|a b]|]; eexists _, w'; (split; [reflexivity |]);
    (split; [reflexivity |]);
    (split; [intros _; apply truthy_text; reflexivity | exact St]).
Qed.

Lemma enrichRankingItem_total (it : RepoInfo) (w : World) :
  exists short detail w',
    enrichRankingItem it w = (Returned (mkItem it short detail), w') /\
    getChineseSummary (name it) (description it) w = (Returned short, w) /\
    described (mkItem it short detail) /\ resolverStep w w'.
Proof.
  destruct (getChineseSummary_described (name it) (description it) w)
    as (s & R & Ts & Hs).
  destruct (getDetailedDescription_described it w)
    as (d & w' & R' & Td & Hd & St).
  exists s, d, w'. unfold enrichRankingItem.
  rewrite (bind_run _ R), (bind_run _ R').
  split; [reflexivity |]. split; [exact R |].
  split; [| exact St].
  split; [exact Ts |]. split; [exact Td |].
  intros Hn. split; [apply Hs | apply Hd]; exact Hn.
Qed.

(** X11.  [enrichRankingItem] returns from every world an entry that keeps
    the fields of the item and has two descriptions, both truthy; the short
    one is what [getChineseSummary] gives.  The two descriptions are texts
    that are not empty, unless the lower-cased name of the repository or
    its lower-cased last part is the name of a property of
    [Object.prototype], when a description can be the inherited value.
    Of the world the call changes the translation cache and the requests
    handed over, at most: no file, not the console, not the curated
    summaries. *)
Theorem enriched_item (it : RepoInfo) (w : World) :
  exists entry w',
    enrichRankingItem it w = (Returned entry, w') /\
    item entry = it /\
    getChineseSummary (name it) (description it) w
    = (Returned (chineseDesc entry), w) /\
    jsTruthy (chineseDesc entry) = true /\
    jsTruthy (detailedDesc entry) = true /\
    (inheritedName (name it) = false ->
     isText (chineseDesc entry) /\ isText (detailedDesc entry)) /\
    resolverStep w w'.
Proof.
  destruct (enrichRankingItem_total it w)
    as (s & d & w' & R & G & (T1 & T2 & T3) & St).
  exists (mkItem it s d), w'. split; [exact R |]. split; [reflexivity |].
  split; [exact G |]. split; [exact T1 |]. split; [exact T2 |].
  split; [exact T3 | exact St].
Qed.

(** ** The builder: the cache file and the three lists *)

Lemma loadTranslationCache_run (w : World) :
  exists w',
    loadTranslationCache w = (Returned tt, w') /\
    translationCache w' = loadedFrom (cacheFile w) (translationCache w) /\
    cacheFile w' = cacheFile w /\
    cacheWrite w' = cacheWrite w /\
    projectSummariesCache w' = projectSummariesCache w /\
    dataDir w' = dataDir w /\ clock w' = clock w /\ ticks w' = ticks w.
Proof.
  unfold loadTranslationCache, tryCatch, bind, getWorld, readCacheFile.
  destruct (cacheFile w) eqn:Hc; simpl; try rewrite Hc; simpl;
    eexists; (split; [reflexivity |]); simpl; rewrite ?Hc; auto 10.
Qed.

Lemma returning_ret (A : Type) (a : A) (P : A -> Prop) :
  P a -> returning (ret a) P.
Proof. intros H w. exists a, w. split; [reflexivity | exact H]. Qed.

Lemma returning_bind (A B : Type) (m : M A) (k : A -> M B)
      (P : A -> Prop) (Q : B -> Prop) :
  returning m P -> (forall a, P a -> returning (k a) Q) ->
  returning (bind m k) Q.
Proof.
  intros Hm Hk w. destruct (Hm w) as (a & w1 & E1 & Pa).
  destruct (Hk a Pa w1) as (b & w2 & E2 & Qb).
  exists b, w2. split; [rewrite (bind_run _ E1); exact E2 | exact Qb].
Qed.

Lemma quiet_returning (A : Type) (m : M A) :
  quiet m -> returning m (fun _ => True).
Proof.
  intros H w. destruct (H w) as (a & w' & E & _). exists a, w'. auto.
Qed.

Lemma returning_mapM (A B : Type) (f : A -> M B) (Q : A -> B -> Prop)
      (l : list A) :
  (forall x, In x l -> returning (f x) (Q x)) ->
  returning (mapM f l) (Forall2 Q l).
Proof.
  induction l as [|x l IH]; intros Hf; cbn [mapM].
  - apply returning_ret. constructor.
  - eapply returning_bind; [apply Hf; left; reflexivity |].
    intros y Hy.
    eapply returning_bind; [apply IH; intros; apply Hf; right; assumption |].
    intros ys Hys. apply returning_ret. constructor; assumption.
Qed.

Lemma calculateRanking_wellFormed (historyData : list HistoryItem) :
  Forall wellFormed (calculateRanking historyData).
Proof.
  apply Forall_forall. intros r Hr. apply ranking_incl in Hr.
  revert r Hr. apply Forall_forall. apply Forall_map.
  unfold aggregate. rewrite aggregate_visits.
  generalize (visits historyData).
  assert (G : forall l m, Forall (fun kv => wellFormed (snd kv)) m ->
              Forall (fun kv => wellFormed (snd kv))
                     (fold_left (fun m de => visit (fst de) m (snd de)) l m)).
  { induction l as [|[d e] l IH]; intros m Hm; simpl; auto.
    apply IH. apply visit_wellFormed. exact Hm. }
  intros l. apply G. constructor.
Qed.

Lemma calculateRanking_NoDup (historyData : list HistoryItem) :
  NoDup (map name (calculateRanking historyData)).
Proof.
  unfold calculateRanking. rewrite <- firstn_map. apply NoDup_firstn.
  eapply Permutation_NoDup; [symmetry; apply ranking_names |].
  apply keepFirst_NoDup.
Qed.

Lemma enriched_list (historyData : list HistoryItem) :
  returning (mapM enrichRankingItem (calculateRanking historyData)) soundList.
Proof.
  intros w.
  destruct (@returning_mapM _ _ enrichRankingItem
              (fun it e => item e = it /\ described e)
              (calculateRanking historyData)) with (w := w)
    as (ys & w' & R & F).
  { intros it _ w0.
    destruct (enrichRankingItem_total it w0) as (s & d & w1 & R & _ & Hd & _).
    eexists _, _. split; [exact R |]. split; [reflexivity | exact Hd]. }
  exists ys, w'. split; [exact R |].
  assert (E : map item ys = calculateRanking historyData).
  { clear R. induction F as [|it e l ys' (H & _) _ IH]; simpl;
      [reflexivity | rewrite H, IH; reflexivity]. }
  unfold soundList. split; [| split; [| split]].
  - rewrite <- (length_map item), E. unfold calculateRanking.
    apply firstn_le_length.
  - rewrite E. unfold calculateRanking.
    apply StronglySorted_firstn. apply sorted_ranking.
  - rewrite <- (map_map item name), E. apply calculateRanking_NoDup.
  - pose proof (calculateRanking_wellFormed historyData) as W.
    rewrite <- E in W. clear E R.
    induction F as [|it e l ys' (H & Hd) _ IH]; constructor.
    + simpl in W. inversion W; subst. auto.
    + apply IH. simpl in W. inversion W; assumption.
Qed.

(** X13.  From every world [generateRankingData] returns three lists, and
    each of them has at most ten entries, in ranking order (more
    occurrences first, then more stars), with no repository twice; every
    entry has a non-empty name, a count of at least one, and a short and a
    detailed description that are truthy: texts that are not empty,
    unless the lower-cased name of the repository or its lower-cased last
    part is the name of a property of [Object.prototype]. *)
Theorem ranking_lists (w : World) :
  exists rankingData w',
    generateRankingData w = (Returned rankingData, w') /\
    soundList (r_week rankingData) /\
    soundList (r_month rankingData) /\
    soundList (r_quarter rankingData).
Proof.
  rewrite generateRankingData_split.
  assert (E : returning
                (loadTranslationCache ;;;
                 weekData <- readHistoryData config.week ;;
                 monthData <- readHistoryData config.month ;;
                 quarterData <- readHistoryData config.quarter ;;
                 weekRankingWithCN <-
                   mapM enrichRankingItem (calculateRanking weekData) ;;
                 monthRankingWithCN <-
                   mapM enrichRankingItem (calculateRanking monthData) ;;
                 quarterRankingWithCN <-
                   mapM enrichRankingItem (calculateRanking quarterData) ;;
                 ret (mkRanking weekRankingWithCN monthRankingWithCN
                                quarterRankingWithCN))
                (fun r => soundList (r_week r) /\ soundList (r_month r)
                          /\ soundList (r_quarter r))).
  { eapply returning_bind;
      [apply quiet_returning, quiet_loadTranslationCache |]. intros _ _.
    do 3 (eapply returning_bind;
          [apply quiet_returning, quiet_readHistoryData |]; intros ? _).
    do 3 (eapply returning_bind; [apply enriched_list |]; intros ? ?).
    apply returning_ret. simpl. auto. }
  destruct (E w) as (r & w1 & R & H).
  rewrite (bind_run _ R).
  rewrite (bind_run _ (saveTranslationCache_run w1)).
  rewrite (bind_run _ (writeRanking_run r (afterCacheWrite w1))).
  eexists r, _. split; [reflexivity | exact H].
Qed.

(** ** The report dates *)

Lemma sortWith_ascending (l : list jstring) :
  StronglySorted (fun a b => jleb a b = true) (sortWith defaultCompare l).
Proof.
  apply StronglySorted_impl with (R := cmpLe defaultCompare).
  - intros a b. apply defaultCompare_jleb.
  - apply sortWith_sorted; [apply defaultCompare_total | apply defaultCompare_trans].
Qed.

Lemma sortWith_descending (l : list jstring) :
  StronglySorted (fun a b => jleb b a = true) (rev (sortWith defaultCompare l)).
Proof.
  apply StronglySorted_rev with (R := fun a b => jleb a b = true).
  apply sortWith_ascending.
Qed.

Lemma sorted_rev_perm (l : list jstring) :
  Permutation (rev (sortWith defaultCompare l)) l.
Proof.
  rewrite <- Permutation_rev. symmetry.
  apply sortWith_perm.
Qed.

Lemma datedMatch_shape (prefix suffix s d : jstring) :
  datedMatch prefix suffix s = Some d -> dateShape d = true.
Proof.
  induction s as [|c s IH].
  - cbn [datedMatch]. unfold datedHere.
    destruct (_ && _ && _) eqn:E; [| discriminate].
    intros H. inversion H; subst.
    apply andb_true_iff in E. destruct E as [E _].
    apply andb_true_iff in E. destruct E as [_ E]. exact E.
  - cbn [datedMatch]. unfold datedHere at 1.
    destruct (_ && _ && _) eqn:E; [| exact IH].
    intros H. inversion H; subst.
    apply andb_true_iff in E. destruct E as [E _].
    apply andb_true_iff in E. destruct E as [_ E]. exact E.
Qed.

Lemma matchedDates_count (d : jstring) (files : list jstring) :
  length (filter (jeqb d) (matchedDates files))
  = length (filter (fun file => match htmlMatch file with
                                | Some d' => jeqb d d'
                                | None => false
                                end) files).
Proof.
  unfold matchedDates. induction files as [|f files IH]; [reflexivity |].
  cbn [flat_map filter]. rewrite filter_app, length_app, IH.
  destruct (htmlMatch f) as [d'|]; [| reflexivity].
  cbn [filter]. destruct (jeqb d d'); reflexivity.
Qed.

Lemma count_In (d : jstring) (l : list jstring) :
  In d l <-> 0 < length (filter (jeqb d) l).
Proof.
  induction l as [|x l IH]; simpl; [lia |].
  destruct (jeqb d x) eqn:E; simpl.
  - apply jeqb_eq in E. split; [lia | auto].
  - apply jeqb_neq in E. rewrite IH. split; [intros [H | H] | ]; auto; congruence.
Qed.

Lemma count_filter_In (A : Type) (p : A -> bool) (l : list A) :
  0 < length (filter p l) <-> exists x, In x l /\ p x = true.
Proof.
  split.
  - destruct (filter p l) as [|x r] eqn:E; simpl; [lia |]. intros _.
    exists x. apply filter_In. rewrite E. left. reflexivity.
  - intros (x & Hx). apply filter_In in Hx.
    destruct (filter p l); [destruct Hx | simpl; lia].
Qed.

Lemma available_sorted (reports : Listing) :
  StronglySorted (fun a b => jleb b a = true)
                 (fst (getAllAvailableDates reports)).
Proof.
  destruct reports as [| |names]; try constructor.
  apply sortWith_descending.
Qed.

Lemma available_shaped (reports : Listing) :
  Forall (fun d => dateShape d = true) (fst (getAllAvailableDates reports)).
Proof.
  destruct reports as [| |names]; try constructor.
  cbn [getAllAvailableDates fst]. apply Forall_forall. intros d Hd.
  apply (Permutation_in _ (sorted_rev_perm _)) in Hd.
  unfold matchedDates in Hd. apply in_flat_map in Hd.
  destruct Hd as (f & _ & Hd).
  destruct (htmlMatch f) as [d'|] eqn:E; [| destruct Hd].
  destruct Hd as [<- | []]. eapply datedMatch_shape. exact E.
Qed.

(** X14.  The dates [getAllAvailableDates] returns are in descending
    order and have the shape of a day key; a date is there once for every
    file of the reports directory that passes the filter and holds it, so
    the same date can come more than once: nothing removes repetitions.  A
    directory that is missing or cannot be listed gives no date and one
    line on the console, and nothing is raised. *)
Theorem available_dates (reports : Listing) :
  let dates := fst (getAllAvailableDates reports) in
  StronglySorted (fun a b => jleb b a = true) dates /\
  Forall (fun d => dateShape d = true) dates /\
  (forall d, length (filter (jeqb d) dates)
             = length (filter (reportOf d) (listed reports))) /\
  (forall d, In d dates
             <-> exists file, In file (listed reports) /\ reportOf d file = true) /\
  (snd (getAllAvailableDates reports) = [] <-> exists names, reports = Names names).
Proof.
  assert (C : forall d, length (filter (jeqb d) (fst (getAllAvailableDates reports)))
                        = length (filter (reportOf d) (listed reports))).
  { intros d. destruct reports as [| |names]; try reflexivity.
    cbn [getAllAvailableDates fst listed].
    rewrite (Permutation_length (filter_perm _ (sorted_rev_perm _))).
    rewrite matchedDates_count, filter_filter. reflexivity. }
  cbv zeta. split; [| split; [| split; [exact C | split]]].
  - apply available_sorted.
  - apply available_shaped.
  - intros d. rewrite count_In, C. apply count_filter_In.
  - destruct reports as [| |names]; simpl; split;
      try discriminate; try (intros (n & H); discriminate); eauto.
Qed.

(** X15.  [getRecentDates] returns the first seven of the available dates,
    or all of them when there are fewer: the dates it leaves out are not
    later than any it returns.  The console gets the lines of
    [getAllAvailableDates]. *)
Theorem recent_dates (reports : Listing) :
  let all := fst (getAllAvailableDates reports) in
  let recent := fst (getRecentDates reports) in
  length recent = Nat.min 7 (length all) /\
  (exists older, all = recent ++ older /\
     forall r o, In r recent -> In o older -> jleb o r = true) /\
  snd (getRecentDates reports) = snd (getAllAvailableDates reports).
Proof.
  cbv zeta. unfold getRecentDates.
  destruct (getAllAvailableDates reports) as [all lines] eqn:E.
  cbn [fst snd]. split; [apply length_firstn |]. split; [| reflexivity].
  exists (skipn configMore.recentDays all).
  split; [symmetry; apply firstn_skipn |].
  pose proof (available_sorted reports) as S. rewrite E in S. cbn [fst] in S.
  rewrite <- (firstn_skipn configMore.recentDays all) in S.
  intros r o Hr Ho. exact (@StronglySorted_app_inv _ _ _ _ S r o Hr Ho).
Qed.

(** ** The year options and the history list *)

Lemma fold_left_append (A : Type) (f : A -> jstring) (l : list A)
      (acc : jstring) :
  fold_left (fun html x => html ++ f x) l acc = acc ++ concat (map f l).
Proof.
  revert acc. induction l as [|x l IH]; intros acc; simpl.
  - rewrite app_nil_r. reflexivity.
  - rewrite IH, app_assoc. reflexivity.
Qed.

Lemma StronglySorted_strict (A : Type) (R : A -> A -> Prop) (l : list A) :
  StronglySorted R l -> NoDup l ->
  StronglySorted (fun a b => R a b /\ a <> b) l.
Proof.
  induction 1 as [|x l Hs IH Hx]; intros Hn; constructor;
    inversion Hn; subst; auto.
  apply Forall_forall. intros y Hy. rewrite Forall_forall in Hx.
  split; [auto |]. intros ->. contradiction.
Qed.

(** X16.  [getYearOptions] writes the placeholder option and after it one
    option for every year, where the years are the first four units of the
    dates, each once, in strictly descending order.  Without dates, or
    with an empty list, the placeholder is all there is. *)
Theorem year_options (dates : list jstring) :
  let years := yearsOf dates in
  getYearOptions (Some dates)
  = yearPlaceholder ++ concat (map yearOption years) /\
  StronglySorted (fun a b => jleb b a = true /\ a <> b) years /\
  (forall y, In y years <-> exists d, In d dates /\ y = substring0 4 d) /\
  getYearOptions None = getYearOptions (Some []).
Proof.
  cbv zeta. split; [| split; [| split; [| reflexivity]]].
  - destruct dates as [|d dates]; [reflexivity |].
    unfold getYearOptions. apply fold_left_append.
  - apply (@StronglySorted_strict _ (fun a b => jleb b a = true));
      [apply sortWith_descending |].
    unfold yearsOf. apply NoDup_rev.
    eapply Permutation_NoDup; [apply sortWith_perm | apply keepFirst_NoDup].
  - intros y. unfold yearsOf. rewrite <- in_rev.
    split.
    + intros H. apply (Permutation_in _ (Permutation_sym (sortWith_perm _ _))) in H.
      apply (proj1 (keepFirst_In _ _)) in H. apply in_map_iff in H.
      destruct H as (d & <- & Hd). eauto.
    + intros (d & Hd & ->).
      apply (Permutation_in _ (sortWith_perm _ _)).
      apply (proj2 (keepFirst_In _ _)). apply in_map. exact Hd.
Qed.

Lemma parseInt10_twoDigits (a b : N) :
  isDigit a = true -> isDigit b = true ->
  parseInt10 (Some ([a; b] : jstring)) = Some (Z.of_N (twoDigits a b)).
Proof.
  intros Ha Hb.
  destruct (isDigit_cases _ Ha) as [-> | [-> | [-> | [-> | [-> | [-> | [-> |
    [-> | [-> | ->]]]]]]]]];
  destruct (isDigit_cases _ Hb) as [-> | [-> | [-> | [-> | [-> | [-> | [-> |
    [-> | [-> | ->]]]]]]]]]; reflexivity.
Qed.

Lemma split_date (y1 y2 y3 y4 m1 m2 d1 d2 : N) :
  dateShape [y1; y2; y3; y4; 45; m1; m2; 45; d1; d2]%N = true ->
  split 45 [y1; y2; y3; y4; 45; m1; m2; 45; d1; d2]%N
  = [[y1; y2; y3; y4]; [m1; m2]; [d1; d2]] /\
  isDigit m1 = true /\ isDigit m2 = true /\
  isDigit d1 = true /\ isDigit d2 = true.
Proof.
  unfold dateShape. rewrite !andb_true_iff.
  intros [[[[[[[[[Y1 Y2] Y3] Y4] _] M1] M2] _] D1] D2].
  assert (N : forall c, isDigit c = true -> (c =? 45)%N = false).
  { intros c Hc. apply N.eqb_neq.
    unfold isDigit in Hc. rewrite andb_true_iff, !N.leb_le in Hc. lia. }
  split; [| tauto].
  cbn [split]. rewrite (N _ Y1), (N _ Y2), (N _ Y3), (N _ Y4), (N _ M1),
    (N _ M2), (N _ D1), (N _ D2). reflexivity.
Qed.

(** X17.  For a date of the shape of a day key the item of the history
    list links to [daily_<date>.html] and shows the year as written, then
    the month and the day as numbers, without a leading zero. *)
Theorem history_item_of_date (y1 y2 y3 y4 m1 m2 d1 d2 : N) :
  let date := [y1; y2; y3; y4; 45; m1; m2; 45; d1; d2]%N in
  dateShape date = true ->
  historyItem date
  = s2j "<li><a href=" ++ dq ++ s2j "daily_" ++ date ++ s2j ".html" ++ dq
        ++ s2j ">" ++ [y1; y2; y3; y4] ++ s2j "年"
        ++ showN (twoDigits m1 m2) ++ s2j "月"
        ++ showN (twoDigits d1 d2) ++ s2j "日" ++ s2j "</a></li>".
Proof.
  intros date H. destruct (split_date _ _ _ _ _ _ _ _ H)
    as (S & M1 & M2 & D1 & D2).
  unfold historyItem. cbv zeta. subst date. rewrite S.
  unfold at_. cbn [nth_error].
  rewrite (@parseInt10_twoDigits _ _ M1 M2), (@parseInt10_twoDigits _ _ D1 D2).
  unfold showNumber, showString.
  assert (P : forall n, (Z.of_N n <? 0)%Z = false)
    by (intros n; apply Z.ltb_ge; lia).
  rewrite !P, !N2Z.id. rewrite <- !app_assoc. reflexivity.
Qed.

Lemma history_item_of_date_witness :
  dateShape (s2j "2026-02-07") = true /\
  historyItem (s2j "2026-02-07")
  = s2j "<li><a href=" ++ dq ++ s2j "daily_2026-02-07.html" ++ dq
        ++ s2j ">2026年2月7日</a></li>".
Proof.
  split; [reflexivity |].
  change (s2j "2026-02-07") with [50; 48; 50; 54; 45; 48; 50; 45; 48; 55]%N.
  rewrite (@history_item_of_date 50 48 50 54 48 50 48 55);
    [| vm_compute]; reflexivity.
Defined.

(** X18.  The history list of the side bar, as the page generator builds
    it from the reports directory: one item for each of the recent dates,
    at most seven, each for a date of the shape of a day key; the line that
    says there is no history when no report is there. *)
Theorem sidebar_history (reports : Listing) :
  let recent := fst (getRecentDates reports) in
  let html := generateHistoryDatesHTML (Some recent) in
  (recent = [] -> html = noHistory) /\
  (recent <> [] -> html = concat (map historyItem recent)) /\
  length recent <= 7 /\
  Forall (fun d => dateShape d = true) recent.
Proof.
  cbv zeta. split; [| split; [| split]].
  - intros ->. reflexivity.
  - destruct (fst (getRecentDates reports)) as [|d l]; [congruence |].
    intros _. unfold generateHistoryDatesHTML.
    rewrite fold_left_append. reflexivity.
  - unfold getRecentDates.
    destruct (getAllAvailableDates reports) as [all lines].
    cbn [fst]. apply firstn_le_length.
  - unfold getRecentDates.
    pose proof (available_shaped reports) as F.
    destruct (getAllAvailableDates reports) as [all lines].
    cbn [fst] in *. apply Forall_forall. intros d Hd.
    apply In_firstn in Hd. rewrite Forall_forall in F. auto.
Qed.

(** ** The latest report and the dates to rebuild *)

(** X19.  [findLatestMarkdownFile] returns a Markdown report of the
    directory whose name no other Markdown report of the directory comes
    after, in the order of the code units; it returns nothing exactly when
    the directory has no Markdown report, is missing or cannot be
    listed. *)
Theorem latest_markdown (reports : Listing) :
  (forall f, fst (findLatestMarkdownFile reports) = Some f ->
     In f (listed reports) /\ isMarkdownReport f = true /\
     forall g, In g (listed reports) -> isMarkdownReport g = true ->
               jleb g f = true) /\
  (fst (findLatestMarkdownFile reports) = None <->
   forall g, In g (listed reports) -> isMarkdownReport g = false).
Proof.
  destruct reports as [| |names]; cbn [findLatestMarkdownFile fst listed].
  1,2: split; [discriminate | split; [intros _ g [] | reflexivity]].
  pose proof (sortWith_descending (filter isMarkdownReport names)) as S.
  pose proof (sorted_rev_perm (filter isMarkdownReport names)) as P.
  destruct (rev (sortWith defaultCompare (filter isMarkdownReport names)))
    as [|latest rest]; cbn [fst].
  - split; [discriminate |]. split; [| reflexivity]. intros _ g Hg.
    destruct (isMarkdownReport g) eqn:E; [| reflexivity].
    apply Permutation_nil in P.
    assert (H : In g (filter isMarkdownReport names))
      by (apply filter_In; auto).
    rewrite P in H. destruct H.
  - split.
    + intros f H. inversion H; subst f.
      assert (H1 : In latest (filter isMarkdownReport names))
        by (apply (Permutation_in _ P); left; reflexivity).
      apply filter_In in H1. destruct H1 as [H1 H2].
      split; [exact H1 | split; [exact H2 |]].
      intros g Hg Eg.
      assert (H3 : In g (latest :: rest)).
      { apply (Permutation_in _ (Permutation_sym P)).
        apply filter_In. auto. }
      destruct H3 as [<- | H3]; [apply jleb_refl |].
      inversion S as [|? ? _ F]; subst. rewrite Forall_forall in F. auto.
    + split; [discriminate |]. intros H.
      assert (H1 : In latest (filter isMarkdownReport names))
        by (apply (Permutation_in _ P); left; reflexivity).
      apply filter_In in H1. destruct H1 as [H1 H2].
      rewrite (H _ H1) in H2. discriminate.
Qed.

Lemma addKey_NoDup (ks : list jstring) (k : jstring) :
  NoDup ks -> NoDup (addKey ks k).
Proof.
  intros H. unfold addKey. destruct (existsb (jeqb k) ks) eqn:E; [exact H |].
  apply NoDup_app; [exact H | repeat constructor; intros [] |].
  intros x Hx [<- | []].
  apply existsb_jeqb_In in Hx. congruence.
Qed.

Lemma addKey_In (ks : list jstring) (k x : jstring) :
  In x (addKey ks k) <-> In x ks \/ x = k.
Proof.
  unfold addKey. destruct (existsb (jeqb k) ks) eqn:E.
  - apply existsb_jeqb_In in E. split; [auto | intros [H | ->]; auto].
  - rewrite in_app_iff. simpl. intuition.
Qed.

Lemma addDates_spec (matcher : jstring -> option jstring)
      (files acc : list jstring) :
  NoDup acc ->
  NoDup (addDates matcher acc files) /\
  forall d, In d (addDates matcher acc files)
            <-> In d acc \/ exists f, In f files /\ matcher f = Some d.
Proof.
  revert acc. induction files as [|f files IH]; intros acc Hn.
  - split; [exact Hn |]. intros d. simpl.
    split; [auto | intros [H | (f & [] & _)]; exact H].
  - unfold addDates in *. cbn [fold_left].
    destruct (matcher f) as [d'|] eqn:E.
    + destruct (IH (addKey acc d') (addKey_NoDup d' Hn)) as [N I].
      split; [exact N |]. intros d. rewrite I, addKey_In. split.
      * intros [[H | ->] | (g & Hg & Mg)]; [auto | |];
          right; [exists f | exists g]; simpl; auto.
      * intros [H | (g & [<- | Hg] & Mg)]; [auto | |].
        -- left. right. congruence.
        -- right. eauto.
    + destruct (IH acc Hn) as [N I].
      split; [exact N |]. intros d. rewrite I. split.
      * intros [H | (g & Hg & Mg)]; [auto |]. right. exists g. simpl. auto.
      * intros [H | (g & [<- | Hg] & Mg)]; [auto | congruence |].
        right. eauto.
Qed.

Lemma addDates_shaped (matcher : jstring -> option jstring)
      (files acc : list jstring) :
  (forall f d, matcher f = Some d -> dateShape d = true) ->
  Forall (fun d => dateShape d = true) acc ->
  NoDup acc ->
  Forall (fun d => dateShape d = true) (addDates matcher acc files).
Proof.
  intros Hm Ha Hn. apply Forall_forall. intros d Hd.
  apply (proj2 (addDates_spec matcher files Hn)) in Hd.
  destruct Hd as [Hd | (f & _ & Hf)]; [| eauto].
  rewrite Forall_forall in Ha. auto.
Qed.

Lemma filter_exists (p : jstring -> bool) (q : jstring -> option jstring)
      (d : jstring) (l : list jstring) :
  (exists f, In f (filter p l) /\ q f = Some d)
  <-> exists f, In f l /\
                p f && match q f with
                       | Some d' => jeqb d d'
                       | None => false
                       end = true.
Proof.
  split.
  - intros (f & Hf & Hq). apply filter_In in Hf. destruct Hf as [Hf Hp].
    exists f. split; [exact Hf |]. rewrite Hp, Hq. apply jeqb_refl.
  - intros (f & Hf & H). apply andb_true_iff in H. destruct H as [Hp H].
    destruct (q f) as [d'|] eqn:E; [| discriminate].
    apply jeqb_eq in H. subst d'.
    exists f. split; [apply filter_In; auto | exact E].
Qed.

(** X20.  When both directories can be listed (a missing one counts as
    empty) [getAllDatesToProcess] returns, in strictly ascending order and
    so each once, the day keys held by the names of the trending files of
    the data directory and of the Markdown reports of the reports
    directory.  It has no guard of its own: it throws exactly when a
    directory that exists cannot be listed. *)
Theorem dates_to_process (dataListing reportsListing : Listing) :
  (forall dates,
     getAllDatesToProcess dataListing reportsListing = Returned dates ->
     StronglySorted (fun a b => jleb a b = true /\ a <> b) dates /\
     Forall (fun d => dateShape d = true) dates /\
     forall d, In d dates <->
       (exists f, In f (listed dataListing) /\ trendingDate d f = true) \/
       (exists f, In f (listed reportsListing) /\ markdownDate d f = true)) /\
  ((exists e, getAllDatesToProcess dataListing reportsListing = Thrown e)
   <-> dataListing = Unlistable \/ reportsListing = Unlistable).
Proof.
  set (dates1 := addDates fileMatch [] (filter isTrendingFile (listed dataListing))).
  set (dates2 := addDates mdMatch dates1
                          (filter isMarkdownReport (listed reportsListing))).
  assert (R : dataListing <> Unlistable -> reportsListing <> Unlistable ->
              getAllDatesToProcess dataListing reportsListing
              = Returned (sortWith defaultCompare dates2)).
  { unfold dates2, dates1.
    destruct dataListing, reportsListing; try congruence; reflexivity. }
  destruct (addDates_spec fileMatch (filter isTrendingFile (listed dataListing))
                          (NoDup_nil _)) as [N1 I1].
  fold dates1 in N1, I1.
  destruct (addDates_spec mdMatch (filter isMarkdownReport (listed reportsListing))
                          N1) as [N2 I2].
  fold dates2 in N2, I2.
  split.
  - intros dates H.
    assert (D : dataListing <> Unlistable)
      by (intros ->; discriminate).
    assert (D' : reportsListing <> Unlistable)
      by (intros ->; destruct dataListing; discriminate).
    rewrite (R D D') in H. inversion H; subst dates. clear H.
    split; [| split].
    + apply (@StronglySorted_strict _ (fun a b => jleb a b = true));
        [apply sortWith_ascending |].
      eapply Permutation_NoDup; [apply sortWith_perm | exact N2].
    + apply Forall_forall. intros d Hd.
      apply (Permutation_in _ (Permutation_sym (sortWith_perm _ _))) in Hd.
      apply I2 in Hd. destruct Hd as [Hd | (f & _ & Hf)].
      * apply I1 in Hd. destruct Hd as [[] | (f & _ & Hf)].
        eapply fileMatch_shape; eauto.
      * eapply datedMatch_shape; eauto.
    + intros d. unfold trendingDate, markdownDate.
      assert (I1' : In d dates1 <->
                    exists f, In f (filter isTrendingFile (listed dataListing))
                              /\ fileMatch f = Some d).
      { rewrite I1. simpl. tauto. }
      rewrite <- !filter_exists, <- I1', <- I2.
      split; apply Permutation_in;
        [apply Permutation_sym |]; apply sortWith_perm.
  - split.
    + intros (e & H).
      destruct dataListing; [| auto |];
        (destruct reportsListing; [discriminate | auto | discriminate]).
    + intros [-> | ->]; exists FsError; [reflexivity |].
      destruct dataListing; reflexivity.
Qed.

(** ** [escapeHTML] *)

Lemma escapeUnit_cases (c : N) :
  (c = 38%N /\ escapeUnit c = [38; 97; 109; 112; 59]%N) \/
  (c = 60%N /\ escapeUnit c = [38; 108; 116; 59]%N) \/
  (c = 62%N /\ escapeUnit c = [38; 103; 116; 59]%N) \/
  (c = 34%N /\ escapeUnit c = [38; 113; 117; 111; 116; 59]%N) \/
  (c = 39%N /\ escapeUnit c = [38; 35; 51; 57; 59]%N) \/
  (isSpecial c = false /\ escapeUnit c = [c]).
Proof.
  unfold escapeUnit, isSpecial. cbn [existsb].
  destruct (N.eqb_spec c 38) as [-> | H1]; [left; split; reflexivity |].
  destruct (N.eqb_spec c 60) as [-> | H2]; [right; left; split; reflexivity |].
  destruct (N.eqb_spec c 62) as [-> | H3];
    [right; right; left; split; reflexivity |].
  destruct (N.eqb_spec c 34) as [-> | H4];
    [right; right; right; left; split; reflexivity |].
  destruct (N.eqb_spec c 39) as [-> | H5];
    [right; right; right; right; left; split; reflexivity |].
  do 5 right. split; reflexivity.
Qed.

Lemma isSpecial_cases (c : N) :
  isSpecial c = true ->
  c = 38%N \/ c = 60%N \/ c = 62%N \/ c = 34%N \/ c = 39%N.
Proof.
  unfold isSpecial. cbn [existsb]. intros H.
  repeat (apply orb_true_iff in H; destruct H as [H | H];
          [apply N.eqb_eq in H; auto 10 |]).
  discriminate.
Qed.

Lemma escapeHTML_Some (s : jstring) :
  escapeHTML (Some s) = flat_map escapeUnit s.
Proof. destruct s; reflexivity. Qed.

Lemma escapeUnits_length (s : jstring) :
  length s <= length (flat_map escapeUnit s).
Proof.
  induction s as [|c s IH]; [reflexivity |].
  cbn [flat_map]. rewrite length_app.
  destruct (escapeUnit_cases c) as [[_ E] | [[_ E] | [[_ E] | [[_ E] |
    [[_ E] | [_ E]]]]]]; rewrite E; simpl; lia.
Qed.

Lemma escapeUnit_app_inj (c d : N) (x y : jstring) :
  escapeUnit c ++ x = escapeUnit d ++ y -> c = d /\ x = y.
Proof.
  destruct (escapeUnit_cases c) as [[Hc ->] | [[Hc ->] | [[Hc ->] | [[Hc ->] |
    [[Hc ->] | [Hc ->]]]]]];
  destruct (escapeUnit_cases d) as [[Hd ->] | [[Hd ->] | [[Hd ->] | [[Hd ->] |
    [[Hd ->] | [Hd ->]]]]]];
  cbn [app]; intros H; inversion H; subst; try (split; reflexivity);
    try discriminate.
Qed.

(** X21.  What [escapeHTML] returns has no less-than sign, greater-than
    sign, double quote or single quote; the only one of the five
    characters left in it is the ampersand.  It returns its argument as it
    is exactly when the argument has none of the five, so escaping a second
    time changes every text in which something was escaped. *)
Theorem escapeHTML_output (str : option jstring) :
  Forall (fun u => isSpecial u = true -> u = 38%N) (escapeHTML str) /\
  (forall s, str = Some s ->
     (escapeHTML str = s <-> forallb (fun c => negb (isSpecial c)) s = true) /\
     (escapeHTML (Some (escapeHTML str)) = escapeHTML str
      <-> escapeHTML str = s)).
Proof.
  assert (F : forall s, escapeHTML (Some s) = s
                        <-> forallb (fun c => negb (isSpecial c)) s = true).
  { intros s. rewrite escapeHTML_Some.
    induction s as [|c s IH]; [simpl; tauto |].
    cbn [flat_map forallb]. rewrite andb_true_iff, <- IH.
    pose proof (escapeUnits_length s) as L.
    destruct (escapeUnit_cases c) as [[Hc E] | [[Hc E] | [[Hc E] | [[Hc E] |
      [[Hc E] | [Hc E]]]]]]; rewrite E; cbn [app];
      try (subst c; split;
           [intros H; apply (f_equal (@length N)) in H; simpl in H; lia
           | intros [H _]; discriminate]).
    rewrite Hc. cbn [negb]. split.
    - intros H. inversion H as [H1]. rewrite H1.
      split; [reflexivity | exact H1].
    - intros [_ H]. rewrite H. reflexivity. }
  assert (S : forall s, Forall (fun u => isSpecial u = true -> u = 38%N)
                               (flat_map escapeUnit s)).
  { induction s as [|c s IH]; [constructor |].
    cbn [flat_map]. apply Forall_app. split; [| exact IH].
    destruct (escapeUnit_cases c) as [[Hc E] | [[Hc E] | [[Hc E] | [[Hc E] |
      [[Hc E] | [Hc E]]]]]]; rewrite E;
      repeat constructor; try (intros _; reflexivity);
      try (vm_compute; discriminate).
    intros H. congruence. }
  split.
  - destruct str as [s|]; [rewrite escapeHTML_Some; apply S | constructor].
  - intros s ->. split; [apply F |].
    rewrite F. split.
    + intros H. apply F.
      rewrite escapeHTML_Some in H.
      induction s as [|c s IH]; [reflexivity |].
      cbn [flat_map forallb] in *. rewrite forallb_app in H.
      apply andb_true_iff in H. destruct H as [H1 H2].
      rewrite (IH H2), andb_true_r.
      destruct (escapeUnit_cases c) as [[Hc E] | [[Hc E] | [[Hc E] | [[Hc E] |
        [[Hc E] | [Hc E]]]]]]; rewrite E in H1; subst;
        try (vm_compute in H1; discriminate).
      rewrite Hc. reflexivity.
    + intros H. rewrite H. apply F. exact H.
Qed.

(** X22.  [escapeHTML] loses nothing: two texts with the same escaped form
    are the same text. *)
Theorem escapeHTML_injective (s t : jstring) :
  escapeHTML (Some s) = escapeHTML (Some t) -> s = t.
Proof.
  rewrite !escapeHTML_Some. revert t.
  induction s as [|c s IH]; intros [|d t]; cbn [flat_map]; intros H.
  - reflexivity.
  - destruct (escapeUnit_cases d) as [[_ E] | [[_ E] | [[_ E] | [[_ E] |
      [[_ E] | [_ E]]]]]]; rewrite E in H; discriminate.
  - destruct (escapeUnit_cases c) as [[_ E] | [[_ E] | [[_ E] | [[_ E] |
      [[_ E] | [_ E]]]]]]; rewrite E in H; discriminate.
  - apply escapeUnit_app_inj in H. destruct H as [-> H].
    f_equal. apply IH. exact H.
Qed.

Lemma escapeHTML_injective_witness :
  s2j "a" ++ s2j "<b" = s2j "a<b".
Proof.
  apply (@escapeHTML_injective (s2j "a" ++ s2j "<b") (s2j "a<b")).
  reflexivity.
Defined.

(** ** The project card *)

Lemma unitCount_app (c : N) (a b : jstring) :
  unitCount c (a ++ b) = unitCount c a + unitCount c b.
Proof. unfold unitCount. rewrite filter_app, length_app. reflexivity. Qed.

Lemma escapeHTML_no_markup (c : N) (str : option jstring) :
  isSpecial c = true -> c <> 38%N -> unitCount c (escapeHTML str) = 0.
Proof.
  intros Hs Hc. destruct str as [s|]; [| reflexivity].
  rewrite escapeHTML_Some. induction s as [|x s IH]; [reflexivity |].
  cbn [flat_map]. rewrite unitCount_app, IH, Nat.add_0_r.
  apply isSpecial_cases in Hs.
  destruct (escapeUnit_cases x) as [[_ E] | [[_ E] | [[_ E] | [[_ E] |
    [[_ E] | [Hx E]]]]]]; rewrite E;
    try (destruct Hs as [-> | [-> | [-> | [-> | ->]]]];
         first [congruence | reflexivity]).
  unfold unitCount. cbn [filter].
  destruct (N.eqb_spec c x) as [-> | _]; [| reflexivity].
  destruct Hs as [-> | [-> | [-> | [-> | ->]]]]; discriminate.
Qed.

(** X23.  The markup of a project card is that of the template, whatever
    the data: the card has 30 less-than signs, 30 greater-than signs, 18
    double quotes and no single quote, for every name, summary, details,
    url, stars and rating, missing or not.  No field can open or close a
    tag or an attribute. *)
Theorem card_markup_fixed (projectData : ProjectData) :
  unitCount 60 (generateProjectCard projectData) = 30 /\
  unitCount 62 (generateProjectCard projectData) = 30 /\
  unitCount 34 (generateProjectCard projectData) = 18 /\
  unitCount 39 (generateProjectCard projectData) = 0.
Proof.
  unfold generateProjectCard. cbv zeta.
  repeat split; repeat rewrite unitCount_app;
    rewrite !escapeHTML_no_markup by (reflexivity || discriminate);
    vm_compute; reflexivity.
Qed.

(** ** The curated summaries: [loadProjectSummaries] *)

Lemma matchAtoms_once (a : Atom) (r : list Atom) (c : N) (s : jstring) :
  a_quant a = Once -> a_class a c = true ->
  matchAtoms (a :: r) (c :: s)
  = match matchAtoms r s with
    | Some (groups, tail) =>
      Some (if a_group a then [c] :: groups else groups, tail)
    | None => None
    end.
Proof.
  intros Hq Hc. cbn [matchAtoms run]. rewrite Hq, Hc. cbn [counts Nat.leb].
  cbn [firstSome skipn firstn].
  destruct (matchAtoms r s) as [[g t]|]; reflexivity.
Qed.

Lemma matchAtoms_once_fail (a : Atom) (r : list Atom) (c : N) (s : jstring) :
  a_quant a = Once -> a_class a c = false ->
  matchAtoms (a :: r) (c :: s) = None.
Proof.
  intros Hq Hc. cbn [matchAtoms run]. rewrite Hq, Hc. reflexivity.
Qed.

Lemma rev_seq_S (a n : nat) : rev (seq a (S n)) = (a + n) :: rev (seq a n).
Proof.
  rewrite seq_S, rev_app_distr. reflexivity.
Qed.

Lemma matchAtoms_greedy (a : Atom) (r : list Atom) (s : jstring)
      (groups : list jstring) (tail : jstring) :
  a_quant a = Star \/ (a_quant a = Plus /\ 1 <= run (a_class a) s) ->
  matchAtoms r (skipn (run (a_class a) s) s) = Some (groups, tail) ->
  matchAtoms (a :: r) s
  = Some (if a_group a then firstn (run (a_class a) s) s :: groups
          else groups, tail).
Proof.
  intros Hq Hm. cbn [matchAtoms].
  set (n := run (a_class a) s) in *.
  assert (C : exists l, counts (a_quant a) n = n :: l).
  { destruct Hq as [-> | [-> Hn]]; cbn [counts].
    - rewrite rev_seq_S. eauto.
    - destruct n as [|n]; [lia |]. rewrite rev_seq_S. eauto. }
  destruct C as [l ->]. cbn [firstSome]. rewrite Hm. reflexivity.
Qed.

Lemma matchAtoms_lazy (a : Atom) (r : list Atom) (s : jstring)
      (groups : list jstring) (tail : jstring) :
  a_quant a = LazyStar -> a_group a = false ->
  matchAtoms r s = Some (groups, tail) ->
  matchAtoms (a :: r) s = Some (groups, tail).
Proof.
  intros Hq Hg Hm. cbn [matchAtoms]. rewrite Hq, Hg. cbn [counts seq firstSome skipn].
  rewrite Hm. reflexivity.
Qed.

Lemma run_app (class : N -> bool) (x y : jstring) :
  forallb class x = true ->
  match y with
  | c :: _ => class c = false
  | [] => True
  end ->
  run class (x ++ y) = length x.
Proof.
  intros Hx Hy. induction x as [|c x IH]; cbn [app run length].
  - destruct y as [|c y]; [reflexivity | cbn [run]; rewrite Hy; reflexivity].
  - cbn [forallb] in Hx. apply andb_true_iff in Hx. destruct Hx as [H1 H2].
    rewrite H1, IH by exact H2. reflexivity.
Qed.

Lemma skipn_length_app (A : Type) (x y : list A) :
  skipn (length x) (x ++ y) = y.
Proof. induction x; simpl; auto. Qed.

Lemma firstn_length_app (A : Type) (x y : list A) :
  firstn (length x) (x ++ y) = x.
Proof. induction x; simpl; congruence. Qed.

(** The expression matches a section at its head and captures the name
    and the summary, when the text goes on with a newline or ends. *)
Lemma matchAtoms_section (name summary rest : jstring) :
  plainLine name = true -> plainLine summary = true ->
  match rest with
  | c :: _ => c = 10%N
  | [] => True
  end ->
  matchAtoms projectRegex (section name summary ++ rest)
  = Some ([name; summary], rest).
Proof.
  intros Hn Hs Hr. unfold section, projectRegex.
  change (s2j "### ") with [35; 35; 35; 32]%N.
  change (s2j "###") with [35; 35; 35]%N.
  change (s2j "* **一句话概括**：")
    with [42; 32; 42; 42; 19968; 21477; 35805; 27010; 25324; 42; 42; 65306]%N.
  change (s2j "**一句话概括**")
    with [42; 42; 19968; 21477; 35805; 27010; 25324; 42; 42]%N.
  cbn [literal map app]. rewrite <- !app_assoc. cbn [app].
  destruct name as [|n0 name]; [discriminate |].
  destruct summary as [|s0 summary]; [discriminate |].
  unfold plainLine in Hn, Hs.
  apply andb_true_iff in Hn. destruct Hn as [Hn0 Hn].
  apply andb_true_iff in Hs. destruct Hs as [Hs0 Hs].
  apply negb_true_iff in Hn0, Hs0.
  do 3 (rewrite matchAtoms_once by reflexivity).
  (* the white space after the three number signs *)
  set (after1 := (n0 :: name) ++ _).
  assert (R1 : run isWhite (32%N :: after1) = 1).
  { cbn [run]. change (isWhite 32) with true. cbv iota.
    unfold after1. cbn [app run]. rewrite Hn0. reflexivity. }
  (* the name *)
  set (after2 := 10%N :: _) in after1.
  assert (R2 : run notNewline after1 = length (n0 :: name)).
  { apply run_app; [exact Hn | reflexivity]. }
  (* the white space after the asterisk of the item *)
  set (after3 := 42%N :: 42%N :: _) in after2.
  assert (R3 : run isWhite (32%N :: after3) = 1) by reflexivity.
  (* no white space before the summary, then the summary *)
  set (after4 := (s0 :: summary) ++ rest) in after3.
  assert (R4 : run isWhite after4 = 0).
  { unfold after4. cbn [app run]. rewrite Hs0. reflexivity. }
  assert (R5 : run notNewline after4 = length (s0 :: summary)).
  { apply run_app; [exact Hs |].
    destruct rest as [|c rest]; [exact I | rewrite Hr; reflexivity]. }
  assert (M5 : matchAtoms [mkAtom notNewline Plus true] after4
               = Some ([s0 :: summary], rest)).
  { rewrite (@matchAtoms_greedy _ [] after4 [] rest).
    - cbn [a_group a_class]. rewrite R5. unfold after4.
      rewrite firstn_length_app. reflexivity.
    - right. split; [reflexivity |]. cbn [a_class]. rewrite R5. simpl. lia.
    - cbn [a_class matchAtoms]. rewrite R5. unfold after4.
      rewrite skipn_length_app. reflexivity. }
  assert (M4 : matchAtoms [mkAtom isWhite Star false;
                           mkAtom notNewline Plus true] after4
               = Some ([s0 :: summary], rest)).
  { rewrite (@matchAtoms_greedy _ _ after4 [s0 :: summary] rest).
    - reflexivity.
    - left. reflexivity.
    - cbn [a_class]. rewrite R4. exact M5. }
  assert (M3 : matchAtoms
                 (mkAtom isWhite Plus false
                  :: literal [42; 42; 19968; 21477; 35805; 27010; 25324; 42; 42]%N
                  ++ [mkAtom isColon Once false; mkAtom isWhite Star false;
                      mkAtom notNewline Plus true]) (32%N :: after3)
               = Some ([s0 :: summary], rest)).
  { rewrite (@matchAtoms_greedy _ _ (32%N :: after3) [s0 :: summary] rest).
    - reflexivity.
    - right. split; [reflexivity |]. cbn [a_class]. rewrite R3. lia.
    - cbn [a_class]. rewrite R3. cbn [skipn literal map app].
      unfold after3.
      do 10 (rewrite matchAtoms_once by reflexivity). rewrite M4.
      reflexivity. }
  cbn [literal map app] in M3.
  rewrite (@matchAtoms_greedy _ _ (32%N :: after1) [n0 :: name; s0 :: summary] rest).
  - reflexivity.
  - right. split; [reflexivity |]. cbn [a_class]. rewrite R1. lia.
  - cbn [a_class]. rewrite R1. cbn [skipn].
    rewrite (@matchAtoms_greedy _ _ after1 [s0 :: summary] rest).
    + cbn [a_group a_class]. rewrite R2. unfold after1.
      rewrite firstn_length_app. reflexivity.
    + right. split; [reflexivity |]. cbn [a_class]. rewrite R2. simpl. lia.
    + cbn [a_class]. rewrite R2. unfold after1. rewrite skipn_length_app.
      unfold after2. rewrite matchAtoms_once by reflexivity.
      rewrite (@matchAtoms_lazy _ _ _ [s0 :: summary] rest);
        [reflexivity | reflexivity | reflexivity |].
      rewrite matchAtoms_once by reflexivity.
      rewrite M3. reflexivity.
Qed.

Lemma execAll_skip (x t : jstring) :
  execAll (length x) (x ++ t) = execAll 0 t.
Proof. induction x as [|c x IH]; [reflexivity | exact IH]. Qed.

Lemma execAll_match (c : N) (s name summary tail : jstring) :
  matchAtoms projectRegex (c :: s) = Some ([name; summary], tail) ->
  execAll 0 (c :: s)
  = (name, summary) :: execAll (length s - length tail) s.
Proof. intros H. cbn [execAll]. rewrite H. reflexivity. Qed.

Lemma execAll_newline (s : jstring) :
  execAll 0 (10%N :: s) = execAll 0 s.
Proof.
  cbn [execAll].
  assert (H : matchAtoms projectRegex (10%N :: s) = None).
  { unfold projectRegex. change (s2j "###") with [35; 35; 35]%N.
    cbn [literal map app]. apply matchAtoms_once_fail; reflexivity. }
  rewrite H. reflexivity.
Qed.

Lemma execAll_section (name summary rest : jstring) :
  plainLine name = true -> plainLine summary = true ->
  match rest with
  | c :: _ => c = 10%N
  | [] => True
  end ->
  execAll 0 (section name summary ++ rest)
  = (name, summary) :: execAll 0 rest.
Proof.
  intros Hn Hs Hr.
  pose proof (matchAtoms_section name summary rest Hn Hs Hr) as M.
  assert (E : exists x, section name summary = 35%N :: x).
  { unfold section. change (s2j "### ") with [35; 35; 35; 32]%N.
    cbn [app]. eauto. }
  destruct E as [x E]. rewrite E in *. cbn [app] in *.
  rewrite (execAll_match _ _ M). f_equal.
  rewrite length_app, Nat.add_sub. apply execAll_skip.
Qed.

(** X24.  A report written section by section, each with its heading
    [### name] and its item for the summary, is read back by
    [loadProjectSummaries] as it was written: the expression finds every
    section, in order, with exactly its name and its summary, and the
    summaries loaded are those of the sections.  Names and summaries are
    lines that are not empty and do not start with white space. *)
Theorem report_parsed (sections : list (jstring * jstring)) (w : World) :
  Forall (fun p => plainLine (fst p) = true /\ plainLine (snd p) = true)
         sections ->
  execAll 0 (report sections) = sections /\
  loadProjectSummaries (report sections) w
  = (Returned (fold_left storeSummary sections []),
     withProjectSummariesCache (fold_left storeSummary sections []) w).
Proof.
  intros H.
  assert (E : execAll 0 (report sections) = sections).
  { induction H as [|[n s] l [Hn Hs] _ IH]; [reflexivity |].
    unfold report in *. cbn [flat_map fst snd]. rewrite <- app_assoc.
    cbn [app]. rewrite execAll_section by (assumption || reflexivity).
    rewrite execAll_newline, IH. reflexivity. }
  split; [exact E |].
  unfold loadProjectSummaries. rewrite E. reflexivity.
Qed.

Lemma report_parsed_witness :
  execAll 0 (report [(s2j "owner/repo", s2j "一个工具 ");
                     (s2j "other", s2j "second")])
  = [(s2j "owner/repo", s2j "一个工具 "); (s2j "other", s2j "second")].
Proof.
  apply (@report_parsed [(s2j "owner/repo", s2j "一个工具 ");
                         (s2j "other", s2j "second")] exampleWorld).
  repeat constructor.
Defined.

Lemma dictGet_dictSet_other (d : Dict) (k k' v : jstring) :
  jeqb k k' = false -> dictGet (dictSet d k v) k' = dictGet d k'.
Proof.
  intros H. induction d as [|[k0 v0] d IH]; simpl.
  - rewrite H. reflexivity.
  - destruct (jeqb k0 k) eqn:E; simpl.
    + apply jeqb_eq in E. subst k0. rewrite H. reflexivity.
    + rewrite IH. reflexivity.
Qed.

Lemma loadProjectSummaries_run (content : jstring) (w : World) :
  loadProjectSummaries content w
  = (Returned (fold_left storeSummary (execAll 0 content) []),
     withProjectSummariesCache
       (fold_left storeSummary (execAll 0 content) []) w).
Proof. reflexivity. Qed.

Lemma dictGet_objSet_other (c : Dict) (key v k : jstring) :
  jeqb key k = false -> dictGet (objSet c key v) k = dictGet c k.
Proof.
  intros H. unfold objSet.
  destruct (jeqb key (s2j "__proto__")); [reflexivity |].
  apply dictGet_dictSet_other. exact H.
Qed.

Lemma dictGet_objSet_same (c : Dict) (k v : jstring) :
  k <> s2j "__proto__" -> dictGet (objSet c k v) k = Some v.
Proof.
  intros H. unfold objSet. apply jeqb_neq in H. rewrite H.
  apply dictGet_dictSet.
Qed.

Lemma storeSummary_other (c : Dict) (sec : jstring * jstring) (k : jstring) :
  writesKey k sec = false -> dictGet (storeSummary c sec) k = dictGet c k.
Proof.
  unfold writesKey, storeSummary. cbv zeta. intros H.
  apply orb_false_iff in H. destruct H as [H1 H2].
  destruct (1 <? length (split 47 (trim (fst sec)))).
  - cbn [andb] in H2.
    rewrite dictGet_objSet_other by exact H2.
    apply dictGet_objSet_other. exact H1.
  - apply dictGet_objSet_other. exact H1.
Qed.

Lemma storeSummary_same (c : Dict) (sec : jstring * jstring) (k : jstring) :
  k <> s2j "__proto__" -> writesKey k sec = true ->
  dictGet (storeSummary c sec) k = Some (trim (snd sec)).
Proof.
  unfold writesKey, storeSummary. cbv zeta. intros Hk H.
  destruct (1 <? length (split 47 (trim (fst sec)))).
  - destruct (jeqb (toLowerCase (lastPart (split 47 (trim (fst sec))))) k)
      eqn:E2.
    + apply jeqb_eq in E2. rewrite E2. apply dictGet_objSet_same. exact Hk.
    + rewrite dictGet_objSet_other by exact E2.
      cbn [andb] in H. rewrite orb_false_r in H.
      apply jeqb_eq in H. rewrite H. apply dictGet_objSet_same. exact Hk.
  - cbn [andb] in H. rewrite orb_false_r in H.
    apply jeqb_eq in H. rewrite H. apply dictGet_objSet_same. exact Hk.
Qed.

Lemma fold_storeSummary_other (sections : list (jstring * jstring))
      (c : Dict) (k : jstring) :
  unwritten k sections = true ->
  dictGet (fold_left storeSummary sections c) k = dictGet c k.
Proof.
  revert c. induction sections as [|sec l IH]; intros c H; [reflexivity |].
  unfold unwritten in H. cbn [forallb] in H.
  apply andb_true_iff in H. destruct H as [H1 H2].
  apply negb_true_iff in H1.
  cbn [fold_left]. rewrite (IH _ H2). apply storeSummary_other. exact H1.
Qed.

(** A name that [split] cuts has a slash, and so has its lower-cased
    form. *)
Lemma split_slash (n : jstring) :
  1 < length (split 47 n) -> exists owner short, n = owner ++ 47%N :: short.
Proof.
  induction n as [|c n IH]; [simpl; lia |].
  change (split 47 (c :: n))
    with (if (c =? 47)%N then [] :: split 47 n
          else match split 47 n with
               | w :: ws => (c :: w) :: ws
               | [] => [[c]]
               end).
  destruct (N.eqb_spec c 47) as [-> | Hc].
  - intros _. exists [], n. reflexivity.
  - destruct (split 47 n) as [|p ps] eqn:E;
      [exfalso; exact (@split_nonempty _ _ E) |].
    intros H. destruct IH as (owner & short & ->); [exact H |].
    exists (c :: owner), short. reflexivity.
Qed.

(** X25.  After [loadProjectSummaries], the display resolver gives for a
    repository the summary of the last section of the report that is
    written for it, wherever in the report that section stands, whatever
    the letter case of the name and whatever the description of the
    repository.  A section is written for a name when it assigns under the
    lower-cased name; it is the last one when no later section assigns
    under that key.  When no section of the report assigns under the
    lower-cased name, a name with a slash gets the summary of the last
    section that assigns under its lower-cased last part: a repository of
    another owner gets it.  A summary that is empty after trimming does
    not count, and [__proto__] is no key. *)
Theorem last_section_wins (content : jstring)
        (before after : list (jstring * jstring)) (n s n' d : jstring)
        (w : World) :
  execAll 0 content = before ++ (n, s) :: after ->
  trim s <> [] ->
  (toLowerCase n' <> s2j "__proto__" /\
   writesKey (toLowerCase n') (n, s) = true /\
   unwritten (toLowerCase n') after = true)
  \/
  (1 < length (split 47 n') /\
   unwritten (toLowerCase n') (before ++ (n, s) :: after) = true /\
   toLowerCase (lastPart (split 47 n')) <> s2j "__proto__" /\
   writesKey (toLowerCase (lastPart (split 47 n'))) (n, s) = true /\
   unwritten (toLowerCase (lastPart (split 47 n'))) after = true) ->
  exists w',
    (loadProjectSummaries content ;;; getChineseSummary n' d) w
    = (Returned (Str (trim s)), w') /\
    translationCache w' = translationCache w.
Proof.
  intros He Hs Hn.
  rewrite (bind_run _ (loadProjectSummaries_run content w)).
  rewrite getChineseSummary_run.
  cbn [projectSummariesCache withProjectSummariesCache].
  rewrite He.
  set (final := fold_left storeSummary (before ++ (n, s) :: after) []).
  assert (G : forall k, k <> s2j "__proto__" ->
                writesKey k (n, s) = true -> unwritten k after = true ->
                objTruthy final k = Some (Str (trim s))).
  { intros k Hk Hw Hu. apply objTruthy_own; [exact Hk | | exact Hs].
    unfold final. rewrite fold_left_app. cbn [fold_left].
    rewrite (@fold_storeSummary_other _ _ _ Hu).
    apply (@storeSummary_same _ (n, s) _ Hk Hw). }
  assert (C : curatedHit final n' = Some (Str (trim s))).
  { unfold curatedHit. destruct Hn as [(H1 & H2 & H3) | (H1 & H2 & H3 & H4 & H5)].
    - rewrite (G _ H1 H2 H3). reflexivity.
    - assert (N0 : objTruthy final (toLowerCase n') = None).
      { destruct (@split_slash _ H1) as (owner & short & E).
        apply objTruthy_none.
        - rewrite E. apply plainKey_slash.
        - unfold final. rewrite (@fold_storeSummary_other _ _ _ H2).
          reflexivity. }
      rewrite N0. apply Nat.ltb_lt in H1. rewrite H1.
      apply G; assumption. }
  rewrite C. eexists. split; reflexivity.
Qed.

(** A report of three sections, two of them for [owner/repo]: a
    repository of another owner with the same last part gets the summary
    of the second section, which is not the last of the report. *)
Lemma last_section_wins_witness :
  exists w',
    (loadProjectSummaries
       (report [(s2j "owner/repo", s2j "old");
                (s2j "Owner/Repo", s2j "一个工具 ");
                (s2j "other/thing", s2j "second")]) ;;;
     getChineseSummary (s2j "Another/Repo") (s2j "a fast tool")) exampleWorld
    = (Returned (Str (s2j "一个工具")), w') /\
    translationCache w' = translationCache exampleWorld.
Proof.
  apply (@last_section_wins
           (report [(s2j "owner/repo", s2j "old");
                    (s2j "Owner/Repo", s2j "一个工具 ");
                    (s2j "other/thing", s2j "second")])
           [(s2j "owner/repo", s2j "old")]
           [(s2j "other/thing", s2j "second")]
           (s2j "Owner/Repo") (s2j "一个工具 ")
           (s2j "Another/Repo") (s2j "a fast tool") exampleWorld).
  - vm_compute. reflexivity.
  - vm_compute. discriminate.
  - right. split; [vm_compute; lia |].
    split; [vm_compute; reflexivity |].
    split; [vm_compute; discriminate |].
    split; vm_compute; reflexivity.
Defined.

Lemma firstSome_Some (A B : Type) (f : A -> option B) (l : list A) (b : B) :
  firstSome f l = Some b -> exists k, In k l /\ f k = Some b.
Proof.
  induction l as [|x l IH]; cbn [firstSome]; [discriminate |].
  destruct (f x) as [b'|] eqn:E.
  - intros H. inversion H; subst. exists x. split; [left; reflexivity | exact E].
  - intros H. destruct (IH H) as (k & Hk & Hf). exists k. split; [right |]; auto.
Qed.

Lemma counts_bound (q : Quant) (n k : nat) :
  In k (counts q n) -> k <= n /\ (q = Plus -> 1 <= k).
Proof.
  destruct q; cbn [counts].
  - destruct (Nat.leb_spec 1 n); [| intros []].
    intros [<- | []]. split; [lia | discriminate].
  - rewrite <- in_rev, in_seq. intros H. split; [lia | intros _; lia].
  - rewrite <- in_rev, in_seq. intros H. split; [lia | discriminate].
  - rewrite in_seq. intros H. split; [lia | discriminate].
Qed.

Lemma run_firstn (class : N -> bool) (s : jstring) (k : nat) :
  k <= run class s ->
  forallb class (firstn k s) = true /\ length (firstn k s) = k.
Proof.
  revert k. induction s as [|c s IH]; intros k; cbn [run].
  - intros H. assert (k = 0) by lia. subst. split; reflexivity.
  - destruct (class c) eqn:E.
    + destruct k as [|k]; [split; reflexivity |]. intros H.
      destruct (IH k) as [H1 H2]; [lia |].
      cbn [firstn forallb length]. rewrite E, H1, H2. split; reflexivity.
    + intros H. assert (k = 0) by lia. subst. split; reflexivity.
Qed.

Lemma matchAtoms_groups (class : N -> bool) (atoms : list Atom) (s : jstring)
      (groups : list jstring) (tail : jstring) :
  (forall a, In a atoms -> a_group a = true ->
             a_class a = class /\ a_quant a = Plus) ->
  matchAtoms atoms s = Some (groups, tail) ->
  Forall (fun x => x <> [] /\ forallb class x = true) groups.
Proof.
  revert s groups. induction atoms as [|a atoms IH]; intros s groups Ha.
  - cbn [matchAtoms]. intros H. inversion H. constructor.
  - cbn [matchAtoms]. intros H. apply firstSome_Some in H.
    destruct H as (k & Hk & H).
    destruct (matchAtoms atoms (skipn k s)) as [[g t]|] eqn:E; [| discriminate].
    inversion H; subst. clear H.
    assert (G : Forall (fun x => x <> [] /\ forallb class x = true) g).
    { eapply IH; [| exact E]. intros a' Ha'. apply Ha. right. exact Ha'. }
    destruct (a_group a) eqn:Hg; [| exact G].
    constructor; [| exact G].
    destruct (Ha a (or_introl eq_refl) Hg) as [Hc Hq].
    apply counts_bound in Hk. destruct Hk as [H1 H2].
    destruct (run_firstn (a_class a) s H1) as [F L].
    rewrite <- Hc. split; [| exact F].
    intros E0. rewrite E0 in L. simpl in L. specialize (H2 Hq). lia.
Qed.

Lemma projectRegex_groups (s : jstring) (groups : list jstring)
      (tail : jstring) :
  matchAtoms projectRegex s = Some (groups, tail) ->
  Forall (fun x => x <> [] /\ forallb notNewline x = true) groups.
Proof.
  apply matchAtoms_groups.
  unfold projectRegex. change (s2j "###") with [35; 35; 35]%N.
  change (s2j "**一句话概括**")
    with [42; 42; 19968; 21477; 35805; 27010; 25324; 42; 42]%N.
  cbn [literal map app]. intros a Ha Hg. cbn [In] in Ha.
  repeat (destruct Ha as [<- | Ha];
          [first [discriminate Hg | split; reflexivity] |]).
  destruct Ha.
Qed.

(** X26.  Whatever the text, a name and a summary the expression of
    [loadProjectSummaries] captures are not empty and have no newline in
    them: each is taken from one line. *)
Theorem captured_lines (markdownContent : jstring) :
  Forall (fun m => (fst m <> [] /\ forallb notNewline (fst m) = true) /\
                   (snd m <> [] /\ forallb notNewline (snd m) = true))
         (execAll 0 markdownContent).
Proof.
  generalize 0 as skip.
  induction markdownContent as [|c s IH]; intros skip; cbn [execAll];
    [constructor |].
  destruct skip as [|k]; [| apply IH].
  destruct (matchAtoms projectRegex (c :: s)) as [[g t]|] eqn:E; [| apply IH].
  apply projectRegex_groups in E.
  destruct g as [|name [|summary [|x g]]]; try apply IH.
  constructor; [| apply IH].
  inversion E as [|? ? H1 H2]; subst. inversion H2; subst.
  cbn [fst snd]. split; assumption.
Qed.

(** ** The three windows of the builder *)

Lemma reader_result (days : Z) (w : World) :
  exists w',
    readHistoryData days w = (Returned (historyAt w days), w') /\
    dataDir w' = dataDir w /\ clock w' = clock w /\
    (ticks w' = ticks w \/ ticks w' = S (ticks w)).
Proof.
  unfold historyAt. destruct (dataDir w) as [| |files] eqn:Hd.
  - eexists. split; [apply readHistoryData_noDir; exact Hd |].
    simpl. auto.
  - eexists. split; [apply readHistoryData_unreadable; exact Hd |].
    simpl. auto.
  - eexists. split; [apply readHistoryData_run; exact Hd |].
    unfold afterRead.
    destruct (filter isTrendingFile (map fst files)); simpl; auto.
Qed.

Lemma isRecent_later (now now' c c' : Z) (f : jstring) :
  (now <= now')%Z -> (c' <= c)%Z ->
  isRecent now c f = true -> isRecent now' c' f = true.
Proof.
  intros Hn Hc H. apply isRecent_inv in H. destruct H as (d & t & M & P & B).
  apply isRecent_inv. exists d, t. repeat split; auto; lia.
Qed.

Lemma recentFilesOf_later (now now' days days' : Z) (listing : list jstring) :
  (now <= now')%Z ->
  (now' - days' * msPerDay <= now - days * msPerDay)%Z ->
  recentFilesOf now days listing
  = filter (isRecent now (now - days * msPerDay)%Z)
           (recentFilesOf now' days' listing).
Proof.
  intros Hn Hc. rewrite recentFilesOf_filter. unfold recentFilesOf.
  do 2 f_equal. rewrite !filter_filter. apply filter_ext_in.
  intros f _.
  destruct (isRecent now (now - days * msPerDay) f) eqn:R; simpl.
  - rewrite (isRecent_later _ Hn Hc R). rewrite andb_true_r. reflexivity.
  - rewrite andb_false_r. reflexivity.
Qed.

Lemma subseq_flat_map (A B : Type) (g : A -> list B) (l l' : list A) :
  subseq l l' -> subseq (flat_map g l) (flat_map g l').
Proof.
  induction 1; cbn [flat_map].
  - apply subseq_nil.
  - change (flat_map g l) with ([] ++ flat_map g l).
    apply subseq_app; [apply subseq_nil_l | assumption].
  - apply subseq_app; [apply subseq_refl | assumption].
Qed.

Lemma subseq_filter (A : Type) (p : A -> bool) (l l' : list A) :
  subseq l l' -> subseq (filter p l) (filter p l').
Proof.
  induction 1; cbn [filter].
  - apply subseq_nil.
  - destruct (p x); [apply subseq_skip |]; assumption.
  - destruct (p x); [apply subseq_keep |]; assumption.
Qed.

Lemma subseq_length (A : Type) (l l' : list A) :
  subseq l l' -> length l <= length l'.
Proof. induction 1; simpl; lia. Qed.

Lemma subseq_filter_self (A : Type) (p : A -> bool) (l : list A) :
  subseq (filter p l) l.
Proof.
  induction l as [|x l IH]; cbn [filter]; [apply subseq_nil |].
  destruct (p x); [apply subseq_keep | apply subseq_skip]; exact IH.
Qed.

Lemma occurrences_subseq (n : jstring) (d d' : list HistoryItem) :
  subseq d d' -> occurrences n d <= occurrences n d'.
Proof.
  intros H. unfold occurrences. apply subseq_length, subseq_filter.
  apply subseq_flat_map. exact H.
Qed.

Lemma historyAt_subseq (w w' : World) (days days' : Z) :
  dataDir w' = dataDir w ->
  (clock w (ticks w) <= clock w' (ticks w'))%Z ->
  (clock w' (ticks w') - days' * msPerDay
   <= clock w (ticks w) - days * msPerDay)%Z ->
  subseq (historyAt w days) (historyAt w' days').
Proof.
  intros Hd Hn Hc. unfold historyAt. rewrite Hd.
  destruct (dataDir w) as [| |files]; try apply subseq_nil.
  apply subseq_flat_map.
  rewrite (recentFilesOf_later _ _ _ Hn Hc). apply subseq_filter_self.
Qed.

Lemma ranking_count (historyData : list HistoryItem) (r : RepoInfo) :
  In r (calculateRanking historyData) ->
  count r = occurrences (name r) historyData.
Proof. intros H. apply aggregate_count, ranking_incl, H. Qed.

Lemma enriched_items (l : list RepoInfo) (w : World) :
  exists entries w',
    mapM enrichRankingItem l w = (Returned entries, w') /\
    map item entries = l.
Proof.
  revert w. induction l as [|it l IH]; intros w; cbn [mapM].
  - exists [], w. split; reflexivity.
  - destruct (enrichRankingItem_total it w) as (s & d & w1 & R & _).
    destruct (IH w1) as (es & w2 & R2 & E).
    exists (mkItem it s d :: es), w2.
    rewrite (bind_run _ R), (bind_run _ R2). split; [reflexivity |].
    simpl. rewrite E. reflexivity.
Qed.

(** X27.  When the clock does not go back during a run of the builder and
    the run takes less than a day, the three lists agree: a repository of
    the week list that is in the month list too has in the month list at
    least the count it has in the week list, and the same holds from the
    month list to the quarter list. *)
Theorem counts_grow_with_window (w : World) :
  (forall i j, i <= j ->
     (clock w (ticks w + i) <= clock w (ticks w + j)
      <= clock w (ticks w + i) + msPerDay)%Z) ->
  exists rankingData w',
    generateRankingData w = (Returned rankingData, w') /\
    (forall a b, In a (r_week rankingData) -> In b (r_month rankingData) ->
       name (item a) = name (item b) -> count (item a) <= count (item b)) /\
    (forall a b, In a (r_month rankingData) -> In b (r_quarter rankingData) ->
       name (item a) = name (item b) -> count (item a) <= count (item b)).
Proof.
  intros Hclock. rewrite generateRankingData_split.
  destruct (loadTranslationCache_run w)
    as (w0 & R0 & _ & _ & _ & _ & Hd0 & Hc0 & Ht0).
  destruct (reader_result config.week w0) as (w1 & R1 & Hd1 & Hc1 & Ht1).
  destruct (reader_result config.month w1) as (w2 & R2 & Hd2 & Hc2 & Ht2).
  destruct (reader_result config.quarter w2) as (w3 & R3 & Hd3 & Hc3 & Ht3).
  destruct (enriched_items (calculateRanking (historyAt w0 config.week)) w3)
    as (l1 & w4 & R4 & E1).
  destruct (enriched_items (calculateRanking (historyAt w1 config.month)) w4)
    as (l2 & w5 & R5 & E2).
  destruct (enriched_items (calculateRanking (historyAt w2 config.quarter)) w5)
    as (l3 & w6 & R6 & E3).
  unfold bind at 1.
  rewrite (bind_run _ R0), (bind_run _ R1), (bind_run _ R2), (bind_run _ R3),
    (bind_run _ R4), (bind_run _ R5), (bind_run _ R6).
  unfold ret at 1.
  rewrite (bind_run _ (saveTranslationCache_run w6)).
  rewrite (bind_run _ (writeRanking_run (mkRanking l1 l2 l3) (afterCacheWrite w6))).
  eexists (mkRanking l1 l2 l3), _. split; [reflexivity |].
  cbn [r_week r_month r_quarter].
  assert (T : forall (wa wb : World) (i : nat),
             clock wa = clock w -> clock wb = clock w ->
             ticks wa = ticks w + i ->
             ticks wb = ticks wa \/ ticks wb = S (ticks wa) ->
             (clock wa (ticks wa) <= clock wb (ticks wb)
              <= clock wa (ticks wa) + msPerDay)%Z).
  { intros wa wb i Ha Hb Hi [Hj | Hj]; rewrite Ha, Hb, Hj, Hi.
    - apply Hclock. lia.
    - replace (S (ticks w + i)) with (ticks w + S i) by lia.
      apply Hclock. lia. }
  assert (C : forall (d d' : list HistoryItem) (la lb : list RankingItem),
             map item la = calculateRanking d ->
             map item lb = calculateRanking d' ->
             subseq d d' ->
             forall a b, In a la -> In b lb ->
                         name (item a) = name (item b) ->
                         count (item a) <= count (item b)).
  { intros d d' la lb Ea Eb S a b Ha Hb Hn.
    apply (in_map item) in Ha, Hb. rewrite Ea in Ha. rewrite Eb in Hb.
    rewrite (ranking_count _ _ Ha), (ranking_count _ _ Hb), Hn.
    apply occurrences_subseq. exact S. }
  assert (K0 : clock w0 = clock w) by exact Hc0.
  assert (K1 : clock w1 = clock w) by congruence.
  assert (K2 : clock w2 = clock w) by congruence.
  split.
  - apply (C _ _ _ _ E1 E2).
    destruct (T w0 w1 0 K0 K1 ltac:(lia) Ht1) as [A B].
    apply historyAt_subseq; [congruence | exact A |].
    unfold config.week, config.month, msPerDay in *. lia.
  - apply (C _ _ _ _ E2 E3).
    assert (I1 : exists i, ticks w1 = ticks w + i).
    { destruct Ht1 as [H | H]; [exists 0 | exists 1]; lia. }
    destruct I1 as [i I1].
    destruct (T w1 w2 i K1 K2 I1 Ht2) as [A B].
    apply historyAt_subseq; [congruence | exact A |].
    unfold config.month, config.quarter, msPerDay in *. lia.
Qed.

Lemma counts_grow_with_window_witness :
  exists rankingData w',
    generateRankingData exampleWorld = (Returned rankingData, w') /\
    (forall a b, In a (r_week rankingData) -> In b (r_month rankingData) ->
       name (item a) = name (item b) -> count (item a) <= count (item b)).
Proof.
  destruct (counts_grow_with_window exampleWorld) as (r & w' & R & H & _).
  - intros i j _. unfold exampleWorld. cbn [clock]. unfold msPerDay. lia.
  - exists r, w'. split; [exact R | exact H].
Defined.

(** ** The stars as a number *)

(** X28.  How the order of the ranking reads the stars: the commas are
    dropped and the decimal digits at the head give the number; whatever
    follows the first other character is ignored.  So "1,234" counts as
    1234 and "12.5k" as 12. *)
Theorem stars_number_reading (d rest : jstring) (c : N) :
  forallb (fun u => isDigit u || (u =? 44)%N) d = true ->
  existsb isDigit d = true ->
  isDigit c = false -> c <> 44%N -> c <> 120%N -> c <> 88%N ->
  starsNumber d = digitsValue (stripCommas d) /\
  starsNumber (d ++ c :: rest) = starsNumber d.
Proof.
  intros Hd He Hc H44 H120 H88.
  pose proof (stripCommas_digits _ Hd) as HD.
  assert (Hne : exists a D, stripCommas d = a :: D).
  { apply existsb_exists in He. destruct He as (u & Hu & Du).
    assert (In u (stripCommas d)).
    { apply filter_In. split; [exact Hu |].
      destruct (N.eqb_spec u 44) as [-> | _]; [discriminate | reflexivity]. }
    destruct (stripCommas d) as [|a D]; [contradiction | eauto]. }
  destruct Hne as (a & D & E).
  assert (P1 : parseInt (stripCommas d) = Some (digitsValue (stripCommas d))).
  { rewrite E in *. rewrite <- (app_nil_r (a :: D)) at 1.
    apply parseInt_digits; [exact HD | exact I | exact I]. }
  assert (P2 : parseInt (stripCommas (d ++ c :: rest))
               = Some (digitsValue (stripCommas d))).
  { rewrite stripCommas_app. unfold stripCommas at 2. cbn [filter].
    apply N.eqb_neq in H44. rewrite H44. cbn [negb].
    rewrite E in *. apply parseInt_digits; [exact HD | exact Hc |].
    split; assumption. }
  unfold starsNumber. rewrite P1, P2. split; reflexivity.
Qed.

Lemma stars_number_reading_witness :
  starsNumber (s2j "12") = 12%Z /\
  starsNumber (s2j "12.5k") = starsNumber (s2j "12").
Proof.
  destruct (@stars_number_reading (s2j "12") (s2j "5k") 46)
    as [H1 H2]; try reflexivity; try discriminate.
  split; [exact H1 | exact H2].
Defined.

(** ** Descriptions without Latin letters *)

Lemma startsWith_head (s p : jstring) (c : N) :
  startsWith s (c :: p) = true -> In c s.
Proof.
  destruct s as [|y s]; cbn [startsWith]; [discriminate |].
  intros H. apply andb_true_iff in H. destruct H as [H _].
  apply N.eqb_eq in H. left. symmetry. exact H.
Qed.

Lemma includes_head_In (s p : jstring) (c : N) :
  includes s (c :: p) = true -> In c s.
Proof.
  induction s as [|y s IH].
  - cbn [includes startsWith]. discriminate.
  - change (includes (y :: s) (c :: p))
      with (startsWith (y :: s) (c :: p) || includes s (c :: p)).
    intros H. apply orb_true_iff in H. destruct H as [H | H].
    + eapply startsWith_head; eauto.
    + right. apply IH. exact H.
Qed.

Lemma toLowerCase_latin (text : jstring) :
  (forall c, In c text -> isLatin c = false) ->
  forall c, In c (toLowerCase text) -> isLatin c = false.
Proof.
  intros H c Hc. unfold toLowerCase in Hc. apply in_map_iff in Hc.
  destruct Hc as (x & <- & Hx). specialize (H x Hx).
  unfold lowerUnit. unfold isLatin in H. apply orb_false_iff in H.
  destruct H as [H1 H2]. rewrite H1. unfold isLatin. rewrite H1, H2.
  reflexivity.
Qed.

Lemma substitute_no_latin (table : list (jstring * jstring))
      (lowerText text : jstring) :
  forallb latinHead table = true ->
  (forall c, In c lowerText -> isLatin c = false) ->
  fold_left (substitute lowerText) table text = text.
Proof.
  intros Ht Hl. revert text.
  induction table as [|[eng chi] table IH]; intros text; [reflexivity |].
  cbn [forallb] in Ht. apply andb_true_iff in Ht. destruct Ht as [H1 H2].
  cbn [fold_left]. unfold substitute at 2.
  replace (includes lowerText eng) with false; [apply IH; exact H2 |].
  symmetry. unfold latinHead in H1. cbn [fst] in H1.
  destruct eng as [|c eng]; [discriminate |].
  destruct (includes lowerText (c :: eng)) eqn:E; [| reflexivity].
  apply includes_head_In in E. rewrite (Hl _ E) in H1. discriminate.
Qed.

(** X29.  A description without a letter of the Basic Latin alphabet, one
    written in Chinese for instance, is never changed by the keyword
    pass: every source term of the table starts with such a letter.
    [simpleTranslate] returns it as it is when it has at most 20 units,
    and with the marker before it otherwise. *)
Theorem no_latin_unchanged (text : jstring) :
  (forall c, In c text -> isLatin c = false) ->
  keywordPass text = text /\
  simpleTranslate text
  = if 20 <? length text then marker ++ text else text.
Proof.
  intros H.
  assert (K : keywordPass text = text).
  { unfold keywordPass. apply substitute_no_latin.
    - vm_compute. reflexivity.
    - apply toLowerCase_latin. exact H. }
  split; [exact K |].
  destruct (jstring_eq_dec text []) as [-> | Hne]; [reflexivity |].
  rewrite (simpleTranslate_cases Hne), K, jeqb_refl.
  cbn [negb]. rewrite andb_false_r. reflexivity.
Qed.

Lemma no_latin_unchanged_witness :
  simpleTranslate (s2j "一个简单的工具") = s2j "一个简单的工具".
Proof.
  destruct (@no_latin_unchanged (s2j "一个简单的工具")) as [_ H].
  - intros c Hc. vm_compute in Hc.
    repeat (destruct Hc as [<- | Hc]; [reflexivity |]). destruct Hc.
  - exact H.
Defined.
